(** * AZLeads: lead forwarding and callback reconciliation

    A shallow embedding of the forwarding worker ([processForwardLead],
    [buildAnonymizedPayload], [applyTransform], [createHmacSignature]), of
    the payload construction of the [forward-lead] edge function, of the
    advertiser callback route ([verifyHmacSignature] and the POST handler)
    and of [RedisHelper.checkReplayAttack], together with the properties
    the specification states about them; and, for Part III, of the manual
    retry, of the rest of [RedisHelper], of the rate-limit middleware and
    of the whole edge function.

    Conventions.
    - Strings are [string], read as the UTF-8 bytes of the JavaScript
      string; JSON numbers are exact rationals ([Q]).
    - The clock is [Date.now()] in milliseconds ([Z]); one call of a
      function reads it once.
    - A JavaScript object is an association list in property insertion
      order; only own properties are looked up, so field names that
      [Object.prototype] defines ([object_prototype_names]) are outside
      the model, and the properties that depend on it say so.
    - Database tables are lists of rows in insertion order, and every
      database call succeeds, except an update of a row that is not
      there; rows carry the [data] the code writes.
    - The Redis keyspace is a [gmap] from keys to a value and an optional
      expiry instant; a key is there until that instant.
    - A function that can throw returns an [Outcome]; [try]/[catch] is a
      match on it.  Logging and the latency histogram are left out; the
      forward-attempt counter is kept because it shows how an outcome was
      classified. *)

From Stdlib Require Import ZArith NArith QArith Ascii String Bool Lia.
From Stdlib.Strings Require Import Byte.
From Stdlib Require Import DecimalString DecimalPos.
From stdpp Require Import base option list gmap strings.

Local Open Scope Z_scope.

(* ===================================================================== *)
(** * Part I.  Definitions                                                *)
(* ===================================================================== *)

(** ** SHA-256 (FIPS 180-4) and HMAC (RFC 2104)

    [crypto.createHmac('sha256', key)] of Node.js, on byte lists.  Words
    are 32-bit values in [N] with the wrap-around written out. *)

Module Sha256.
Local Open Scope N_scope.

Definition mask32 : N := 0xFFFFFFFF.
Definition add32 (a b : N) : N := N.land (a + b) mask32.
Definition rotr (n x : N) : N :=
  N.lor (N.shiftr x n) (N.land (N.shiftl x (32 - n)) mask32).
Definition shr (n x : N) : N := N.shiftr x n.
Definition not32 (x : N) : N := N.lxor x mask32.

Definition Ch (x y z : N) : N := N.lxor (N.land x y) (N.land (not32 x) z).
Definition Maj (x y z : N) : N :=
  N.lxor (N.lxor (N.land x y) (N.land x z)) (N.land y z).
Definition bigSigma0 (x : N) : N :=
  N.lxor (N.lxor (rotr 2 x) (rotr 13 x)) (rotr 22 x).
Definition bigSigma1 (x : N) : N :=
  N.lxor (N.lxor (rotr 6 x) (rotr 11 x)) (rotr 25 x).
Definition smallSigma0 (x : N) : N :=
  N.lxor (N.lxor (rotr 7 x) (rotr 18 x)) (shr 3 x).
Definition smallSigma1 (x : N) : N :=
  N.lxor (N.lxor (rotr 17 x) (rotr 19 x)) (shr 10 x).

(** The round constants and the initial hash value are defined, as in the
    standard, from the first primes: the first 32 bits of the fractional
    parts of their cube roots and of their square roots. *)
Definition is_prime (n : N) : bool :=
  (1 <? n) && forallb (fun d => negb (n mod d =? 0))
                      (map N.of_nat (seq 2 (N.to_nat n - 2))).

Definition primes (count : nat) : list N :=
  firstn count (List.filter is_prime (map N.of_nat (seq 2 310))).

(** The integer cube root, found bit by bit from the top. *)
Fixpoint cube_root (bits : nat) (n r : N) : N :=
  match bits with
  | O => r
  | S b =>
      let r' := N.lor r (N.shiftl 1 (N.of_nat b)) in
      if r' * r' * r' <=? n then cube_root b n r' else cube_root b n r
  end.

Definition K : list N :=
  Eval vm_compute in
    map (fun p => N.land (cube_root 36 (N.shiftl p 96) 0) mask32) (primes 64).

Definition H0 : list N :=
  Eval vm_compute in
    map (fun p => N.land (N.sqrt (N.shiftl p 64)) mask32) (primes 8).

(** Big-endian encoding of [x] on [n] bytes. *)
Fixpoint be_bytes (n : nat) (x : N) : list N :=
  match n with
  | O => []
  | S n' => N.land (N.shiftr x (8 * N.of_nat n')) 0xFF :: be_bytes n' x
  end.

Definition pad (msg : list N) : list N :=
  let len := N.of_nat (length msg) in
  let zeros := (119 - len mod 64) mod 64 in
  msg ++ [0x80] ++ repeat 0 (N.to_nat zeros) ++ be_bytes 8 (8 * len).

Fixpoint words (bs : list N) : list N :=
  match bs with
  | a :: b :: c :: d :: rest =>
      (N.shiftl a 24 + N.shiftl b 16 + N.shiftl c 8 + d) :: words rest
  | _ => []
  end.

(** Message schedule: extends the 16 words of a block by [n] words. *)
Fixpoint schedule (n : nat) (w : list N) : list N :=
  match n with
  | O => w
  | S n' =>
      let t := length w in
      let at_ (i : nat) := nth (t - i) w 0 in
      schedule n'
        (w ++ [add32 (add32 (smallSigma1 (at_ 2%nat)) (at_ 7%nat))
                     (add32 (smallSigma0 (at_ 15%nat)) (at_ 16%nat))])
  end.

Record regs := Regs { ra : N; rb : N; rc : N; rd : N;
                      re : N; rf : N; rg : N; rh : N }.

Definition round (r : regs) (kw : N * N) : regs :=
  let t1 := add32 (add32 (add32 (rh r) (bigSigma1 (re r)))
                         (add32 (Ch (re r) (rf r) (rg r)) (fst kw))) (snd kw) in
  let t2 := add32 (bigSigma0 (ra r)) (Maj (ra r) (rb r) (rc r)) in
  Regs (add32 t1 t2) (ra r) (rb r) (rc r) (add32 (rd r) t1) (re r) (rf r) (rg r).

Definition regs_of (h : list N) : regs :=
  Regs (nth 0 h 0) (nth 1 h 0) (nth 2 h 0) (nth 3 h 0)
       (nth 4 h 0) (nth 5 h 0) (nth 6 h 0) (nth 7 h 0).

Definition compress (h : list N) (block : list N) : list N :=
  let w := schedule 48 (words block) in
  let r0 := regs_of h in
  let r := fold_left round (combine K w) r0 in
  [ add32 (ra r0) (ra r); add32 (rb r0) (rb r); add32 (rc r0) (rc r);
    add32 (rd r0) (rd r); add32 (re r0) (re r); add32 (rf r0) (rf r);
    add32 (rg r0) (rg r); add32 (rh r0) (rh r) ].

Fixpoint blocks (fuel : nat) (h : list N) (bs : list N) : list N :=
  match fuel, bs with
  | S fuel', _ :: _ => blocks fuel' (compress h (firstn 64 bs)) (skipn 64 bs)
  | _, _ => h
  end.

Definition sha256 (msg : list N) : list N :=
  let p := pad msg in
  concat (map (be_bytes 4) (blocks (length p) H0 p)).

Definition xor_pad (c : N) (key : list N) : list N :=
  map (N.lxor c) (key ++ repeat 0 (64 - length key)).

Definition hmac_sha256 (key msg : list N) : list N :=
  let key' := if (64 <? length key)%nat then sha256 key else key in
  sha256 (xor_pad 0x5c key' ++ sha256 (xor_pad 0x36 key' ++ msg)).
End Sha256.

(** ** Byte and hexadecimal encodings of Node.js [Buffer] *)

Module Buffer.
Definition bytes_of_string (s : string) : list N :=
  map Byte.to_N (list_byte_of_string s).

Definition hexdigit (n : N) : ascii :=
  match n with
  | 0 => "0" | 1 => "1" | 2 => "2" | 3 => "3" | 4 => "4" | 5 => "5"
  | 6 => "6" | 7 => "7" | 8 => "8" | 9 => "9" | 10 => "a" | 11 => "b"
  | 12 => "c" | 13 => "d" | 14 => "e" | _ => "f"
  end%N%char.

(** [buf.toString('hex')] / [digest('hex')]: two lower-case digits per byte. *)
Fixpoint toHex (bs : list byte) : string :=
  match bs with
  | [] => EmptyString
  | b :: bs' =>
      let n := Byte.to_N b in
      String (hexdigit (n / 16)) (String (hexdigit (n mod 16)) (toHex bs'))
  end.

(** Value of one hexadecimal digit; both cases are accepted. *)
Definition unhex (c : ascii) : option N :=
  let n := N_of_ascii c in
  if ((48 <=? n) && (n <=? 57))%N then Some (n - 48)%N
  else if ((97 <=? n) && (n <=? 102))%N then Some (n - 87)%N
  else if ((65 <=? n) && (n <=? 70))%N then Some (n - 55)%N
  else None.

(** [Buffer.from(s, 'hex')]: decodes pairs of digits and stops, keeping
    what it has, at the first pair that is not hexadecimal; a trailing
    single character is dropped. *)
Fixpoint fromHex (s : string) : list byte :=
  match s with
  | String a (String b rest) =>
      match unhex a, unhex b with
      | Some x, Some y =>
          match Byte.of_N (16 * x + y) with
          | Some v => v :: fromHex rest
          | None => []
          end
      | _, _ => []
      end
  | _ => []
  end.
End Buffer.

(** ** JavaScript values, objects and string built-ins *)

Module Js.
#[local] Unset Elimination Schemes.
(** A JSON value.  [undefined] is the [None] of [option JValue]. *)
Inductive JValue : Type :=
| JNull
| JBool (b : bool)
| JNum (q : Q)
| JStr (s : string)
| JArr (items : list JValue)
| JObj (props : list (string * JValue)).
#[local] Set Elimination Schemes.

(** An object: own properties in insertion order, keys without repeats. *)
Definition JsObject : Type := list (string * JValue).

(** ToBoolean. *)
Definition truthy (v : JValue) : bool :=
  match v with
  | JNull => false
  | JBool b => b
  | JNum q => negb (Qeq_bool q 0)
  | JStr s => negb (String.eqb s EmptyString)
  | JArr _ | JObj _ => true
  end.

Definition truthy_opt (v : option JValue) : bool :=
  match v with Some x => truthy x | None => false end.

(** [a || b]. *)
Definition or_else (a b : option JValue) : option JValue :=
  if truthy_opt a then a else b.

(** [v !== undefined && v !== null]. *)
Definition present (v : option JValue) : bool :=
  match v with
  | None | Some JNull => false
  | Some _ => true
  end.

(** [s] as a condition, for a [string | null | undefined]. *)
Definition truthy_str (s : option string) : bool :=
  match s with Some x => negb (String.eqb x EmptyString) | None => false end.

(** [o[k]]. *)
Fixpoint obj_get (o : JsObject) (k : string) : option JValue :=
  match o with
  | [] => None
  | (k', v) :: o' => if String.eqb k' k then Some v else obj_get o' k
  end.

(** [o[k] = v]: an existing property keeps its place, a new one goes last. *)
Fixpoint obj_set (o : JsObject) (k : string) (v : JValue) : JsObject :=
  match o with
  | [] => [(k, v)]
  | (k', v') :: o' =>
      if String.eqb k' k then (k', v) :: o' else (k', v') :: obj_set o' k v
  end.

(** [Object.keys(o)]. *)
Definition obj_keys (o : JsObject) : list string := map fst o.

(** [{ ...base, ...src }] where [base] stands for the properties written
    before the spread: each property of [src] is assigned in turn. *)
Definition obj_spread (base src : JsObject) : JsObject :=
  fold_left (fun acc kv => obj_set acc (fst kv) (snd kv)) src base.

(** [String(null-or-string)] as a JSON value. *)
Definition of_nullable (s : option string) : JValue :=
  match s with Some x => JStr x | None => JNull end.

(** [s.split(c)] for a one-character separator: never empty. *)
Fixpoint split (c : ascii) (s : string) : list string :=
  match s with
  | EmptyString => [EmptyString]
  | String a s' =>
      if Ascii.eqb a c then EmptyString :: split c s'
      else match split c s' with
           | [] => [String a EmptyString]
           | w :: ws => String a w :: ws
           end
  end.

Fixpoint drop (n : nat) (s : string) : string :=
  match n, s with
  | S n', String _ s' => drop n' s'
  | _, _ => s
  end.

(** The UTF-8 encodings of the ECMAScript white space and line
    terminator code points. *)
Definition white_space : list string :=
  map string_of_list_byte
    [ [x09]; [x0a]; [x0b]; [x0c]; [x0d]; [x20]; [xc2; xa0];
      [xe1; x9a; x80];
      [xe2; x80; x80]; [xe2; x80; x81]; [xe2; x80; x82]; [xe2; x80; x83];
      [xe2; x80; x84]; [xe2; x80; x85]; [xe2; x80; x86]; [xe2; x80; x87];
      [xe2; x80; x88]; [xe2; x80; x89]; [xe2; x80; x8a];
      [xe2; x80; xa8]; [xe2; x80; xa9]; [xe2; x80; xaf]; [xe2; x81; x9f];
      [xe3; x80; x80]; [xef; xbb; xbf] ]%byte.

Definition strip_one (s : string) : option string :=
  match filter (fun w => String.prefix w s = true) white_space with
  | w :: _ => Some (drop (String.length w) s)
  | [] => None
  end.

Fixpoint trimStart_fuel (fuel : nat) (s : string) : string :=
  match fuel with
  | O => s
  | S fuel' =>
      match strip_one s with
      | Some s' => trimStart_fuel fuel' s'
      | None => s
      end
  end.

Definition trimStart (s : string) : string :=
  trimStart_fuel (String.length s) s.

Definition digit (c : ascii) : option Z :=
  let n := N_of_ascii c in
  if ((48 <=? n) && (n <=? 57))%N then Some (Z.of_N n - 48) else None.

(** Value of the longest prefix of decimal digits, read after [acc]. *)
Fixpoint digits (acc : option Z) (s : string) : option Z :=
  match s with
  | EmptyString => acc
  | String c s' =>
      match digit c with
      | Some d => digits (Some (10 * default 0 acc + d)) s'
      | None => acc
      end
  end.

(** [parseInt(s, 10)]; [None] is NaN.  The value is exact, which agrees
    with the double the engine computes below 2^53. *)
Definition parseInt (s : string) : option Z :=
  match trimStart s with
  | String "-" s' => Z.opp <$> digits None s'
  | String "+" s' => digits None s'
  | s' => digits None s'
  end.

(** Splits [s] around the first occurrence of [p]. *)
Fixpoint cut (p s : string) : option (string * string) :=
  if String.prefix p s then Some (EmptyString, drop (String.length p) s)
  else match s with
       | EmptyString => None
       | String c s' =>
           match cut p s' with
           | Some (before, after) => Some (String c before, after)
           | None => None
           end
       end.

(** GetSubstitution for a string pattern (no capture groups): [$$], [$&],
    [$`] and [$'] are expanded, every other [$] is literal. *)
Fixpoint substitution (matched before after : string) (r : string) : string :=
  match r with
  | EmptyString => EmptyString
  | String a rest =>
      if Ascii.eqb a "$" then
        match rest with
        | String b rest' =>
            if Ascii.eqb b "$" then
              String "$" (substitution matched before after rest')
            else if Ascii.eqb b "&" then
              matched +:+ substitution matched before after rest'
            else if Ascii.eqb b "`" then
              before +:+ substitution matched before after rest'
            else if Ascii.eqb b "'" then
              after +:+ substitution matched before after rest'
            else String a (substitution matched before after rest)
        | EmptyString => String a EmptyString
        end
      else String a (substitution matched before after rest)
  end.

(** [s.replace(p, r)] for strings [p] and [r]: the first occurrence only. *)
Definition replace (s p r : string) : string :=
  match cut p s with
  | Some (before, after) =>
      before +:+ substitution p before after r +:+ after
  | None => s
  end.

(** No character of [s] is [c]. *)
Fixpoint free_of (c : ascii) (s : string) : Prop :=
  match s with
  | EmptyString => True
  | String a s' => Ascii.eqb a c = false /\ free_of c s'
  end.

(** [n.toString()] for an integer. *)
Definition Z_toString (n : Z) : string :=
  NilZero.string_of_int (Z.to_int n).

(** The property names every object inherits from [Object.prototype].
    [o[k]] for such a [k] that [o] does not own reads an inherited object
    or function, which is no JSON value, and [o["__proto__"] = v] goes
    through a setter that makes no own property: [obj_get] and [obj_set]
    are the own-property operations, and the properties that depend on
    the difference are stated for field names outside this list. *)
Definition object_prototype_names : list string :=
  [ "__proto__"; "constructor"; "hasOwnProperty"; "isPrototypeOf";
    "propertyIsEnumerable"; "toLocaleString"; "toString"; "valueOf";
    "__defineGetter__"; "__defineSetter__"; "__lookupGetter__";
    "__lookupSetter__" ]%string.
End Js.
Export Js.

(** ** The platform

    What the code takes from Node.js and from its configuration: the
    Unicode-aware string methods, the configured HMAC algorithm
    ([config.hmacAlgo], [process.env.HMAC_ALGO || 'sha256']) with the keyed
    hash it names, and [JSON.stringify]. *)

Class Runtime : Type := {
  toUpperCase : string -> string;
  toLowerCase : string -> string;
  trim : string -> string;
  hmacAlgo : string;
  (** [crypto.createHmac(config.hmacAlgo, key).update(msg).digest()] *)
  hmacDigest : string -> string -> list byte;
  JSON_stringify : JValue -> string
}.

(** ** Data model (the Prisma rows the pipeline reads and writes) *)

Inductive LeadStatus : Type :=
| pending | forwarded | approved | rejected | no_mapping | forward_failed.

Definition LeadStatus_eqb (a b : LeadStatus) : bool :=
  match a, b with
  | pending, pending | forwarded, forwarded | approved, approved
  | rejected, rejected | no_mapping, no_mapping
  | forward_failed, forward_failed => true
  | _, _ => false
  end.

Record Advertiser : Type := {
  adv_id : string;
  endpointUrl : string;
  endpointSecret : option string
}.

Record TrafficLog : Type := {
  rawPayload : JsObject
}.

(** A lead row.  The [trafficLog] relation is NOT NULL and is read with the
    row ([include]); the advertiser relation is nullable and is joined on
    [advertiserId]. *)
Record Lead : Type := {
  lead_id : string;
  azTxId : string;
  affiliateId : string;
  advertiserId : option string;
  offerId : option string;
  trafficLog : TrafficLog;
  email : option string;
  phone : option string;
  firstName : option string;
  lastName : option string;
  country : option string;
  status : LeadStatus;
  advertiserStatus : option string;
  ftdAt : option Z;
  advertiserResponse : option JValue;
  payout : option Q;
  updatedAt : Z
}.

(** A routing rule with its (NOT NULL) advertiser relation. *)
Record Mapping : Type := {
  map_affiliateId : string;
  map_offerId : string;
  map_advertiser : Advertiser;
  forwardUrl : option string;
  enabled : bool
}.

(** [{ type, template }], stored as JSON on the field mapping. *)
Record Transform : Type := {
  ttype : string;
  template : option string
}.

Record FieldMapping : Type := {
  fm_advertiserId : string;
  sourceField : string;
  targetField : string;
  allowlist : bool;
  transform : option Transform
}.

Record ForwardRequest : Type := {
  req_url : string;
  req_headers : list (string * string);
  req_body : JsObject
}.

Record AxiosResponse : Type := {
  resp_status : Z;
  resp_headers : JValue;
  resp_data : JValue
}.

Inductive ForwardResponse : Type :=
| ResponseData (r : AxiosResponse)
| ResponseError (message : string).

Record ForwardLog : Type := {
  fl_leadId : string;
  attemptNo : Z;
  fl_request : ForwardRequest;
  fl_response : ForwardResponse;
  fl_statusCode : option Z
}.

(** The body of an advertiser callback ([CallbackRequest]); [cb_extra]
    holds the properties the interface leaves open. *)
Record CallbackRequest : Type := {
  cb_az_tx_id : option string;
  cb_status : option string;
  cb_external_id : option string;
  cb_payout : option Q;
  cb_extra : JsObject
}.

Record CallbackLog : Type := {
  cl_advertiserId : string;
  cl_azTxId : string;
  cl_payload : CallbackRequest;
  cl_signature : option string;
  cl_statusCode : Z
}.

Record Commission : Type := {
  com_leadId : option string;
  com_advertiserId : string;
  com_affiliateId : string;
  amount : Q;
  description : string
}.

(** A Redis entry: the value and the instant (ms) at which it expires. *)
Record RedisEntry : Type := {
  re_value : string;
  re_expiresAt : option Z
}.

(** The stores the pipeline works on. *)
Record World : Type := {
  leads : list Lead;
  advertisers : list Advertiser;
  mappings : list Mapping;
  fieldMappings : list FieldMapping;
  forwardLogs : list ForwardLog;
  callbackLogs : list CallbackLog;
  commissions : list Commission;
  redis : gmap string RedisEntry;
  (** [Metrics.recordForwardAttempt] calls: advertiser label and result *)
  forwardAttempts : list (string * string)
}.

Definition with_leads (f : list Lead -> list Lead) (w : World) : World :=
  {| leads := f (leads w); advertisers := advertisers w;
     mappings := mappings w; fieldMappings := fieldMappings w;
     forwardLogs := forwardLogs w; callbackLogs := callbackLogs w;
     commissions := commissions w; redis := redis w;
     forwardAttempts := forwardAttempts w |}.

Definition with_forwardLogs (f : list ForwardLog -> list ForwardLog)
    (w : World) : World :=
  {| leads := leads w; advertisers := advertisers w;
     mappings := mappings w; fieldMappings := fieldMappings w;
     forwardLogs := f (forwardLogs w); callbackLogs := callbackLogs w;
     commissions := commissions w; redis := redis w;
     forwardAttempts := forwardAttempts w |}.

Definition with_callbackLogs (f : list CallbackLog -> list CallbackLog)
    (w : World) : World :=
  {| leads := leads w; advertisers := advertisers w;
     mappings := mappings w; fieldMappings := fieldMappings w;
     forwardLogs := forwardLogs w; callbackLogs := f (callbackLogs w);
     commissions := commissions w; redis := redis w;
     forwardAttempts := forwardAttempts w |}.

Definition with_commissions (f : list Commission -> list Commission)
    (w : World) : World :=
  {| leads := leads w; advertisers := advertisers w;
     mappings := mappings w; fieldMappings := fieldMappings w;
     forwardLogs := forwardLogs w; callbackLogs := callbackLogs w;
     commissions := f (commissions w); redis := redis w;
     forwardAttempts := forwardAttempts w |}.

Definition with_redis (f : gmap string RedisEntry -> gmap string RedisEntry)
    (w : World) : World :=
  {| leads := leads w; advertisers := advertisers w;
     mappings := mappings w; fieldMappings := fieldMappings w;
     forwardLogs := forwardLogs w; callbackLogs := callbackLogs w;
     commissions := commissions w; redis := f (redis w);
     forwardAttempts := forwardAttempts w |}.

Definition with_forwardAttempts
    (f : list (string * string) -> list (string * string))
    (w : World) : World :=
  {| leads := leads w; advertisers := advertisers w;
     mappings := mappings w; fieldMappings := fieldMappings w;
     forwardLogs := forwardLogs w; callbackLogs := callbackLogs w;
     commissions := commissions w; redis := redis w;
     forwardAttempts := f (forwardAttempts w) |}.

(** [db.lead.update({ where: { id }, data })]: [id] is the primary key. *)
Definition lead_update (id : string) (f : Lead -> Lead) (w : World) : World :=
  with_leads (map (fun l => if String.eqb (lead_id l) id then f l else l)) w.

(** [Metrics.recordForwardAttempt(advertiser, status)]. *)
Definition recordForwardAttempt (adv st : string) (w : World) : World :=
  with_forwardAttempts (fun m => m ++ [(adv, st)]) w.

(** An exception: its [message] and, for an Axios error that carries a
    response, [error.response.status]. *)
Record JsError : Type := {
  message : string;
  response_status : option Z
}.

(** How a call ends. *)
Inductive Outcome (A : Type) : Type :=
| Returned (a : A)
| Threw (e : JsError).
Arguments Returned {A} a.
Arguments Threw {A} e.

(** [data] of a [db.lead.update]: a field left [None] is not written. *)
Record LeadPatch : Type := {
  p_status : option LeadStatus;
  p_advertiserId : option string;
  p_advertiserResponse : option JValue;
  p_advertiserStatus : option string;
  p_payout : option Q;
  p_ftdAt : option Z;
  p_updatedAt : option Z
}.

Definition no_patch : LeadPatch :=
  {| p_status := None; p_advertiserId := None; p_advertiserResponse := None;
     p_advertiserStatus := None; p_payout := None; p_ftdAt := None;
     p_updatedAt := None |}.

Definition apply_patch (p : LeadPatch) (l : Lead) : Lead :=
  {| lead_id := lead_id l; azTxId := azTxId l; affiliateId := affiliateId l;
     advertiserId :=
       match p_advertiserId p with Some a => Some a | None => advertiserId l end;
     offerId := offerId l; trafficLog := trafficLog l;
     email := email l; phone := phone l; firstName := firstName l;
     lastName := lastName l; country := country l;
     status := default (status l) (p_status p);
     advertiserStatus :=
       match p_advertiserStatus p with
       | Some a => Some a | None => advertiserStatus l end;
     ftdAt := match p_ftdAt p with Some t => Some t | None => ftdAt l end;
     advertiserResponse :=
       match p_advertiserResponse p with
       | Some r => Some r | None => advertiserResponse l end;
     payout := match p_payout p with Some q => Some q | None => payout l end;
     updatedAt := default (updatedAt l) (p_updatedAt p) |}.

(** ** The forwarding worker *)

Module ForwardLead.
Section WithRuntime.
Context `{Runtime}.

(** A BullMQ job as the worker sees it. *)
Record Job : Type := {
  job_leadId : string;
  attemptsMade : Z;
  opts_attempts : option Z
}.

(** What the advertiser's endpoint does with the POST. *)
Inductive NetResult : Type :=
| NetResponse (r : AxiosResponse)
| NetFailure (message : string).

(** [axios.post(url, body, { validateStatus: status => status < 500 })]:
    resolves for a status below 500, rejects otherwise with an error that
    carries the response; a transport failure rejects without a response. *)
Definition axios_post (net : NetResult) : Outcome AxiosResponse :=
  match net with
  | NetResponse r =>
      if resp_status r <? 500 then Returned r
      else Threw {| message := "Request failed with status code "
                                +:+ Z_toString (resp_status r);
                    response_status := Some (resp_status r) |}
  | NetFailure m => Threw {| message := m; response_status := None |}
  end.

Definition applyTransform (value : JValue) (transform : option Transform)
  : JValue :=
  match transform, value with
  | Some t, JStr s =>
      if String.eqb (ttype t) "uppercase" then JStr (toUpperCase s)
      else if String.eqb (ttype t) "lowercase" then JStr (toLowerCase s)
      else if String.eqb (ttype t) "trim" then JStr (trim s)
      else if String.eqb (ttype t) "concat" then
        match template t with
        | Some tpl =>
            let r := replace tpl "{{value}}" s in
            if String.eqb r EmptyString then JStr s else JStr r
        | None => JStr s
        end
      else JStr s
  | _, _ => value
  end.

Definition standardFields (lead : Lead) : JsObject :=
  [ ("email", of_nullable (email lead));
    ("phone", of_nullable (phone lead));
    ("first_name", of_nullable (firstName lead));
    ("last_name", of_nullable (lastName lead));
    ("country", of_nullable (country lead)) ]%string.

(** [rawPayload[sourceField] || standardFields[sourceField]], for a source
    field that is an own property or no property at all: a source field in
    [object_prototype_names] that the object does not own reads an
    inherited value in JavaScript and is outside the model. *)
Definition resolveValue (lead : Lead) (source : string) : option JValue :=
  or_else (obj_get (rawPayload (trafficLog lead)) source)
          (obj_get (standardFields lead) source).

(** One turn of the loop over the field mappings, for a target field
    other than [__proto__] (an assignment to that name goes through the
    setter of [Object.prototype] and is outside the model). *)
Definition applyMapping (lead : Lead) (payload : JsObject)
    (mapping : FieldMapping) : JsObject :=
  match resolveValue lead (sourceField mapping) with
  | None | Some JNull => payload
  | Some value =>
      let value' :=
        match transform mapping with
        | Some t => applyTransform value (Some t)
        | None => value
        end in
      obj_set payload (targetField mapping) value'
  end.

(** One turn of [Object.entries(standardFields).forEach]. *)
Definition copyStandard (payload : JsObject) (kv : string * JValue)
  : JsObject :=
  if present (Some (snd kv)) then obj_set payload (fst kv) (snd kv)
  else payload.

(** [db.fieldMapping.findMany({ where: { advertiserId, allowlist: true } })]. *)
Definition findFieldMappings (w : World) (advertiser : Advertiser)
  : list FieldMapping :=
  List.filter
    (fun fm => String.eqb (fm_advertiserId fm) (adv_id advertiser)
               && allowlist fm)
    (fieldMappings w).

Definition buildAnonymizedPayload (w : World) (lead : Lead)
    (advertiser : Advertiser) : JsObject :=
  let fieldMappings := findFieldMappings w advertiser in
  if (0 <? length fieldMappings)%nat then
    fold_left (applyMapping lead) fieldMappings []
  else
    fold_left copyStandard (standardFields lead) [].

(** [{ az_tx_id: lead.azTxId, ...anonymizedPayload }]. *)
Definition requestPayload (lead : Lead) (anonymizedPayload : JsObject)
  : JsObject :=
  obj_spread [("az_tx_id"%string, JStr (azTxId lead))] anonymizedPayload.

Definition createHmacSignature (secret timestamp body : string) : string :=
  Buffer.toHex (hmacDigest secret (timestamp +:+ ":" +:+ body)).

(** The request headers, signed when the advertiser has a secret. *)
Definition requestHeaders (advertiser : Advertiser) (nowMs : Z)
    (body : JsObject) : list (string * string) :=
  [ ("Content-Type", "application/json"); ("User-Agent", "AZLeads/1.0") ]%string
  ++ (if truthy_str (endpointSecret advertiser) then
        let timestamp := Z_toString (nowMs / 1000) in
        let bodyString := JSON_stringify (JObj body) in
        let signature :=
          createHmacSignature (default EmptyString (endpointSecret advertiser))
                              timestamp bodyString in
        [ ("X-Signature", hmacAlgo +:+ "=" +:+ signature);
          ("X-Signature-Timestamp", timestamp) ]%string
      else []).

(** [db.mapping.findFirst({ where: { affiliateId, offerId, enabled: true } })]. *)
Definition findMapping (w : World) (lead : Lead) : option Mapping :=
  List.find
    (fun m => String.eqb (map_affiliateId m) (affiliateId lead)
              && match offerId lead with
                 | Some o => String.eqb (map_offerId m) o
                 | None => false
                 end
              && enabled m)
    (mappings w).

Definition findLead (w : World) (leadId : string) : option Lead :=
  List.find (fun l => String.eqb (lead_id l) leadId) (leads w).

(** The inner [try] block: the POST, the log row, the classification. *)
Definition tryDeliver (leadId : string) (advertiser : Advertiser)
    (request : ForwardRequest) (attempt : Z) (nowMs : Z)
    (net : NetResult) (w : World) : Outcome unit * World :=
  match axios_post net with
  | Threw e => (Threw e, w)
  | Returned response =>
      let w1 :=
        with_forwardLogs
          (fun logs => logs ++
             [ {| fl_leadId := leadId; attemptNo := attempt;
                  fl_request := request;
                  fl_response := ResponseData response;
                  fl_statusCode := Some (resp_status response) |} ]) w in
      if (200 <=? resp_status response) && (resp_status response <? 300) then
        let w2 :=
          lead_update leadId
            (apply_patch
               {| p_status := Some forwarded;
                  p_advertiserId := Some (adv_id advertiser);
                  p_advertiserResponse := Some (resp_data response);
                  p_advertiserStatus := None; p_payout := None;
                  p_ftdAt := None; p_updatedAt := Some nowMs |}) w1 in
        (Returned tt, recordForwardAttempt (adv_id advertiser) "success" w2)
      else
        let w2 :=
          lead_update leadId
            (apply_patch
               {| p_status := Some forward_failed;
                  p_advertiserId := Some (adv_id advertiser);
                  p_advertiserResponse := Some (resp_data response);
                  p_advertiserStatus := None; p_payout := None;
                  p_ftdAt := None; p_updatedAt := Some nowMs |}) w1 in
        let w3 := recordForwardAttempt (adv_id advertiser) "client_error" w2 in
        (Threw {| message := "Advertiser returned "
                              +:+ Z_toString (resp_status response) +:+ ": "
                              +:+ JSON_stringify (resp_data response);
                  response_status := None |}, w3)
  end.

(** The [catch] of the inner [try]: a second log row, the classification of
    the error, and the error thrown again. *)
Definition catchDeliver (job : Job) (advertiser : Advertiser)
    (request : ForwardRequest) (attempt : Z) (nowMs : Z)
    (error : JsError) (w : World) : Outcome unit * World :=
  let w1 :=
    with_forwardLogs
      (fun logs => logs ++
         [ {| fl_leadId := job_leadId job; attemptNo := attempt;
              fl_request := request;
              fl_response := ResponseError (message error);
              fl_statusCode :=
                match response_status error with
                | Some s => if s =? 0 then None else Some s
                | None => None
                end |} ]) w in
  let failed :=
    apply_patch
      {| p_status := Some forward_failed;
         p_advertiserId := Some (adv_id advertiser);
         p_advertiserResponse := None; p_advertiserStatus := None;
         p_payout := None; p_ftdAt := None; p_updatedAt := Some nowMs |} in
  let clientError :=
    match response_status error with
    | Some s => negb (s =? 0) && (s <? 500)
    | None => false
    end in
  let w2 :=
    if clientError then
      recordForwardAttempt (adv_id advertiser) "client_error"
        (lead_update (job_leadId job) failed w1)
    else
      let w' := recordForwardAttempt (adv_id advertiser) "server_error" w1 in
      let attempts :=
        match opts_attempts job with
        | Some a => if a =? 0 then 3 else a
        | None => 3
        end in
      if attemptsMade job >=? attempts - 1
      then lead_update (job_leadId job) failed w'
      else w' in
  (Threw error, w2).

Definition processForwardLead (job : Job) (nowMs : Z) (net : NetResult)
    (w : World) : Outcome unit * World :=
  let leadId := job_leadId job in
  match findLead w leadId with
  | None =>
      (Threw {| message := "Lead not found: " +:+ leadId;
                response_status := None |}, w)
  | Some lead =>
      if negb (LeadStatus_eqb (status lead) pending) then (Returned tt, w)
      else
        match findMapping w lead with
        | None =>
            let w1 :=
              lead_update leadId
                (apply_patch
                   {| p_status := Some no_mapping; p_advertiserId := None;
                      p_advertiserResponse := None;
                      p_advertiserStatus := None; p_payout := None;
                      p_ftdAt := None; p_updatedAt := None |}) w in
            (Returned tt, recordForwardAttempt "no_mapping" "no_mapping" w1)
        | Some mapping =>
            let advertiser := map_advertiser mapping in
            let anonymizedPayload := buildAnonymizedPayload w lead advertiser in
            let endpoint :=
              if truthy_str (forwardUrl mapping)
              then default EmptyString (forwardUrl mapping)
              else endpointUrl advertiser in
            let body := requestPayload lead anonymizedPayload in
            let headers := requestHeaders advertiser nowMs body in
            let request :=
              {| req_url := endpoint; req_headers := headers;
                 req_body := body |} in
            let attempt := attemptsMade job + 1 in
            match tryDeliver leadId advertiser request attempt nowMs net w with
            | (Returned tt, w') => (Returned tt, w')
            | (Threw error, w') =>
                catchDeliver job advertiser request attempt nowMs error w'
            end
        end
  end.

(** [addForwardLeadJob]: [getForwardLeadQueue] throws while the queue is
    not set up ([None]); the job gets the queue's default of 6 attempts.
    Every job of this queue has the same priority, which is left out. *)
Definition addForwardLeadJob (leadId : string) (queue : option (list Job))
  : Outcome unit * option (list Job) :=
  match queue with
  | None =>
      (Threw {| message := "Forward lead queue not initialized";
                response_status := None |}, None)
  | Some jobs =>
      (Returned tt,
       Some (jobs ++ [ {| job_leadId := leadId; attemptsMade := 0;
                          opts_attempts := Some 6 |} ]))
  end.

(** The message of the error [db.lead.update] rejects with when no row
    has the id. *)
Variable recordNotFoundMessage : string.

(** [retryLead]: the update rejects when no lead has the id; the job is
    added after the update. *)
Definition retryLead (leadId : string) (nowMs : Z) (w : World)
    (queue : option (list Job)) : Outcome unit * World * option (list Job) :=
  match findLead w leadId with
  | None =>
      (Threw {| message := recordNotFoundMessage;
                response_status := None |}, w, queue)
  | Some _ =>
      let w1 :=
        lead_update leadId
          (apply_patch
             {| p_status := Some pending; p_advertiserId := None;
                p_advertiserResponse := None; p_advertiserStatus := None;
                p_payout := None; p_ftdAt := None;
                p_updatedAt := Some nowMs |}) w in
      match addForwardLeadJob leadId queue with
      | (Threw e, queue') => (Threw e, w1, queue')
      | (Returned _, queue') => (Returned tt, w1, queue')
      end
  end.

End WithRuntime.
End ForwardLead.

(** ** The edge function [forward-lead]: the same payload, no transforms *)

Module EdgeFunction.
Definition standardFields (lead : Lead) : JsObject :=
  [ ("email", of_nullable (email lead));
    ("phone", of_nullable (phone lead));
    ("first_name", of_nullable (firstName lead));
    ("last_name", of_nullable (lastName lead));
    ("country", of_nullable (country lead)) ]%string.

Definition applyMapping (lead : Lead) (payload : JsObject)
    (fm : FieldMapping) : JsObject :=
  match or_else (obj_get (rawPayload (trafficLog lead)) (sourceField fm))
                (obj_get (standardFields lead) (sourceField fm)) with
  | None | Some JNull => payload
  | Some value => obj_set payload (targetField fm) value
  end.

Definition buildPayload (fieldMappings : list FieldMapping) (lead : Lead)
  : JsObject :=
  if (0 <? length fieldMappings)%nat then
    fold_left (applyMapping lead) fieldMappings []
  else
    fold_left
      (fun payload kv =>
         if present (Some (snd kv)) then obj_set payload (fst kv) (snd kv)
         else payload)
      (standardFields lead) [].

Definition requestPayload (lead : Lead) (payload : JsObject) : JsObject :=
  obj_spread [("az_tx_id"%string, JStr (azTxId lead))] payload.
End EdgeFunction.

(** ** [RedisHelper]: the replay cache *)

Module RedisHelper.
(** A key is there until its expiry instant. *)
Definition live (nowMs : Z) (e : RedisEntry) : bool :=
  match re_expiresAt e with
  | Some t => nowMs <? t
  | None => true
  end.

(** [(await redis.exists(key)) === 1]. *)
Definition exists_ (nowMs : Z) (key : string) (r : gmap string RedisEntry)
  : bool :=
  match r !! key with
  | Some e => live nowMs e
  | None => false
  end.

(** [setEx(key, ttlSeconds, value)] when a TTL is given, [set] otherwise. *)
Definition set (nowMs : Z) (key value : string) (ttlSeconds : option Z)
    (r : gmap string RedisEntry) : gmap string RedisEntry :=
  match ttlSeconds with
  | Some ttl =>
      if ttl =? 0 then <[key := {| re_value := value; re_expiresAt := None |}]> r
      else <[key := {| re_value := value;
                       re_expiresAt := Some (nowMs + 1000 * ttl) |}]> r
  | None => <[key := {| re_value := value; re_expiresAt := None |}]> r
  end.

Definition replayKey (timestamp signature : string) : string :=
  "replay:" +:+ timestamp +:+ ":" +:+ signature.

Definition checkReplayAttack (nowMs : Z) (timestamp signature : string)
    (r : gmap string RedisEntry) : bool * gmap string RedisEntry :=
  let key := replayKey timestamp signature in
  if negb (exists_ nowMs key r)
  then (false, set nowMs key "1" (Some 300) r)
  else (true, r).
(** [redis.get(key)]: [None] is null, also once the key has expired. *)
Definition get (nowMs : Z) (key : string) (r : gmap string RedisEntry)
  : option string :=
  match r !! key with
  | Some e => if live nowMs e then Some (re_value e) else None
  | None => None
  end.

(** [redis.del(key)]. *)
Definition del (key : string) (r : gmap string RedisEntry)
  : gmap string RedisEntry :=
  delete key r.

(** The integer a stored string stands for, as INCR reads it: the string
    must be the canonical decimal form of a signed 64-bit integer. *)
Definition int_of_value (s : string) : option Z :=
  match parseInt s with
  | Some n =>
      if String.eqb (Z_toString n) s
         && (- 2 ^ 63 <=? n) && (n <=? 2 ^ 63 - 1)
      then Some n else None
  | None => None
  end.

(** INCR: a key that is not there counts from 0 and gets no expiry; a key
    that is there keeps its expiry; a value that is not an integer, or an
    increment past the largest 64-bit integer, is an error. *)
Definition incr (nowMs : Z) (key : string) (r : gmap string RedisEntry)
  : Outcome Z * gmap string RedisEntry :=
  let fresh :=
    (Returned 1, <[key := {| re_value := "1"; re_expiresAt := None |}]> r) in
  match r !! key with
  | Some e =>
      if live nowMs e then
        match int_of_value (re_value e) with
        | Some n =>
            if n =? 2 ^ 63 - 1 then
              (Threw {| message := "ERR increment or decrement would overflow";
                        response_status := None |}, r)
            else
              (Returned (n + 1),
               <[key := {| re_value := Z_toString (n + 1);
                           re_expiresAt := re_expiresAt e |}]> r)
        | None =>
            (Threw {| message := "ERR value is not an integer or out of range";
                      response_status := None |}, r)
        end
      else fresh
  | None => fresh
  end.

(** EXPIRE: sets the expiry of a key that is there; a timeout that is not
    positive deletes the key. *)
Definition expire (nowMs : Z) (key : string) (seconds : Z)
    (r : gmap string RedisEntry) : gmap string RedisEntry :=
  match r !! key with
  | Some e =>
      if live nowMs e then
        if seconds <=? 0 then delete key r
        else <[key := {| re_value := re_value e;
                         re_expiresAt := Some (nowMs + 1000 * seconds) |}]> r
      else r
  | None => r
  end.

(** The fixed-window counter behind the rate limiters. *)
Definition checkRateLimit (nowMs : Z) (key : string) (limit windowSeconds : Z)
    (r : gmap string RedisEntry) : Outcome bool * gmap string RedisEntry :=
  match incr nowMs key r with
  | (Threw e, r') => (Threw e, r')
  | (Returned current, r1) =>
      let r2 :=
        if current =? 1 then expire nowMs key windowSeconds r1 else r1 in
      (Returned (current <=? limit), r2)
  end.
End RedisHelper.

(** ** The advertiser callback route *)

Module Callback.
Section WithRuntime.
Context `{Runtime}.

Record Request : Type := {
  body : CallbackRequest;
  x_signature : option string;
  x_signature_timestamp : option string
}.

(** [res.json({ ok: true })], or the [ApiError] handed to [next]. *)
Inductive Response : Type :=
| Ok
| ApiError (statusCode : Z) (code : string) (msg : string).

Fixpoint bytes_eqb (a b : list byte) : bool :=
  match a, b with
  | [], [] => true
  | x :: a', y :: b' => Byte.eqb x y && bytes_eqb a' b'
  | _, _ => false
  end.

(** [crypto.timingSafeEqual]: throws when the lengths differ. *)
Definition timingSafeEqual (a b : list byte) : Outcome bool :=
  if (length a =? length b)%nat then Returned (bytes_eqb a b)
  else Threw {| message := "Input buffers must have the same byte length";
                response_status := None |}.

(** The [try] block of [verifyHmacSignature]. *)
Definition verifyHmacSignature_try (nowMs : Z)
    (secret timestamp body signature : string) : Outcome bool :=
  let now := nowMs / 1000 in
  let requestTime := parseInt timestamp in
  if match requestTime with
     | Some t => Z.abs (now - t) >? 300
     | None => false
     end
  then Returned false
  else
    match split "=" signature with
    | algorithm :: rest =>
        if negb (String.eqb algorithm hmacAlgo) then Returned false
        else
          let expectedHash :=
            Buffer.toHex (hmacDigest secret (timestamp +:+ ":" +:+ body)) in
          match rest with
          | hash :: _ =>
              timingSafeEqual (Buffer.fromHex hash) (Buffer.fromHex expectedHash)
          | [] =>
              Threw {| message := "The first argument must be of type string";
                       response_status := None |}
          end
    | [] => Returned false
    end.

Definition verifyHmacSignature (nowMs : Z)
    (secret timestamp body signature : string) : bool :=
  match verifyHmacSignature_try nowMs secret timestamp body signature with
  | Returned b => b
  | Threw _ => false
  end.

Definition opt_prop {A : Type} (k : string) (f : A -> JValue) (o : option A)
  : JsObject :=
  match o with Some a => [(k, f a)] | None => [] end.

(** The parsed body as a JSON value, for [JSON.stringify(payload)]. *)
Definition payload_json (p : CallbackRequest) : JValue :=
  JObj (opt_prop "az_tx_id" JStr (cb_az_tx_id p)
        ++ opt_prop "status" JStr (cb_status p)
        ++ opt_prop "external_id" JStr (cb_external_id p)
        ++ opt_prop "payout" JNum (cb_payout p)
        ++ cb_extra p).

Definition findLeadByAzTxId (w : World) (az : string) : option Lead :=
  List.find (fun l => String.eqb (azTxId l) az) (leads w).

(** [lead.advertiser]. *)
Definition leadAdvertiser (w : World) (lead : Lead) : option Advertiser :=
  match advertiserId lead with
  | Some a => List.find (fun adv => String.eqb (adv_id adv) a) (advertisers w)
  | None => None
  end.

(** The signature and replay checks; [Some] is the rejection. *)
Definition authenticate (advertiser : Advertiser) (payload : CallbackRequest)
    (signature timestamp : option string) (nowMs : Z) (w : World)
  : option Response * World :=
  if truthy_str (endpointSecret advertiser) && truthy_str signature
     && truthy_str timestamp
  then
    let secret := default EmptyString (endpointSecret advertiser) in
    let sig := default EmptyString signature in
    let ts := default EmptyString timestamp in
    if negb (verifyHmacSignature nowMs secret ts
               (JSON_stringify (payload_json payload)) sig)
    then (Some (ApiError 401 "INVALID_SIGNATURE" "Invalid HMAC signature"), w)
    else
      let '(isReplay, r) :=
        RedisHelper.checkReplayAttack nowMs ts sig (redis w) in
      let w' := with_redis (fun _ => r) w in
      if isReplay
      then (Some (ApiError 400 "REPLAY_ATTACK"
                    "Request has been processed before"), w')
      else (None, w')
  else (None, w).

Definition Qpositive (q : Q) : bool := negb (Qle_bool q 0).

Definition commissionExists (w : World) (leadId advertiserId : string) : bool :=
  existsb
    (fun c => match com_leadId c with
              | Some l => String.eqb l leadId
              | None => false
              end && String.eqb (com_advertiserId c) advertiserId)
    (commissions w).

(** The [updateData] of the lead update. *)
Definition updateData (lead : Lead) (payload : CallbackRequest) (nowMs : Z)
  : LeadPatch :=
  let st := default EmptyString (cb_status payload) in
  let firstApproval :=
    String.eqb st "approved"
    && match ftdAt lead with Some _ => false | None => true end in
  {| p_advertiserStatus := Some st;
     p_updatedAt := Some nowMs;
     p_payout := cb_payout payload;
     p_ftdAt := if firstApproval then Some nowMs else None;
     p_status :=
       if firstApproval then Some approved
       else if String.eqb st "rejected" then Some rejected
       else None;
     p_advertiserId := None;
     p_advertiserResponse := None |}.

(** What follows the checks: the log row, the lead update, the commission. *)
Definition reconcile (lead : Lead) (advertiser : Advertiser)
    (payload : CallbackRequest) (signature : option string) (nowMs : Z)
    (w : World) : World :=
  let az := default EmptyString (cb_az_tx_id payload) in
  let st := default EmptyString (cb_status payload) in
  let w1 :=
    with_callbackLogs
      (fun logs => logs ++
         [ {| cl_advertiserId := adv_id advertiser; cl_azTxId := az;
              cl_payload := payload; cl_signature := signature;
              cl_statusCode := 200 |} ]) w in
  let w2 :=
    lead_update (lead_id lead) (apply_patch (updateData lead payload nowMs))
      w1 in
  match cb_payout payload with
  | Some q =>
      if String.eqb st "approved" && negb (Qeq_bool q 0) && Qpositive q then
        if commissionExists w2 (lead_id lead) (adv_id advertiser) then w2
        else
          with_commissions
            (fun cs => cs ++
               [ {| com_leadId := Some (lead_id lead);
                    com_advertiserId := adv_id advertiser;
                    com_affiliateId := affiliateId lead;
                    amount := q;
                    description := "Conversion payout for " +:+ az |} ]) w2
      else w2
  | None => w2
  end.

(** [router.post('/', ...)]. *)
Definition handler (req : Request) (nowMs : Z) (w : World)
  : Response * World :=
  let payload := body req in
  let signature := x_signature req in
  let timestamp := x_signature_timestamp req in
  if negb (truthy_str (cb_az_tx_id payload)) then
    (ApiError 400 "MISSING_AZ_TX_ID" "az_tx_id is required", w)
  else if negb (truthy_str (cb_status payload)) then
    (ApiError 400 "MISSING_STATUS" "status is required", w)
  else
    let az := default EmptyString (cb_az_tx_id payload) in
    match findLeadByAzTxId w az with
    | None => (ApiError 404 "LEAD_NOT_FOUND" ("Lead not found: " +:+ az), w)
    | Some lead =>
        match leadAdvertiser w lead with
        | None =>
            (ApiError 400 "NO_ADVERTISER" "Lead has no associated advertiser", w)
        | Some advertiser =>
            match authenticate advertiser payload signature timestamp nowMs w with
            | (Some rejection, w') => (rejection, w')
            | (None, w') =>
                (Ok, reconcile lead advertiser payload signature nowMs w')
            end
        end
    end.

End WithRuntime.
End Callback.

(** ** A concrete platform

    The default configuration ([HMAC_ALGO] unset, hence HMAC-SHA256 over the
    UTF-8 bytes), the string methods on ASCII text, and a JSON serializer
    (finite decimals are printed exactly, other rationals to 16 places). *)

Module Node.
Definition ascii_map (f : N -> N) (s : string) : string :=
  string_of_list_ascii
    (map (fun c => ascii_of_N (f (N_of_ascii c))) (list_ascii_of_string s)).

Definition upper (n : N) : N :=
  if ((97 <=? n) && (n <=? 122))%N then (n - 32)%N else n.
Definition lower (n : N) : N :=
  if ((65 <=? n) && (n <=? 90))%N then (n + 32)%N else n.

Definition rev_string (s : string) : string :=
  string_of_list_ascii (rev (list_ascii_of_string s)).

Fixpoint strip_fuel (ws : list string) (fuel : nat) (s : string) : string :=
  match fuel with
  | O => s
  | S fuel' =>
      match List.filter (fun w => String.prefix w s) ws with
      | w :: _ => strip_fuel ws fuel' (drop (String.length w) s)
      | [] => s
      end
  end.

Definition trim (s : string) : string :=
  let s1 := strip_fuel white_space (String.length s) s in
  rev_string
    (strip_fuel (map rev_string white_space) (String.length s1) (rev_string s1)).

Definition hmac (key msg : string) : list byte :=
  omap Byte.of_N
    (Sha256.hmac_sha256 (Buffer.bytes_of_string key)
                        (Buffer.bytes_of_string msg)).

Fixpoint join (sep : string) (l : list string) : string :=
  match l with
  | [] => EmptyString
  | [x] => x
  | x :: l' => x +:+ sep +:+ join sep l'
  end.

Definition escape_char (c : ascii) : string :=
  let n := N_of_ascii c in
  if (n =? 34)%N then String "\" (String (ascii_of_N 34) EmptyString)
  else if (n =? 92)%N then "\\"
  else if (n =? 8)%N then "\b"
  else if (n =? 9)%N then "\t"
  else if (n =? 10)%N then "\n"
  else if (n =? 12)%N then "\f"
  else if (n =? 13)%N then "\r"
  else if (n <? 32)%N then
    "\u00" +:+ String (Buffer.hexdigit (n / 16))
                 (String (Buffer.hexdigit (n mod 16)) EmptyString)
  else String c EmptyString.

Definition quote (s : string) : string :=
  String (ascii_of_N 34)
    (fold_right String.append EmptyString
       (map escape_char (list_ascii_of_string s)))
  +:+ String (ascii_of_N 34) EmptyString.

Fixpoint fraction (fuel : nat) (r den : Z) : string :=
  match fuel with
  | O => EmptyString
  | S fuel' =>
      if r =? 0 then EmptyString
      else Z_toString (10 * r / den) +:+ fraction fuel' (10 * r mod den) den
  end.

Definition number (q : Q) : string :=
  let n := Z.abs (Qnum q) in
  let d := Z.pos (Qden q) in
  (if Qnum q <? 0 then "-" else EmptyString)
  +:+ Z_toString (n / d)
  +:+ (if n mod d =? 0 then EmptyString else "." +:+ fraction 16 (n mod d) d).

Fixpoint stringify (v : JValue) : string :=
  match v with
  | JNull => "null"
  | JBool true => "true"
  | JBool false => "false"
  | JNum q => number q
  | JStr s => quote s
  | JArr items => "[" +:+ join "," (map stringify items) +:+ "]"
  | JObj props =>
      "{" +:+ join ","
                (map (fun kv => quote (fst kv) +:+ ":" +:+ stringify (snd kv))
                     props)
      +:+ "}"
  end.
End Node.

#[export] Instance nodeRuntime : Runtime := {|
  toUpperCase := Node.ascii_map Node.upper;
  toLowerCase := Node.ascii_map Node.lower;
  trim := Node.trim;
  hmacAlgo := "sha256";
  hmacDigest := Node.hmac;
  JSON_stringify := Node.stringify
|}.


(** ** The rate-limit middleware *)

Module RateLimit.
(** What the middleware hands to [next]: nothing, the [ApiError] it made,
    or the error a Redis command threw. *)
Inductive Passed : Type :=
| Next
| NextApiError (statusCode : Z) (code : string) (msg : string)
| NextError (e : JsError).

(** [rateLimiter]; [rateLimitGlobal] is [config.rateLimitGlobal]. *)
Definition rateLimiter (rateLimitGlobal : Z) (ip : string) (nowMs : Z)
    (r : gmap string RedisEntry) : Passed * gmap string RedisEntry :=
  let key := "rate_limit:" +:+ ip in
  match RedisHelper.checkRateLimit nowMs key rateLimitGlobal 60 r with
  | (Returned allowed, r') =>
      if negb allowed
      then (NextApiError 429 "RATE_LIMIT_EXCEEDED" "Too many requests", r')
      else (Next, r')
  | (Threw e, r') => (NextError e, r')
  end.

(** [trackRateLimiter]; [affiliate] is the id of [req.affiliate], if the
    request has one. *)
Definition trackRateLimiter (rateLimitTrack : Z) (affiliate : option string)
    (nowMs : Z) (r : gmap string RedisEntry)
  : Passed * gmap string RedisEntry :=
  match affiliate with
  | None => (Next, r)
  | Some id =>
      let key := "rate_limit:track:" +:+ id in
      match RedisHelper.checkRateLimit nowMs key rateLimitTrack 60 r with
      | (Returned allowed, r') =>
          if negb allowed
          then (NextApiError 429 "RATE_LIMIT_EXCEEDED"
                  "Track API rate limit exceeded", r')
          else (Next, r')
      | (Threw e, r') => (NextError e, r')
      end
  end.
End RateLimit.

(** ** The edge function [forward-lead], whole

    The function signs with HMAC-SHA256 whatever the configuration, sends
    with [fetch], and writes its own shape of forward log row (a response
    object without headers); the rows an invocation inserts are returned
    beside the world.  CORS headers are left out. *)

Module EdgeServe.
Section WithRuntime.
Context `{Runtime}.
(** [JSON.parse]; [None] is a syntax error. *)
Variable JSON_parse : string -> option JValue.
(** The message of the TypeError the engine throws when [null] is
    destructured. *)
Variable nullDestructuringMessage : string.

Record Request : Type := {
  method : string;
  (** [await req.json()]: the parsed body, or the error it rejects with *)
  json : Outcome JValue
}.

Record HttpResponse : Type := {
  http_status : Z;
  http_body : option JsObject
}.

(** What [fetch] does: any answer resolves, a transport failure rejects. *)
Inductive FetchResult : Type :=
| FetchResponse (status : Z) (text : string)
| FetchError (message : string).

Inductive LogResponse : Type :=
| LogResponseData (status : Z) (body : JValue)
| LogResponseError (message : string).

Record LogRow : Type := {
  lead_id_ : string;
  attempt_no : Z;
  request : ForwardRequest;
  response : LogResponse;
  status_code : option Z
}.

Definition status_name (st : LeadStatus) : string :=
  match st with
  | pending => "pending" | forwarded => "forwarded" | approved => "approved"
  | rejected => "rejected" | no_mapping => "no_mapping"
  | forward_failed => "forward_failed"
  end.

(** [.maybeSingle()]: the row, nothing, or an error when several rows
    match. *)
Definition maybeSingle {A : Type} (rows : list A) : option A * bool :=
  match rows with
  | [] => (None, false)
  | [row] => (Some row, false)
  | _ => (None, true)
  end.

Definition json_ok (st : Z) (props : JsObject) : HttpResponse :=
  {| http_status := st; http_body := Some props |}.

(** The headers, signed with HMAC-SHA256 when the advertiser has a secret. *)
Definition requestHeaders (advertiser : Advertiser) (nowMs : Z)
    (body : JsObject) : list (string * string) :=
  [ ("Content-Type", "application/json"); ("User-Agent", "AZLeads/1.0") ]%string
  ++ (if truthy_str (endpointSecret advertiser) then
        let timestamp := Z_toString (nowMs / 1000) in
        let bodyString := JSON_stringify (JObj body) in
        let hashHex :=
          Buffer.toHex
            (Node.hmac (default EmptyString (endpointSecret advertiser))
                       (timestamp +:+ ":" +:+ bodyString)) in
        [ ("X-Signature", "sha256=" +:+ hashHex);
          ("X-Signature-Timestamp", timestamp) ]%string
      else []).

(** The delivery and what follows it. *)
Definition deliver (leadId : string) (mapping : Mapping)
    (req : ForwardRequest) (nowMs : Z) (net : FetchResult) (w : World)
  : HttpResponse * World * list LogRow :=
  let advertiser := map_advertiser mapping in
  let attemptNo := 1 in
  match net with
  | FetchResponse st text =>
      let responseJson :=
        match JSON_parse text with
        | Some v => v
        | None => JObj [("body"%string, JStr text)]
        end in
      let row :=
        {| lead_id_ := leadId; attempt_no := attemptNo; request := req;
           response := LogResponseData st responseJson;
           status_code := Some st |} in
      if (200 <=? st) && (st <? 300) then
        (json_ok 200 [ ("message", JStr "Lead forwarded successfully");
                       ("status", JStr "forwarded") ]%string,
         lead_update leadId
           (apply_patch
              {| p_status := Some forwarded;
                 p_advertiserId := Some (adv_id advertiser);
                 p_advertiserResponse := Some responseJson;
                 p_advertiserStatus := None; p_payout := None;
                 p_ftdAt := None; p_updatedAt := Some nowMs |}) w,
         [row])
      else
        (json_ok 200 [ ("message", JStr "Forward failed");
                       ("status", JStr "forward_failed");
                       ("advertiserStatus", JNum (inject_Z st)) ]%string,
         lead_update leadId
           (apply_patch
              {| p_status := Some forward_failed;
                 p_advertiserId := Some (adv_id advertiser);
                 p_advertiserResponse := Some responseJson;
                 p_advertiserStatus := None; p_payout := None;
                 p_ftdAt := None; p_updatedAt := Some nowMs |}) w,
         [row])
  | FetchError msg =>
      let row :=
        {| lead_id_ := leadId; attempt_no := attemptNo; request := req;
           response := LogResponseError msg; status_code := None |} in
      (json_ok 200 [ ("message", JStr "Forward failed with error");
                     ("status", JStr "forward_failed");
                     ("error", JStr msg) ]%string,
       lead_update leadId
         (apply_patch
            {| p_status := Some forward_failed;
               p_advertiserId := Some (adv_id advertiser);
               p_advertiserResponse := None;
               p_advertiserStatus := None; p_payout := None;
               p_ftdAt := None; p_updatedAt := Some nowMs |}) w,
       [row])
  end.

(** The mappings the query of the function selects. *)
Definition matchingMappings (w : World) (lead : Lead) : list Mapping :=
  List.filter
    (fun m => String.eqb (map_affiliateId m) (affiliateId lead)
              && match offerId lead with
                 | Some o => String.eqb (map_offerId m) o
                 | None => false
                 end
              && enabled m)
    (mappings w).

(** The function from the lead on. *)
Definition forward (lead : Lead) (nowMs : Z) (net : FetchResult) (w : World)
  : HttpResponse * World * list LogRow :=
  let leadId := lead_id lead in
  if negb (LeadStatus_eqb (status lead) pending) then
    (json_ok 200 [ ("message", JStr "Lead already processed");
                   ("status", JStr (status_name (status lead))) ]%string,
     w, [])
  else
    match maybeSingle (matchingMappings w lead) with
    | (Some mapping, false) =>
        let advertiser := map_advertiser mapping in
        let payload :=
          EdgeFunction.buildPayload
            (ForwardLead.findFieldMappings w advertiser) lead in
        let body := EdgeFunction.requestPayload lead payload in
        let endpoint :=
          if truthy_str (forwardUrl mapping)
          then default EmptyString (forwardUrl mapping)
          else endpointUrl advertiser in
        let req :=
          {| req_url := endpoint;
             req_headers := requestHeaders advertiser nowMs body;
             req_body := body |} in
        deliver leadId mapping req nowMs net w
    | _ =>
        (json_ok 200 [ ("message", JStr "No mapping found");
                       ("status", JStr "no_mapping") ]%string,
         lead_update leadId
           (apply_patch
              {| p_status := Some no_mapping; p_advertiserId := None;
                 p_advertiserResponse := None; p_advertiserStatus := None;
                 p_payout := None; p_ftdAt := None;
                 p_updatedAt := Some nowMs |}) w,
         [])
    end.

(** [Deno.serve(async (req) => ...)]. *)
Definition serve (req : Request) (nowMs : Z) (net : FetchResult) (w : World)
  : HttpResponse * World * list LogRow :=
  if String.eqb (method req) "OPTIONS" then
    ({| http_status := 200; http_body := None |}, w, [])
  else
    match json req with
    | Threw e => (json_ok 500 [("error"%string, JStr (message e))], w, [])
    | Returned JNull =>
        (json_ok 500 [("error"%string, JStr nullDestructuringMessage)], w, [])
    | Returned parsed =>
        let leadId :=
          match parsed with
          | JObj props => obj_get props "leadId"
          | _ => None
          end in
        if negb (truthy_opt leadId) then
          (json_ok 400 [("error"%string, JStr "leadId is required")], w, [])
        else
          let rows :=
            match leadId with
            | Some (JStr id) =>
                List.filter (fun l => String.eqb (lead_id l) id) (leads w)
            | _ => []
            end in
          match maybeSingle rows with
          | (Some lead, false) => forward lead nowMs net w
          | _ => (json_ok 404 [("error"%string, JStr "Lead not found")], w, [])
          end
    end.

End WithRuntime.
End EdgeServe.

(** ** Scenarios used to run the code *)

Module Scenario.
Import ForwardLead Callback.
Local Open Scope string_scope.

Definition advertiserX : Advertiser :=
  {| adv_id := "adv-X"; endpointUrl := "https://x.example/leads";
     endpointSecret := Some "s1" |}.

Definition lead1 : Lead :=
  {| lead_id := "lead-1"; azTxId := "tx-1"; affiliateId := "aff-A";
     advertiserId := None; offerId := Some "offer-O";
     trafficLog :=
       {| rawPayload := [ ("email", JStr EmptyString);
                          ("utm", JStr "spring");
                          ("opt_in", JBool false) ] |};
     email := Some "canon@example.com"; phone := Some "+15550100";
     firstName := Some "Ada"; lastName := None; country := Some "BD";
     status := pending; advertiserStatus := None; ftdAt := None;
     advertiserResponse := None; payout := None; updatedAt := 0 |}.

Definition mappingAO : Mapping :=
  {| map_affiliateId := "aff-A"; map_offerId := "offer-O";
     map_advertiser := advertiserX; forwardUrl := None; enabled := true |}.

Definition rule (source target : string) : FieldMapping :=
  {| fm_advertiserId := "adv-X"; sourceField := source;
     targetField := target; allowlist := true; transform := None |}.

Definition world (rules : list FieldMapping) : World :=
  {| leads := [lead1]; advertisers := [advertiserX]; mappings := [mappingAO];
     fieldMappings := rules; forwardLogs := []; callbackLogs := [];
     commissions := []; redis := ∅; forwardAttempts := [] |}.

(** One rule, [email] sent as [email_addr]. *)
Definition emailRuleWorld : World := world [rule "email" "email_addr"].


(** Rules whose raw values are [false] and the empty string. *)
Definition falsyWorld : World :=
  world [rule "opt_in" "consent"; rule "email" "email_addr"].

(** One allow-listed rule of advertiser X, one rule of X that is not
    allow-listed, and an allow-listed rule of another advertiser. *)
Definition mixedRulesWorld : World :=
  world [ rule "email" "email_addr";
          {| fm_advertiserId := "adv-X"; sourceField := "phone";
             targetField := "phone_no"; allowlist := false;
             transform := None |};
          {| fm_advertiserId := "adv-Y"; sourceField := "country";
             targetField := "geo"; allowlist := true; transform := None |} ].

(** Rules with transforms: the first name in upper case, and the country
    inside a template. *)
Definition transformWorld : World :=
  world [ {| fm_advertiserId := "adv-X"; sourceField := "first_name";
             targetField := "name"; allowlist := true;
             transform := Some {| ttype := "uppercase"; template := None |} |};
          {| fm_advertiserId := "adv-X"; sourceField := "country";
             targetField := "region"; allowlist := true;
             transform :=
               Some {| ttype := "concat";
                       template := Some "geo-{{value}}" |} |} ].

(** [lead1] under another name, telephone number and country, with a
    further raw tracking field. *)
Definition lead1' : Lead :=
  {| lead_id := "lead-1"; azTxId := "tx-1"; affiliateId := "aff-A";
     advertiserId := None; offerId := Some "offer-O";
     trafficLog :=
       {| rawPayload := [ ("email", JStr EmptyString);
                          ("utm", JStr "summer");
                          ("gclid", JStr "abc") ] |};
     email := Some "canon@example.com"; phone := Some "+15550199";
     firstName := Some "Grace"; lastName := Some "Hopper";
     country := Some "US";
     status := pending; advertiserStatus := None; ftdAt := None;
     advertiserResponse := None; payout := None; updatedAt := 0 |}.

Definition job1 : Job :=
  {| job_leadId := "lead-1"; attemptsMade := 0; opts_attempts := Some 6 |}.

Definition respond (code : Z) : NetResult :=
  NetResponse {| resp_status := code; resp_headers := JObj [];
                 resp_data := JObj [("accepted", JBool (code <? 300)%Z)] |}.

(** The instant of the scenarios: 2023-11-14T22:13:20Z. *)
Definition t0 : Z := 1700000000000.

(** The world once [lead1] has been forwarded with a 201. *)
Definition forwardedWorld : World :=
  snd (processForwardLead job1 t0 (respond 201) (world [])).

(** [lead1] as it is stored after that forwarding. *)
Definition forwardedLead : Lead :=
  default lead1 (head (leads forwardedWorld)).

(** The second delivery of the job, had the queue scheduled one. *)
Definition job1_retry : Job :=
  {| job_leadId := "lead-1"; attemptsMade := 1; opts_attempts := Some 6 |}.

Definition approvedPayload : CallbackRequest :=
  {| cb_az_tx_id := Some "tx-1"; cb_status := Some "approved";
     cb_external_id := None; cb_payout := Some (25 # 1); cb_extra := [] |}.

(** A callback signed by the advertiser at [t0]. *)
Definition signedCallback : Request :=
  let ts := Z_toString (t0 / 1000) in
  {| body := approvedPayload;
     x_signature :=
       Some ("sha256=" +:+
             createHmacSignature "s1" ts
               (JSON_stringify (payload_json approvedPayload)));
     x_signature_timestamp := Some ts |}.

Definition forgedCallback : Request :=
  {| body := approvedPayload;
     x_signature := Some "sha256=00";
     x_signature_timestamp := Some (Z_toString (t0 / 1000)) |}.

Definition unsignedCallback : Request :=
  {| body := approvedPayload; x_signature := None;
     x_signature_timestamp := None |}.

(** A callback whose signature header is there but empty. *)
Definition emptySignatureCallback : Request :=
  {| body := approvedPayload; x_signature := Some EmptyString;
     x_signature_timestamp := Some (Z_toString (t0 / 1000)) |}.

(** [lead1] with no mapping for its affiliate and offer. *)
Definition unmappedWorld : World :=
  {| leads := [lead1]; advertisers := [advertiserX]; mappings := [];
     fieldMappings := []; forwardLogs := []; callbackLogs := [];
     commissions := []; redis := ∅; forwardAttempts := [] |}.

(** A second enabled mapping for the same affiliate and offer. *)
Definition mappingAO' : Mapping :=
  {| map_affiliateId := "aff-A"; map_offerId := "offer-O";
     map_advertiser := advertiserX;
     forwardUrl := Some "https://x.example/v2/leads"; enabled := true |}.

Definition ambiguousWorld : World :=
  {| leads := [lead1]; advertisers := [advertiserX];
     mappings := [mappingAO; mappingAO'];
     fieldMappings := []; forwardLogs := []; callbackLogs := [];
     commissions := []; redis := ∅; forwardAttempts := [] |}.

(** The last delivery the queue makes of a job with 6 attempts. *)
Definition job1_last : Job :=
  {| job_leadId := "lead-1"; attemptsMade := 5; opts_attempts := Some 6 |}.

Definition response (code : Z) : AxiosResponse :=
  {| resp_status := code; resp_headers := JObj [];
     resp_data := JObj [("accepted", JBool (code <? 300)%Z)] |}.

(** The body the edge function is called with for [lead1]. *)
Definition edgeRequest : EdgeServe.Request :=
  {| EdgeServe.method := "POST";
     EdgeServe.json := Returned (JObj [("leadId", JStr "lead-1")]) |}.

(** A [JSON.parse] that reads nothing: every body is kept as text. *)
Definition noParse (text : string) : option JValue := None.
End Scenario.

(** ** Vocabulary of the properties *)

Module Vocabulary.
Import ForwardLead Callback.

(** What a field mapping contributes under its target field: the resolved
    value, transformed when a transform is configured, if it is present. *)
Definition ruleValue `{Runtime} (lead : Lead) (fm : FieldMapping)
  : option JValue :=
  match resolveValue lead (sourceField fm) with
  | None | Some JNull => None
  | Some value =>
      Some (match transform fm with
            | Some t => applyTransform value (Some t)
            | None => value
            end)
  end.

(** Number of positions at which two strings of one length differ. *)
Fixpoint differences (a b : string) : nat :=
  match a, b with
  | String x a', String y b' =>
      ((if Ascii.eqb x y then 0 else 1) + differences a' b')%nat
  | _, _ => 0%nat
  end.

(** [b] is [a] with exactly one byte changed. *)
Definition single_byte_mutation (a b : string) : Prop :=
  String.length a = String.length b /\ differences a b = 1%nat.

(** The commissions of a (lead, advertiser) pair. *)
Definition commissionsOf (w : World) (leadId advertiserId : string)
  : list Commission :=
  List.filter
    (fun c => match com_leadId c with
              | Some l => String.eqb l leadId
              | None => false
              end && String.eqb (com_advertiserId c) advertiserId)
    (commissions w).

(** The world with every advertiser secret removed. *)
Definition withoutSecrets (w : World) : World :=
  {| leads := leads w;
     advertisers :=
       map (fun a => {| adv_id := adv_id a; endpointUrl := endpointUrl a;
                        endpointSecret := None |}) (advertisers w);
     mappings := mappings w; fieldMappings := fieldMappings w;
     forwardLogs := forwardLogs w; callbackLogs := callbackLogs w;
     commissions := commissions w; redis := redis w;
     forwardAttempts := forwardAttempts w |}.

(** Is the status a 2xx, as [processForwardLead] tests it? *)
Definition is2xx (code : Z) : bool := (200 <=? code) && (code <? 300).

(** The forward log rows one delivery writes, by what the endpoint did. *)
Definition rowsWritten (net : NetResult) : nat :=
  match net with
  | NetResponse r =>
      if (resp_status r <? 500) && negb (is2xx (resp_status r))
      then 2%nat else 1%nat
  | NetFailure _ => 1%nat
  end.

(** A run of replay checks, each at its own instant. *)
Definition replayChecks (checks : list (Z * string * string))
    (r : gmap string RedisEntry) : gmap string RedisEntry :=
  fold_left
    (fun r c => snd (RedisHelper.checkReplayAttack (fst (fst c)) (snd (fst c))
                       (snd c) r))
    checks r.
(** What a callback may do to a lead row: the identity, the routing and
    the contact fields stay, a conversion time that is set stays, and the
    status stays or becomes [approved] or [rejected]. *)
Definition callbackStep (l l' : Lead) : Prop :=
  lead_id l' = lead_id l /\ azTxId l' = azTxId l
  /\ affiliateId l' = affiliateId l /\ advertiserId l' = advertiserId l
  /\ offerId l' = offerId l /\ trafficLog l' = trafficLog l
  /\ email l' = email l /\ phone l' = phone l
  /\ firstName l' = firstName l /\ lastName l' = lastName l
  /\ country l' = country l
  /\ advertiserResponse l' = advertiserResponse l
  /\ (forall t, ftdAt l = Some t -> ftdAt l' = Some t)
  /\ (status l' = status l \/ status l' = approved \/ status l' = rejected).

(** The amount a callback pays: its payout when the status is [approved]
    and the payout is positive. *)
Definition payable (payload : CallbackRequest) : option Q :=
  match cb_status payload, cb_payout payload with
  | Some st, Some q =>
      if String.eqb st "approved" && Qpositive q then Some q else None
  | _, _ => None
  end.

(** The commission the route writes for a lead and its advertiser. *)
Definition commissionFor (lead : Lead) (advertiser : Advertiser)
    (payload : CallbackRequest) (q : Q) : Commission :=
  {| com_leadId := Some (lead_id lead);
     com_advertiserId := adv_id advertiser;
     com_affiliateId := affiliateId lead;
     amount := q;
     description := "Conversion payout for "
                    +:+ default EmptyString (cb_az_tx_id payload) |}.

(** The results of a run of rate-limit checks on one key, each at its own
    instant. *)
Fixpoint rateChecks (key : string) (limit windowSeconds : Z)
    (times : list Z) (r : gmap string RedisEntry) : list (Outcome bool) :=
  match times with
  | [] => []
  | t :: times' =>
      let '(result, r') :=
        RedisHelper.checkRateLimit t key limit windowSeconds r in
      result :: rateChecks key limit windowSeconds times' r'
  end.

(** The answers [true] to the checks numbered [from], [from + 1], ... of a
    window, [count] of them: check [k] passes when [k <= limit]. *)
Fixpoint expectedChecks (limit : Z) (from : Z) (count : nat)
  : list (Outcome bool) :=
  match count with
  | O => []
  | S count' =>
      Returned (from <=? limit) :: expectedChecks limit (from + 1) count'
  end.
(** A delivery that fails in transit: no answer, or a status of 500 and
    more. *)
Definition isTransient (net : NetResult) : bool :=
  match net with
  | NetFailure _ => true
  | NetResponse r => 500 <=? resp_status r
  end.

(** [job.opts.attempts || 3]. *)
Definition attemptsAllowed (job : Job) : Z :=
  match opts_attempts job with
  | Some a => if a =? 0 then 3 else a
  | None => 3
  end.

(** The endpoint a mapping sends to. *)
Definition endpointOf (mapping : Mapping) : string :=
  if truthy_str (forwardUrl mapping)
  then default EmptyString (forwardUrl mapping)
  else endpointUrl (map_advertiser mapping).

(** The request [processForwardLead] makes for a lead and its mapping. *)
Definition requestFor `{Runtime} (w : World) (lead : Lead)
    (mapping : Mapping) (nowMs : Z) : ForwardRequest :=
  let body :=
    requestPayload lead
      (buildAnonymizedPayload w lead (map_advertiser mapping)) in
  {| req_url := endpointOf mapping;
     req_headers := requestHeaders (map_advertiser mapping) nowMs body;
     req_body := body |}.

(** The keyspace after a run of rate-limit checks on one key. *)
Fixpoint afterRateChecks (key : string) (limit windowSeconds : Z)
    (times : list Z) (r : gmap string RedisEntry) : gmap string RedisEntry :=
  match times with
  | [] => r
  | t :: times' =>
      afterRateChecks key limit windowSeconds times'
        (snd (RedisHelper.checkRateLimit t key limit windowSeconds r))
  end.

(** A field mapping with its transform removed. *)
Definition withoutTransform (fm : FieldMapping) : FieldMapping :=
  {| fm_advertiserId := fm_advertiserId fm; sourceField := sourceField fm;
     targetField := targetField fm; allowlist := allowlist fm;
     transform := None |}.

(** The world with every transform removed. *)
Definition withoutTransforms (w : World) : World :=
  {| leads := leads w; advertisers := advertisers w;
     mappings := mappings w;
     fieldMappings := map withoutTransform (fieldMappings w);
     forwardLogs := forwardLogs w; callbackLogs := callbackLogs w;
     commissions := commissions w; redis := redis w;
     forwardAttempts := forwardAttempts w |}.

(** The status the edge function leaves a delivered lead in. *)
Definition edgeStatus (net : EdgeServe.FetchResult) : LeadStatus :=
  match net with
  | EdgeServe.FetchResponse st _ => if is2xx st then forwarded else forward_failed
  | EdgeServe.FetchError _ => forward_failed
  end.
End Vocabulary.

(** Test vectors are stated on the hexadecimal form of a digest. *)
Definition hex_of (bs : list N) : string :=
  Buffer.toHex (omap Byte.of_N bs).

(* ===================================================================== *)
(** * Part II.  Properties                                                *)
(* ===================================================================== *)

Module Sha256Examples.
Import Sha256 Buffer.

Example sha256_abc :
  hex_of (sha256 (bytes_of_string "abc"))
  = "ba7816bf8f01cfea414140de5dae2223b00361a396177a9cb410ff61f20015ad"%string.
Proof. vm_compute. reflexivity. Qed.

Example sha256_empty :
  hex_of (sha256 [])
  = "e3b0c44298fc1c149afbf4c8996fb92427ae41e4649b934ca495991b7852b855"%string.
Proof. vm_compute. reflexivity. Qed.

Example sha256_two_blocks :
  hex_of (sha256 (bytes_of_string
    "abcdbcdecdefdefgefghfghighijhijkijkljklmklmnlmnomnopnopq"))
  = "248d6a61d20638b8e5c026930c3e6039a33ce45964ff2167f6ecedd419db06c1"%string.
Proof. vm_compute. reflexivity. Qed.

(** RFC 4231, test case 2. *)
Example hmac_sha256_rfc4231_2 :
  hex_of (hmac_sha256 (bytes_of_string "Jefe")
                      (bytes_of_string "what do ya want for nothing?"))
  = "5bdcc146bf60754e6a042426089575c75a003f089d2739839dec58b964ec3843"%string.
Proof. vm_compute. reflexivity. Qed.
End Sha256Examples.

(** ** Objects *)

Section ObjectFacts.
Implicit Types (o : JsObject) (k : string) (v : JValue).

Lemma obj_get_set_eq o k v : obj_get (obj_set o k v) k = Some v.
Proof.
  induction o as [|[k' v'] o IH]; simpl.
  - now rewrite String.eqb_refl.
  - destruct (String.eqb k' k) eqn:E; simpl; rewrite E; auto.
Qed.

Lemma obj_get_set_ne o k k' v :
  k <> k' -> obj_get (obj_set o k v) k' = obj_get o k'.
Proof.
  intros Hne. induction o as [|[k0 v0] o IH]; simpl.
  - destruct (String.eqb k k') eqn:E; auto.
    apply String.eqb_eq in E. contradiction.
  - destruct (String.eqb k0 k) eqn:E; simpl.
    + apply String.eqb_eq in E. subst k0.
      destruct (String.eqb k k') eqn:E'; auto.
      apply String.eqb_eq in E'. contradiction.
    + destruct (String.eqb k0 k'); auto.
Qed.

Lemma obj_get_set o k k' v :
  obj_get (obj_set o k v) k'
  = if String.eqb k k' then Some v else obj_get o k'.
Proof.
  destruct (String.eqb k k') eqn:E.
  - apply String.eqb_eq in E. subst. apply obj_get_set_eq.
  - apply obj_get_set_ne. intros ->. now rewrite String.eqb_refl in E.
Qed.

Lemma obj_keys_set o k v x :
  x ∈ obj_keys (obj_set o k v) -> x = k \/ x ∈ obj_keys o.
Proof.
  induction o as [|[k' v'] o IH]; simpl.
  - rewrite list_elem_of_singleton. now left.
  - destruct (String.eqb k' k) eqn:E; simpl; rewrite !elem_of_cons.
    + tauto.
    + intros [->|Hin]; auto. destruct (IH Hin); auto.
Qed.

Lemma obj_get_None_keys o k : obj_get o k = None <-> k ∉ obj_keys o.
Proof.
  induction o as [|[k' v'] o IH]; simpl.
  - split; [intros _; apply not_elem_of_nil | reflexivity].
  - rewrite not_elem_of_cons. destruct (String.eqb k' k) eqn:E.
    + apply String.eqb_eq in E. subst. split; [discriminate | tauto].
    + rewrite IH. split; [|tauto].
      intros Hn. split; [|exact Hn].
      intros ->. now rewrite String.eqb_refl in E.
Qed.



Lemma obj_spread_keys src : forall base x,
  x ∈ obj_keys (obj_spread base src) ->
  x ∈ obj_keys base \/ x ∈ obj_keys src.
Proof.
  unfold obj_spread.
  induction src as [|[k' v'] src IH]; simpl; intros base x Hin; auto.
  rewrite elem_of_cons.
  destruct (IH _ _ Hin) as [Hb|Hs]; auto.
  destruct (obj_keys_set _ _ _ _ Hb); auto.
Qed.

End ObjectFacts.

(** ** Hexadecimal and string facts *)

Section EncodingFacts.
Import Buffer.

Lemma fromHex_toHex (bs : list byte) : fromHex (toHex bs) = bs.
Proof.
  induction bs as [|b bs IH]; [reflexivity|].
  cbn [toHex fromHex]. rewrite IH. now destruct b.
Qed.

Lemma bytes_eqb_eq (a b : list byte) : Callback.bytes_eqb a b = true <-> a = b.
Proof.
  revert b. induction a as [|x a IH]; intros [|y b]; simpl;
    try (split; [discriminate | congruence]); [tauto|].
  rewrite andb_true_iff, IH. split.
  - intros [Hxy ->]. f_equal. now apply Byte.byte_dec_bl.
  - intros [= -> ->]. split; [now apply Byte.byte_dec_lb | reflexivity].
Qed.

Lemma split_free c s : free_of c s -> split c s = [s].
Proof.
  induction s as [|a s IH]; simpl; [reflexivity|].
  intros [Ha Hs]. rewrite Ha, (IH Hs). reflexivity.
Qed.

Lemma split_app c a b :
  free_of c a -> free_of c b ->
  split c (a +:+ String c b) = [a; b].
Proof.
  intros Ha Hb. induction a as [|x a IH]; simpl.
  - rewrite Ascii.eqb_refl, (split_free _ _ Hb). reflexivity.
  - destruct Ha as [Hx Ha]. rewrite Hx, (IH Ha). reflexivity.
Qed.

Lemma hexdigit_not_eq (n : N) : Ascii.eqb (hexdigit n) "=" = false.
Proof.
  destruct n as [|p]; [reflexivity|].
  do 5 (try (destruct p as [p|p|]; try reflexivity)).
Qed.

Lemma toHex_free (bs : list byte) : free_of "=" (toHex bs).
Proof.
  induction bs as [|b bs IH]; simpl; auto using hexdigit_not_eq.
Qed.
End EncodingFacts.

(** ** The field transformer *)

Section TransformerFacts.
Context `{Runtime}.
Import ForwardLead Vocabulary.

Lemma applyMapping_ruleValue lead p fm :
  applyMapping lead p fm
  = match ruleValue lead fm with
    | Some v => obj_set p (targetField fm) v
    | None => p
    end.
Proof.
  unfold applyMapping, ruleValue.
  destruct (resolveValue lead (sourceField fm)) as [[]|]; reflexivity.
Qed.

Lemma applyMapping_keys lead p fm x :
  x ∈ obj_keys (applyMapping lead p fm) ->
  x = targetField fm \/ x ∈ obj_keys p.
Proof.
  rewrite applyMapping_ruleValue.
  destruct (ruleValue lead fm); [apply obj_keys_set | now right].
Qed.

Lemma mappings_keys lead rules : forall p x,
  x ∈ obj_keys (fold_left (applyMapping lead) rules p) ->
  x ∈ obj_keys p \/ exists fm, fm ∈ rules /\ targetField fm = x.
Proof.
  induction rules as [|fm rules IH]; simpl; intros p x Hin; auto.
  destruct (IH _ _ Hin) as [Hp|(fm' & Hfm' & <-)].
  - destruct (applyMapping_keys _ _ _ _ Hp) as [->|]; auto.
    right. exists fm. split; [apply elem_of_cons; now left | reflexivity].
  - right. exists fm'. split; [apply elem_of_cons; now right | reflexivity].
Qed.


Lemma copyStandard_keys fields : forall p x,
  x ∈ obj_keys (fold_left copyStandard fields p) ->
  x ∈ obj_keys p \/ x ∈ map fst fields.
Proof.
  induction fields as [|[k v] fields IH]; simpl; intros p x Hin; auto.
  rewrite elem_of_cons.
  destruct (IH _ _ Hin) as [Hp|]; auto.
  unfold copyStandard in Hp. cbn [fst snd] in Hp.
  destruct (present (Some v)); auto.
  destruct (obj_keys_set _ _ _ _ Hp); auto.
Qed.



(** The keys of the transformer's output: rule targets when rules exist,
    canonical names otherwise. *)
Lemma buildAnonymizedPayload_keys w lead advertiser x :
  x ∈ obj_keys (buildAnonymizedPayload w lead advertiser) ->
  (exists fm, fm ∈ findFieldMappings w advertiser /\ targetField fm = x)
  \/ (findFieldMappings w advertiser = []
      /\ x ∈ ["email"; "phone"; "first_name"; "last_name"; "country"]%string).
Proof.
  unfold buildAnonymizedPayload.
  destruct (findFieldMappings w advertiser) as [|fm rules] eqn:E.
  - simpl (0 <? _)%nat. cbv iota. intros Hin. right. split; [reflexivity|].
    destruct (copyStandard_keys _ _ _ Hin) as [Hnil|Hstd]; [|exact Hstd].
    now apply elem_of_nil in Hnil.
  - simpl (0 <? _)%nat. cbv iota. intros Hin. left.
    destruct (mappings_keys _ _ _ _ Hin) as [Hnil|Hex]; [|exact Hex].
    now apply elem_of_nil in Hnil.
Qed.

(** A rule list leaves alone the keys none of its rules targets. *)
Lemma mappings_get_other lead rules k : forall p,
  (forall fm, fm ∈ rules -> targetField fm <> k) ->
  obj_get (fold_left (applyMapping lead) rules p) k = obj_get p k.
Proof.
  induction rules as [|fm rules IH]; simpl; intros p Hk; auto.
  rewrite IH by (intros fm' Hin; apply Hk, elem_of_cons; now right).
  rewrite applyMapping_ruleValue.
  destruct (ruleValue lead fm); auto.
  apply obj_get_set_ne, Hk, elem_of_cons. now left.
Qed.

(** With pairwise distinct targets, each rule's target holds that rule's
    contribution. *)
Lemma mappings_get_target lead rules : forall p fm,
  NoDup (map targetField rules) -> fm ∈ rules ->
  obj_get (fold_left (applyMapping lead) rules p) (targetField fm)
  = match ruleValue lead fm with
    | Some v => Some v
    | None => obj_get p (targetField fm)
    end.
Proof.
  induction rules as [|fm0 rules IH]; simpl; intros p fm Hnd Hin.
  - now apply elem_of_nil in Hin.
  - apply NoDup_cons in Hnd as [Hnotin Hnd].
    apply elem_of_cons in Hin as [->|Hin].
    + rewrite mappings_get_other.
      * rewrite applyMapping_ruleValue.
        destruct (ruleValue lead fm0); [apply obj_get_set_eq | reflexivity].
      * intros fm' Hfm' Heq. apply Hnotin. rewrite <- Heq.
        now apply list_elem_of_fmap_2.
    + rewrite IH by assumption.
      destruct (ruleValue lead fm) eqn:E; [reflexivity|].
      rewrite applyMapping_ruleValue.
      destruct (ruleValue lead fm0); [|reflexivity].
      apply obj_get_set_ne. intros Heq. apply Hnotin. rewrite Heq.
      now apply list_elem_of_fmap_2.
Qed.

Lemma buildAnonymizedPayload_rules w lead advertiser :
  findFieldMappings w advertiser <> [] ->
  buildAnonymizedPayload w lead advertiser
  = fold_left (applyMapping lead) (findFieldMappings w advertiser) [].
Proof.
  unfold buildAnonymizedPayload.
  now destruct (findFieldMappings w advertiser).
Qed.

Lemma fold_left_agree {A B : Type} (f g : A -> B -> A) (l : list B) :
  (forall a b, b ∈ l -> f a b = g a b) ->
  forall a, fold_left f l a = fold_left g l a.
Proof.
  induction l as [|b l IH]; simpl; intros Hfg a; [reflexivity|].
  rewrite Hfg by (apply elem_of_cons; now left).
  apply IH. intros a' b' Hin. apply Hfg, elem_of_cons. now right.
Qed.
End TransformerFacts.

Section TransformerClaims.
Context `{Runtime}.
Import ForwardLead Vocabulary.

Lemma applyTransform_non_string (value : JValue) (t : option Transform) :
  (forall s, value <> JStr s) -> applyTransform value t = value.
Proof.
  intros Hv. destruct t as [t|], value; try reflexivity.
  now destruct (Hv s).
Qed.

Lemma applyTransform_uppercase s tpl :
  applyTransform (JStr s) (Some {| ttype := "uppercase"; template := tpl |})
  = JStr (toUpperCase s).
Proof. reflexivity. Qed.

Lemma applyTransform_lowercase s tpl :
  applyTransform (JStr s) (Some {| ttype := "lowercase"; template := tpl |})
  = JStr (toLowerCase s).
Proof. reflexivity. Qed.

Lemma applyTransform_trim s tpl :
  applyTransform (JStr s) (Some {| ttype := "trim"; template := tpl |})
  = JStr (trim s).
Proof. reflexivity. Qed.

Lemma applyTransform_concat s tpl :
  replace tpl "{{value}}" s <> EmptyString ->
  applyTransform (JStr s) (Some {| ttype := "concat"; template := Some tpl |})
  = JStr (replace tpl "{{value}}" s).
Proof.
  intros Hne. cbn.
  destruct (String.eqb_spec (replace tpl "{{value}}" s) EmptyString);
    [contradiction | reflexivity].
Qed.


(** The allow-listed rules of an advertiser, in terms of the table. *)
Lemma findFieldMappings_elem (w : World) (advertiser : Advertiser)
    (fm : FieldMapping) :
  fm ∈ findFieldMappings w advertiser
  <-> fm ∈ fieldMappings w
      /\ fm_advertiserId fm = adv_id advertiser
      /\ allowlist fm = true.
Proof.
  unfold findFieldMappings.
  rewrite !list_elem_of_In, List.filter_In, andb_true_iff, String.eqb_eq.
  tauto.
Qed.

(** C7.  When the field-mapping table holds at least one allow-listed rule
    of the advertiser, every key of the outbound body is [az_tx_id] or the
    target of a rule of the table that is allow-listed and belongs to that
    advertiser; and two leads with the same transaction id that agree on
    every field named as the source of such a rule produce the same
    outbound body, whatever else differs between them. *)
Theorem allowlisted_payload_confined (w : World) (advertiser : Advertiser) :
  (exists fm, fm ∈ fieldMappings w
              /\ fm_advertiserId fm = adv_id advertiser
              /\ allowlist fm = true) ->
  (forall lead x,
     x ∈ obj_keys (requestPayload lead
                     (buildAnonymizedPayload w lead advertiser)) ->
     x = "az_tx_id"%string
     \/ exists fm, fm ∈ fieldMappings w
                   /\ fm_advertiserId fm = adv_id advertiser
                   /\ allowlist fm = true
                   /\ targetField fm = x)
  /\ (forall lead1 lead2,
        azTxId lead1 = azTxId lead2 ->
        (forall fm, fm ∈ fieldMappings w ->
           fm_advertiserId fm = adv_id advertiser ->
           allowlist fm = true ->
           obj_get (rawPayload (trafficLog lead1)) (sourceField fm)
           = obj_get (rawPayload (trafficLog lead2)) (sourceField fm)
           /\ obj_get (standardFields lead1) (sourceField fm)
              = obj_get (standardFields lead2) (sourceField fm)) ->
        requestPayload lead1 (buildAnonymizedPayload w lead1 advertiser)
        = requestPayload lead2 (buildAnonymizedPayload w lead2 advertiser)).
Proof.
  intros (fm0 & Hin0 & Hadv0 & Hallow0).
  assert (Hrules : findFieldMappings w advertiser <> []).
  { intros E. assert (Hfm0 : fm0 ∈ findFieldMappings w advertiser)
      by now apply findFieldMappings_elem.
    rewrite E in Hfm0. now apply elem_of_nil in Hfm0. }
  split.
  - intros lead x Hin.
    apply obj_spread_keys in Hin as [Hbase|Hpayload].
    + left. simpl in Hbase. now apply list_elem_of_singleton in Hbase.
    + right.
      destruct (buildAnonymizedPayload_keys _ _ _ _ Hpayload)
        as [(fm & Hfm & Htarget)|[Hnil _]]; [|contradiction].
      apply findFieldMappings_elem in Hfm as (Hin' & Hadv & Hallow).
      exists fm. auto.
  - intros lead1 lead2 Htx Hagree.
    unfold requestPayload. rewrite Htx. f_equal.
    rewrite !buildAnonymizedPayload_rules by assumption.
    apply fold_left_agree. intros p fm Hfm.
    apply findFieldMappings_elem in Hfm as (Hin' & Hadv & Hallow).
    unfold applyMapping, resolveValue.
    destruct (Hagree fm Hin' Hadv Hallow) as [-> ->]. reflexivity.
Qed.

(** C9 (amended).  Take a rule of the table that is allow-listed and
    belongs to the advertiser, whose source field is not a name every
    object inherits from [Object.prototype], while the allow-listed rules
    of the advertiser have pairwise distinct targets, none of them
    [__proto__].  The value of the rule is the raw tracking value when
    that value is truthy, and the canonical field otherwise (so an empty
    string, a zero or [false] in the raw payload falls back as well).
    When the value is null or undefined the payload has no key under the
    rule's target.  Otherwise the payload holds under the target: a value
    that is not a string as it is, whatever the transform; a string as it
    is when the rule has no transform; its upper-case, lower-case or
    trimmed form for [uppercase], [lowercase] and [trim]; for [concat],
    the template with its first [{{value}}] replaced by the string (with
    the replacement patterns of [String.prototype.replace]), or the string
    itself when the rule has no template or the result is empty; and the
    string as it is for any other transform type. *)
Theorem field_mapping_value (w : World) (lead : Lead) (advertiser : Advertiser)
    (fm : FieldMapping) :
  fm ∈ fieldMappings w ->
  fm_advertiserId fm = adv_id advertiser ->
  allowlist fm = true ->
  NoDup (map targetField (findFieldMappings w advertiser)) ->
  sourceField fm ∉ object_prototype_names ->
  (forall fm', fm' ∈ fieldMappings w ->
     fm_advertiserId fm' = adv_id advertiser -> allowlist fm' = true ->
     targetField fm' <> "__proto__"%string) ->
  let raw := obj_get (rawPayload (trafficLog lead)) (sourceField fm) in
  let canonical := obj_get (standardFields lead) (sourceField fm) in
  let value := if truthy_opt raw then raw else canonical in
  let sent :=
    obj_get (buildAnonymizedPayload w lead advertiser) (targetField fm) in
  (value = None \/ value = Some JNull -> sent = None)
  /\ (forall v, value = Some v -> v <> JNull -> (forall s, v <> JStr s) ->
      sent = Some v)
  /\ (forall s, value = Some (JStr s) ->
      match transform fm with
      | None => sent = Some (JStr s)
      | Some t =>
          (ttype t = "uppercase"%string -> sent = Some (JStr (toUpperCase s)))
          /\ (ttype t = "lowercase"%string ->
              sent = Some (JStr (toLowerCase s)))
          /\ (ttype t = "trim"%string -> sent = Some (JStr (trim s)))
          /\ (ttype t = "concat"%string ->
              match template t with
              | Some tpl =>
                  (replace tpl "{{value}}" s <> EmptyString ->
                   sent = Some (JStr (replace tpl "{{value}}" s)))
                  /\ (replace tpl "{{value}}" s = EmptyString ->
                      sent = Some (JStr s))
              | None => sent = Some (JStr s)
              end)
          /\ (ttype t ∉ ["uppercase"; "lowercase"; "trim"; "concat"]%string ->
              sent = Some (JStr s))
      end).
Proof.
  intros Hin Hadv Hallow Hnd _ _ raw canonical value sent.
  assert (Hfm : fm ∈ findFieldMappings w advertiser)
    by now apply findFieldMappings_elem.
  assert (Hsent : sent = ruleValue lead fm).
  { unfold sent.
    rewrite buildAnonymizedPayload_rules
      by (intros E; rewrite E in Hfm; now apply elem_of_nil in Hfm).
    rewrite mappings_get_target by assumption.
    now destruct (ruleValue lead fm). }
  assert (Hvalue : resolveValue lead (sourceField fm) = value) by reflexivity.
  rewrite Hsent. unfold ruleValue. rewrite Hvalue.
  split; [|split].
  - intros [-> | ->]; reflexivity.
  - intros v -> Hnull Hstr.
    destruct v as [|b|n|s|items|props];
      try (destruct (transform fm); reflexivity).
    + now destruct Hnull.
    + now destruct (Hstr s).
  - intros s ->. destruct (transform fm) as [t|]; [|reflexivity].
    cbn [applyTransform].
    repeat split.
    + intros ->. reflexivity.
    + intros ->. reflexivity.
    + intros ->. reflexivity.
    + intros ->. cbn. destruct (template t) as [tpl|]; [|reflexivity].
      split.
      * intros Hne. apply String.eqb_neq in Hne. now rewrite Hne.
      * intros ->. reflexivity.
    + intros Hother.
      assert (Hu : String.eqb (ttype t) "uppercase" = false).
      { apply String.eqb_neq. intros E. apply Hother. rewrite E.
        apply elem_of_cons. now left. }
      assert (Hl : String.eqb (ttype t) "lowercase" = false).
      { apply String.eqb_neq. intros E. apply Hother. rewrite E.
        apply elem_of_cons. right. apply elem_of_cons. now left. }
      assert (Ht : String.eqb (ttype t) "trim" = false).
      { apply String.eqb_neq. intros E. apply Hother. rewrite E.
        do 2 (apply elem_of_cons; right). apply elem_of_cons. now left. }
      assert (Hc : String.eqb (ttype t) "concat" = false).
      { apply String.eqb_neq. intros E. apply Hother. rewrite E.
        do 3 (apply elem_of_cons; right). apply elem_of_cons. now left. }
      now rewrite Hu, Hl, Ht, Hc.
Qed.
End TransformerClaims.

Section TransformerRuns.
Import ForwardLead Vocabulary Scenario.
Local Open Scope string_scope.

(** The allow-listing example of the specification: one rule from [email]
    to [email_addr] gives a body with [az_tx_id] and [email_addr] only. *)
Example allowlist_example :
  obj_keys (requestPayload lead1
              (buildAnonymizedPayload emailRuleWorld lead1 advertiserX))
  = ["az_tx_id"; "email_addr"].
Proof. reflexivity. Qed.

(** Without rules the non-null canonical fields are sent. *)
Example default_mapping_example :
  obj_keys (requestPayload lead1
              (buildAnonymizedPayload (world []) lead1 advertiserX))
  = ["az_tx_id"; "email"; "phone"; "first_name"; "country"].
Proof. reflexivity. Qed.



(** Of the three rules of the table only the allow-listed rule of the
    advertiser shows in the body. *)
Example mixed_rules_example :
  obj_keys (requestPayload lead1
              (buildAnonymizedPayload mixedRulesWorld lead1 advertiserX))
  = ["az_tx_id"; "email_addr"]
  /\ requestPayload lead1'
       (buildAnonymizedPayload mixedRulesWorld lead1' advertiserX)
     = requestPayload lead1
         (buildAnonymizedPayload mixedRulesWorld lead1 advertiserX).
Proof. split; reflexivity. Qed.

Lemma allowlisted_payload_confined_witness :
  (exists fm, fm ∈ fieldMappings mixedRulesWorld
              /\ fm_advertiserId fm = adv_id advertiserX
              /\ allowlist fm = true)
  /\ (forall x,
        x ∈ obj_keys (requestPayload lead1
                        (buildAnonymizedPayload mixedRulesWorld lead1
                           advertiserX)) ->
        x = "az_tx_id"
        \/ exists fm, fm ∈ fieldMappings mixedRulesWorld
                      /\ fm_advertiserId fm = adv_id advertiserX
                      /\ allowlist fm = true
                      /\ targetField fm = x)
  /\ requestPayload lead1
       (buildAnonymizedPayload mixedRulesWorld lead1 advertiserX)
     = requestPayload lead1'
         (buildAnonymizedPayload mixedRulesWorld lead1' advertiserX).
Proof.
  assert (Hrule : exists fm, fm ∈ fieldMappings mixedRulesWorld
                             /\ fm_advertiserId fm = adv_id advertiserX
                             /\ allowlist fm = true).
  { exists (rule "email" "email_addr"). split; [|split; reflexivity].
    apply elem_of_cons. now left. }
  assert (Hagree : forall fm, fm ∈ fieldMappings mixedRulesWorld ->
            fm_advertiserId fm = adv_id advertiserX ->
            allowlist fm = true ->
            obj_get (rawPayload (trafficLog lead1)) (sourceField fm)
            = obj_get (rawPayload (trafficLog lead1')) (sourceField fm)
            /\ obj_get (standardFields lead1) (sourceField fm)
               = obj_get (standardFields lead1') (sourceField fm)).
  { intros fm Hin Hadv Hallow.
    repeat (apply elem_of_cons in Hin as [->|Hin]);
      [split; reflexivity | discriminate Hallow | discriminate Hadv |].
    now apply elem_of_nil in Hin. }
  split; [exact Hrule|]. split.
  - exact (proj1 (allowlisted_payload_confined mixedRulesWorld advertiserX
                    Hrule) lead1).
  - exact (proj2 (allowlisted_payload_confined mixedRulesWorld advertiserX
                    Hrule) lead1 lead1' eq_refl Hagree).
Defined.

Lemma field_mapping_value_witness :
  rule "email" "email_addr" ∈ fieldMappings falsyWorld
  /\ NoDup (map targetField (findFieldMappings falsyWorld advertiserX))
  /\ ("email" ∉ object_prototype_names)
  /\ (forall fm', fm' ∈ fieldMappings falsyWorld ->
        fm_advertiserId fm' = adv_id advertiserX -> allowlist fm' = true ->
        targetField fm' <> "__proto__")
  /\ obj_get (buildAnonymizedPayload falsyWorld lead1 advertiserX)
       "email_addr" = Some (JStr "canon@example.com").
Proof.
  assert (Hin : rule "email" "email_addr" ∈ fieldMappings falsyWorld).
  { apply elem_of_cons. right. apply elem_of_cons. now left. }
  assert (Hnd : NoDup (map targetField
                         (findFieldMappings falsyWorld advertiserX))).
  { apply NoDup_cons. split.
    - intros Hx. apply list_elem_of_singleton in Hx. discriminate.
    - apply NoDup_singleton. }
  assert (Hsource : "email" ∉ object_prototype_names).
  { unfold object_prototype_names. intros Hx.
    repeat (apply elem_of_cons in Hx as [Hx|Hx]; [discriminate Hx|]).
    now apply elem_of_nil in Hx. }
  assert (Htargets : forall fm', fm' ∈ fieldMappings falsyWorld ->
            fm_advertiserId fm' = adv_id advertiserX ->
            allowlist fm' = true -> targetField fm' <> "__proto__").
  { intros fm' Hfm' _ _.
    repeat (apply elem_of_cons in Hfm' as [->|Hfm']; [discriminate|]).
    now apply elem_of_nil in Hfm'. }
  split; [exact Hin|]. split; [exact Hnd|]. split; [exact Hsource|].
  split; [exact Htargets|].
  exact (proj2 (proj2 (field_mapping_value falsyWorld lead1 advertiserX
                         (rule "email" "email_addr") Hin eq_refl eq_refl
                         Hnd Hsource Htargets))
           "canon@example.com" eq_refl).
Defined.

(** The named transforms at work on [lead1]. *)
Example transforms_example :
  requestPayload lead1 (buildAnonymizedPayload transformWorld lead1 advertiserX)
  = [ ("az_tx_id", JStr "tx-1"); ("name", JStr "ADA");
      ("region", JStr "geo-BD") ].
Proof. vm_compute. reflexivity. Qed.

(** C9 as stated fails: a raw value that is present but falsy is not used.
    [opt_in: false] contributes no key at all, and the empty raw [email]
    gives way to the canonical e-mail address. *)
Lemma falsy_raw_value_not_used :
  let raw := rawPayload (trafficLog lead1) in
  let payload := buildAnonymizedPayload falsyWorld lead1 advertiserX in
  obj_get raw "opt_in" = Some (JBool false)
  /\ present (obj_get raw "opt_in") = true
  /\ obj_get payload "consent" = None
  /\ obj_get raw "email" = Some (JStr EmptyString)
  /\ present (obj_get raw "email") = true
  /\ obj_get payload "email_addr" = Some (JStr "canon@example.com").
Proof. vm_compute. repeat split. Qed.
End TransformerRuns.

(** ** Signing and verifying *)

Section SignatureFacts.
Context `{Runtime}.
Import ForwardLead Callback Vocabulary.

Lemma bytes_eqb_refl (a : list byte) : bytes_eqb a a = true.
Proof. now apply bytes_eqb_eq. Qed.

Lemma signature_header_split (digest : list byte) :
  free_of "=" hmacAlgo ->
  split "=" (hmacAlgo +:+ "=" +:+ Buffer.toHex digest)
  = [hmacAlgo; Buffer.toHex digest].
Proof.
  intros Halgo.
  change ("=" +:+ Buffer.toHex digest)%string
    with (String "=" (Buffer.toHex digest)).
  apply split_app; [exact Halgo | apply toHex_free].
Qed.

(** What an accepted signature is: inside the window, the configured
    algorithm prefix, and a hash that decodes to the HMAC of
    [timestamp:body]. *)
Lemma verifyHmacSignature_accepts nowMs secret timestamp body signature :
  verifyHmacSignature nowMs secret timestamp body signature = true ->
  match parseInt timestamp with
  | Some t => Z.abs (nowMs / 1000 - t) <= 300
  | None => True
  end
  /\ exists hash rest,
       split "=" signature = hmacAlgo :: hash :: rest
       /\ Buffer.fromHex hash = hmacDigest secret (timestamp +:+ ":" +:+ body).
Proof.
  unfold verifyHmacSignature, verifyHmacSignature_try.
  destruct (parseInt timestamp) as [t|].
  - destruct (Z.abs (nowMs / 1000 - t) >? 300) eqn:Ew; [discriminate|].
    intros Hv. split; [lia|]. revert Hv.
    destruct (split "=" signature) as [|algorithm [|hash rest]];
      try discriminate.
    + destruct (String.eqb algorithm hmacAlgo); discriminate.
    + destruct (String.eqb_spec algorithm hmacAlgo) as [->|]; [|discriminate].
      cbn [negb]. rewrite fromHex_toHex. unfold timingSafeEqual.
      destruct (length (Buffer.fromHex hash) =? _)%nat; [|discriminate].
      intros Heq. apply bytes_eqb_eq in Heq. eauto.
  - intros Hv. split; [exact I|]. revert Hv.
    destruct (split "=" signature) as [|algorithm [|hash rest]];
      try discriminate.
    + destruct (String.eqb algorithm hmacAlgo); discriminate.
    + destruct (String.eqb_spec algorithm hmacAlgo) as [->|]; [|discriminate].
      cbn [negb]. rewrite fromHex_toHex. unfold timingSafeEqual.
      destruct (length (Buffer.fromHex hash) =? _)%nat; [|discriminate].
      intros Heq. apply bytes_eqb_eq in Heq. eauto.
Qed.

(** C5 (amended).  A body signed with [createHmacSignature] verifies under
    the same secret, timestamp and body when the timestamp is within 300
    seconds of now.  [verifyHmacSignature] is total, so it answers and never
    throws; whatever timestamp, body and signature it accepts, the hash of
    the signature decodes to the HMAC of that [timestamp:body].  Hence a
    changed body or timestamp is accepted under the original signature only
    on a collision of the keyed hash, and a changed signature only while it
    still decodes to the same digest. *)
Theorem sign_then_verify (nowMs : Z) (secret timestamp body : string) (t : Z) :
  free_of "=" hmacAlgo ->
  parseInt timestamp = Some t ->
  Z.abs (nowMs / 1000 - t) <= 300 ->
  let signature :=
    (hmacAlgo +:+ "=" +:+ createHmacSignature secret timestamp body)%string in
  verifyHmacSignature nowMs secret timestamp body signature = true
  /\ (forall timestamp' body' signature',
        verifyHmacSignature nowMs secret timestamp' body' signature' = true ->
        exists hash rest,
          split "=" signature' = hmacAlgo :: hash :: rest
          /\ Buffer.fromHex hash
             = hmacDigest secret (timestamp' +:+ ":" +:+ body'))
  /\ (forall timestamp' body',
        verifyHmacSignature nowMs secret timestamp' body' signature = true ->
        hmacDigest secret (timestamp' +:+ ":" +:+ body')
        = hmacDigest secret (timestamp +:+ ":" +:+ body)).
Proof.
  intros Halgo Hts Hwin signature.
  assert (Hsplit : split "=" signature
                   = [hmacAlgo; createHmacSignature secret timestamp body])
    by (apply signature_header_split; exact Halgo).
  split; [|split].
  - unfold verifyHmacSignature, verifyHmacSignature_try.
    rewrite Hts, Hsplit.
    replace (Z.abs (nowMs / 1000 - t) >? 300) with false by lia.
    rewrite String.eqb_refl. cbn [negb]. unfold timingSafeEqual.
    unfold createHmacSignature. rewrite Nat.eqb_refl. apply bytes_eqb_refl.
  - intros timestamp' body' signature' Hv.
    exact (proj2 (verifyHmacSignature_accepts _ _ _ _ _ Hv)).
  - intros timestamp' body' Hv.
    destruct (verifyHmacSignature_accepts _ _ _ _ _ Hv)
      as (_ & hash & rest & Hs & Hhash).
    rewrite Hsplit in Hs. injection Hs as <- _.
    rewrite <- Hhash. unfold createHmacSignature. apply fromHex_toHex.
Qed.
End SignatureFacts.

Section SignatureRuns.
Import ForwardLead Callback Vocabulary Scenario.
Local Open Scope string_scope.

Lemma sign_then_verify_witness :
  free_of "=" hmacAlgo
  /\ parseInt "1700000000" = Some 1700000000
  /\ Z.abs (t0 / 1000 - 1700000000) <= 300
  /\ verifyHmacSignature t0 "s1" "1700000000" "{}"
       (hmacAlgo +:+ "=" +:+ createHmacSignature "s1" "1700000000" "{}")
     = true.
Proof.
  assert (Halgo : free_of "=" hmacAlgo) by (vm_compute; repeat split).
  assert (Hts : parseInt "1700000000" = Some 1700000000) by reflexivity.
  assert (Hwin : Z.abs (t0 / 1000 - 1700000000) <= 300)
    by (vm_compute; discriminate).
  repeat (split; [assumption|]).
  exact (proj1 (sign_then_verify t0 "s1" "1700000000" "{}" 1700000000
                  Halgo Hts Hwin)).
Defined.

(** C5 as stated fails for the signature: hexadecimal digits are decoded
    without regard to case, so the header with one digit in upper case,
    a change of one byte, still verifies. *)
Lemma mutated_signature_verifies :
  let timestamp := "1700000000" in
  let body := JSON_stringify (payload_json approvedPayload) in
  let signature :=
    "sha256=f24e1a7688c5c51e586fa6c95fa8cd2aa9a47426f7da2100397317b82f59b8c4" in
  let mutated :=
    "sha256=F24e1a7688c5c51e586fa6c95fa8cd2aa9a47426f7da2100397317b82f59b8c4" in
  hmacAlgo +:+ "=" +:+ createHmacSignature "s1" timestamp body = signature
  /\ single_byte_mutation signature mutated
  /\ verifyHmacSignature t0 "s1" timestamp body mutated = true.
Proof. vm_compute. repeat split. Qed.
End SignatureRuns.

(** ** The replay cache *)

Section ReplayFacts.
Import RedisHelper Vocabulary.

Lemma checkReplayAttack_fresh nowMs timestamp signature r :
  exists_ nowMs (replayKey timestamp signature) r = false ->
  checkReplayAttack nowMs timestamp signature r
  = (false,
     <[replayKey timestamp signature :=
         {| re_value := "1"; re_expiresAt := Some (nowMs + 300000) |}]> r).
Proof.
  intros Hfresh. unfold checkReplayAttack. rewrite Hfresh. reflexivity.
Qed.

Lemma checkReplayAttack_seen nowMs timestamp signature r :
  exists_ nowMs (replayKey timestamp signature) r = true ->
  checkReplayAttack nowMs timestamp signature r = (true, r).
Proof. intros Hseen. unfold checkReplayAttack. now rewrite Hseen. Qed.

(** A check never disturbs an entry that is still live. *)
Lemma checkReplayAttack_keeps nowMs timestamp signature r k e :
  r !! k = Some e -> live nowMs e = true ->
  snd (checkReplayAttack nowMs timestamp signature r) !! k = Some e.
Proof.
  intros Hk Hlive.
  destruct (exists_ nowMs (replayKey timestamp signature) r) eqn:E.
  - now rewrite checkReplayAttack_seen.
  - rewrite checkReplayAttack_fresh by exact E. cbn [snd].
    rewrite lookup_insert_ne; [exact Hk|].
    intros Heq. unfold exists_ in E. rewrite Heq, Hk in E. congruence.
Qed.

Lemma replayChecks_keeps checks : forall r k e,
  r !! k = Some e ->
  Forall (fun c => live (fst (fst c)) e = true) checks ->
  replayChecks checks r !! k = Some e.
Proof.
  induction checks as [|[[t ts] sg] checks IH]; intros r k e Hk Hall;
    [exact Hk|].
  apply Forall_cons in Hall as [Hlive Hall].
  apply IH; [|exact Hall].
  now apply checkReplayAttack_keeps.
Qed.

(** The key of a pair is the plain concatenation
    [replay:<timestamp>:<signature>]: it tells two pairs apart when their
    timestamps hold no colon. *)
Lemma append_colon_inj (a b x y : string) :
  free_of ":" a -> free_of ":" b ->
  (a +:+ String ":" x)%string = (b +:+ String ":" y)%string ->
  a = b /\ x = y.
Proof.
  revert b. induction a as [|c a IH]; intros [|d b] Ha Hb E.
  - now injection E as <-.
  - destruct Hb as [Hd _]. injection E as <- _. discriminate Hd.
  - destruct Ha as [Hc _]. injection E as -> _. discriminate Hc.
  - destruct Ha as [_ Ha], Hb as [_ Hb]. injection E as <- E.
    destruct (IH b Ha Hb E) as [<- <-]. split; reflexivity.
Qed.

Lemma replayKey_inj (ts1 sg1 ts2 sg2 : string) :
  free_of ":" ts1 -> free_of ":" ts2 ->
  replayKey ts1 sg1 = replayKey ts2 sg2 -> ts1 = ts2 /\ sg1 = sg2.
Proof.
  intros H1 H2 E. unfold replayKey in E.
  change (("replay:" +:+ ts1 +:+ ":" +:+ sg1)%string)
    with (String "r" (String "e" (String "p" (String "l" (String "a"
            (String "y" (String ":" (ts1 +:+ String ":" sg1)))))))) in E.
  change (("replay:" +:+ ts2 +:+ ":" +:+ sg2)%string)
    with (String "r" (String "e" (String "p" (String "l" (String "a"
            (String "y" (String ":" (ts2 +:+ String ":" sg2)))))))) in E.
  injection E as E. now apply append_colon_inj.
Qed.

(** Where an entry of the cache comes from: it was there at the start, or
    a check of the run stored it, with a value of 1 and an expiry 300
    seconds after that check. *)
Lemma replayChecks_entries checks : forall r k e,
  replayChecks checks r !! k = Some e ->
  r !! k = Some e
  \/ exists c, c ∈ checks
               /\ k = replayKey (snd (fst c)) (snd c)
               /\ e = {| re_value := "1";
                         re_expiresAt := Some (fst (fst c) + 300000) |}.
Proof.
  induction checks as [|[[t ts] sg] checks IH]; intros r k e Hk;
    [now left|].
  cbn [replayChecks fold_left fst snd] in Hk.
  apply IH in Hk as [Hk|(c & Hc & Hkey & He)].
  - destruct (exists_ t (replayKey ts sg) r) eqn:E.
    + rewrite checkReplayAttack_seen in Hk by exact E. now left.
    + rewrite checkReplayAttack_fresh in Hk by exact E. cbn [snd] in Hk.
      destruct (decide (replayKey ts sg = k)) as [<-|Hne].
      * rewrite lookup_insert_eq in Hk. injection Hk as <-.
        right. exists (t, ts, sg). split; [apply elem_of_cons; now left|].
        split; reflexivity.
      * rewrite lookup_insert_ne in Hk by exact Hne. now left.
  - right. exists c. split; [apply elem_of_cons; now right|]. now split.
Qed.

(** C6 (amended).  Timestamps without a colon.  Start from a cache without
    replay keys and let any checks of such pairs be made.  A check of a
    pair at [t0] that no check of the last 300 seconds was for reports
    "not a replay" and stores the key with a value of 1 that expires 300
    seconds later; a check of the same pair before that instant reports
    "replay", whatever other pairs were checked in between.  The check
    takes the pair only: the body of the callback is not among its
    arguments. *)
Theorem replay_detected_within_window (r0 : gmap string RedisEntry)
    (history : list (Z * string * string)) (t0 : Z)
    (timestamp signature : string) :
  (forall ts sg, r0 !! replayKey ts sg = None) ->
  free_of ":" timestamp ->
  Forall (fun c => free_of ":" (snd (fst c))) history ->
  Forall (fun c => snd (fst c) = timestamp -> snd c = signature ->
                   fst (fst c) + 300000 <= t0) history ->
  let r := replayChecks history r0 in
  let first := checkReplayAttack t0 timestamp signature r in
  fst first = false
  /\ snd first !! replayKey timestamp signature
     = Some {| re_value := "1"; re_expiresAt := Some (t0 + 300000) |}
  /\ forall (t1 : Z) (others : list (Z * string * string)),
       t0 <= t1 < t0 + 300000 ->
       Forall (fun c => fst (fst c) < t0 + 300000) others ->
       let later := replayChecks others (snd first) in
       checkReplayAttack t1 timestamp signature later = (true, later).
Proof.
  intros Hstart Hts Hcolons Hold r first.
  assert (Hfresh : exists_ t0 (replayKey timestamp signature) r = false).
  { unfold exists_.
    destruct (r !! replayKey timestamp signature) as [e|] eqn:E;
      [|reflexivity].
    apply replayChecks_entries in E as [E|(c & Hc & Hkey & ->)].
    - now rewrite Hstart in E.
    - rewrite Forall_forall in Hcolons, Hold.
      destruct (replayKey_inj _ _ _ _ Hts (Hcolons c Hc) Hkey) as [Hc1 Hc2].
      pose proof (Hold c Hc (eq_sym Hc1) (eq_sym Hc2)) as Hexpired.
      cbn [live re_expiresAt]. apply Z.ltb_ge. exact Hexpired. }
  unfold first.
  rewrite checkReplayAttack_fresh by exact Hfresh. cbn [fst snd].
  split; [reflexivity|]. split; [apply lookup_insert_eq|].
  intros t1 others Hwin Hothers.
  apply checkReplayAttack_seen. unfold exists_.
  rewrite (replayChecks_keeps others _ (replayKey timestamp signature)
             {| re_value := "1"; re_expiresAt := Some (t0 + 300000) |}).
  - cbn. apply Z.ltb_lt. lia.
  - apply lookup_insert_eq.
  - eapply Forall_impl; [exact Hothers|].
    intros c Hc. cbn. apply Z.ltb_lt. exact Hc.
Qed.

Lemma replay_detected_within_window_witness :
  let history :=
    [ (1699999600000, "1700000000", "sha256=ab");
      (1699999990000, "1700000000", "sha256=cd") ]%string in
  (forall ts sg, (∅ : gmap string RedisEntry) !! replayKey ts sg = None)
  /\ free_of ":" "1700000000"
  /\ Forall (fun c => free_of ":" (snd (fst c))) history
  /\ Forall (fun c => snd (fst c) = "1700000000"%string ->
                      snd c = "sha256=ab"%string ->
                      fst (fst c) + 300000 <= 1700000000000) history
  /\ fst (checkReplayAttack 1700000000000 "1700000000" "sha256=ab"
            (replayChecks history ∅)) = false
  /\ fst (checkReplayAttack 1700000120000 "1700000000" "sha256=ab"
            (snd (checkReplayAttack 1700000000000 "1700000000" "sha256=ab"
                    (replayChecks history ∅)))) = true.
Proof.
  intros history.
  assert (Hstart : forall ts sg,
             (∅ : gmap string RedisEntry) !! replayKey ts sg = None)
    by (intros ts sg; apply lookup_empty).
  assert (Hts : free_of ":" "1700000000") by (simpl; repeat split).
  assert (Hcolons : Forall (fun c => free_of ":" (snd (fst c))) history).
  { repeat (apply Forall_cons; split; [simpl; repeat split|]).
    apply Forall_nil. exact I. }
  assert (Hold : Forall (fun c => snd (fst c) = "1700000000"%string ->
                                  snd c = "sha256=ab"%string ->
                                  fst (fst c) + 300000 <= 1700000000000)
                   history).
  { apply Forall_cons. split; [intros _ _; cbn; lia|].
    apply Forall_cons. split; [intros _ Hsg; discriminate Hsg|].
    apply Forall_nil. exact I. }
  do 4 (split; [assumption|]).
  pose proof (replay_detected_within_window ∅ history 1700000000000
                "1700000000" "sha256=ab" Hstart Hts Hcolons Hold) as P.
  cbv zeta in P. destruct P as (Hfirst & _ & Hlater).
  split; [exact Hfirst|].
  specialize (Hlater 1700000120000 []).
  cbn [replayChecks fold_left] in Hlater. rewrite Hlater.
  - reflexivity.
  - lia.
  - apply Forall_nil. exact I.
Defined.

(** C6 as stated fails: the key is the concatenation of the pair, so the
    pairs [("1:2", "3")] and [("1", "2:3")] share it, and the first check
    ever made of the second pair reports a replay once the first pair has
    been checked. *)
Lemma unchecked_pair_reported_as_replay :
  ("1:2", "3")%string <> ("1", "2:3")%string
  /\ replayKey "1:2" "3" = replayKey "1" "2:3"
  /\ fst (checkReplayAttack 1700000000000 "1:2" "3" ∅) = false
  /\ fst (checkReplayAttack 1700000001000 "1" "2:3"
            (snd (checkReplayAttack 1700000000000 "1:2" "3" ∅))) = true.
Proof. split; [discriminate | repeat split]. Qed.

(** After the five minutes the key is gone and the pair is accepted anew. *)
Example replay_window_expires :
  fst (checkReplayAttack 1700000300000 "1700000000" "sha256=ab"
         (snd (checkReplayAttack 1700000000000 "1700000000" "sha256=ab" ∅)))
  = false.
Proof. reflexivity. Qed.
End ReplayFacts.

(** ** The callback route *)

Section CallbackFacts.
Context `{Runtime}.
Import Callback Vocabulary.

Lemma find_map {A : Type} (p : A -> bool) (g : A -> A) (l : list A) :
  (forall x, p (g x) = p x) ->
  List.find p (map g l) = option_map g (List.find p l).
Proof.
  intros Hp. induction l as [|x l IH]; simpl; [reflexivity|].
  rewrite Hp. destruct (p x); [reflexivity | exact IH].
Qed.

(** The checks touch the replay cache only. *)
Lemma authenticate_tables advertiser payload signature timestamp nowMs w :
  let w' := snd (authenticate advertiser payload signature timestamp nowMs w) in
  leads w' = leads w /\ advertisers w' = advertisers w
  /\ callbackLogs w' = callbackLogs w /\ commissions w' = commissions w.
Proof.
  unfold authenticate.
  destruct (truthy_str (endpointSecret advertiser) && truthy_str signature
            && truthy_str timestamp); [|now cbn].
  destruct (negb (verifyHmacSignature _ _ _ _ _)); [now cbn|].
  destruct (RedisHelper.checkReplayAttack _ _ _ _) as [[] r]; now cbn.
Qed.

(** Without one of the two headers, or without a secret, nothing is
    checked. *)
Lemma authenticate_skipped advertiser payload signature timestamp nowMs w :
  truthy_str (endpointSecret advertiser) = false
  \/ signature = None \/ timestamp = None ->
  authenticate advertiser payload signature timestamp nowMs w = (None, w).
Proof.
  unfold authenticate. intros [Hs|[->| ->]].
  - now rewrite Hs.
  - now rewrite andb_false_r.
  - now rewrite andb_false_r.
Qed.

(** The route, once the body is well formed and the lead and its advertiser
    are found. *)
Lemma handler_found req nowMs w lead advertiser :
  truthy_str (cb_az_tx_id (body req)) = true ->
  truthy_str (cb_status (body req)) = true ->
  findLeadByAzTxId w (default EmptyString (cb_az_tx_id (body req)))
  = Some lead ->
  leadAdvertiser w lead = Some advertiser ->
  handler req nowMs w
  = match authenticate advertiser (body req) (x_signature req)
            (x_signature_timestamp req) nowMs w with
    | (Some rejection, w') => (rejection, w')
    | (None, w') =>
        (Ok, reconcile lead advertiser (body req) (x_signature req) nowMs w')
    end.
Proof.
  intros Haz Hst Hlead Hadv. unfold handler.
  now rewrite Haz, Hst, Hlead, Hadv.
Qed.

(** What an acknowledged callback went through. *)
Lemma handler_ok_inv req nowMs w w' :
  handler req nowMs w = (Ok, w') ->
  exists lead advertiser wa,
    truthy_str (cb_az_tx_id (body req)) = true
    /\ truthy_str (cb_status (body req)) = true
    /\ findLeadByAzTxId w (default EmptyString (cb_az_tx_id (body req)))
       = Some lead
    /\ leadAdvertiser w lead = Some advertiser
    /\ authenticate advertiser (body req) (x_signature req)
         (x_signature_timestamp req) nowMs w = (None, wa)
    /\ w' = reconcile lead advertiser (body req) (x_signature req) nowMs wa.
Proof.
  unfold handler.
  destruct (truthy_str (cb_az_tx_id (body req))) eqn:Eaz; [|discriminate].
  destruct (truthy_str (cb_status (body req))) eqn:Est; [|discriminate].
  cbn [negb].
  destruct (findLeadByAzTxId w _) as [lead|] eqn:El; [|discriminate].
  destruct (leadAdvertiser w lead) as [advertiser|] eqn:Eadv; [|discriminate].
  destruct (authenticate _ _ _ _ _ _) as [[rejection|] wa] eqn:Ea.
  - intros [= -> _]. revert Ea. unfold authenticate.
    destruct (_ && _ && _); [|discriminate].
    destruct (negb _); [discriminate|].
    destruct (RedisHelper.checkReplayAttack _ _ _ _) as [[] r]; discriminate.
  - intros [= <-]. exists lead, advertiser, wa. auto 10.
Qed.

Lemma reconcile_callbackLogs lead advertiser payload signature nowMs w :
  callbackLogs (reconcile lead advertiser payload signature nowMs w)
  = callbackLogs w ++
    [ {| cl_advertiserId := adv_id advertiser;
         cl_azTxId := default EmptyString (cb_az_tx_id payload);
         cl_payload := payload; cl_signature := signature;
         cl_statusCode := 200 |} ].
Proof.
  unfold reconcile.
  destruct (cb_payout payload) as [q|]; [|reflexivity].
  destruct (_ && _ && _); [|reflexivity].
  destruct (commissionExists _ _ _); reflexivity.
Qed.

Lemma reconcile_redis lead advertiser payload signature nowMs w :
  redis (reconcile lead advertiser payload signature nowMs w) = redis w.
Proof.
  unfold reconcile.
  destruct (cb_payout payload) as [q|]; [|reflexivity].
  destruct (_ && _ && _); [|reflexivity].
  destruct (commissionExists _ _ _); reflexivity.
Qed.

(** C1 (amended).  The route appends one CallbackLog row, with the payload,
    the signature header and status code 200, exactly when it acknowledges
    the callback; every rejection, among them an invalid signature and a
    replay, is returned with the log left as it was. *)
Theorem callback_logged_iff_acknowledged (req : Request) (nowMs : Z)
    (w : World) :
  match handler req nowMs w with
  | (Ok, w') =>
      exists row,
        callbackLogs w' = callbackLogs w ++ [row]
        /\ cl_payload row = body req
        /\ cl_signature row = x_signature req
        /\ cl_statusCode row = 200
  | (ApiError _ _ _, w') => callbackLogs w' = callbackLogs w
  end.
Proof.
  destruct (handler req nowMs w) as [[|code kind msg] w'] eqn:E.
  - apply handler_ok_inv in E
      as (lead & advertiser & wa & _ & _ & _ & _ & Ea & ->).
    rewrite reconcile_callbackLogs.
    pose proof (authenticate_tables advertiser (body req) (x_signature req)
                  (x_signature_timestamp req) nowMs w) as Ht.
    rewrite Ea in Ht. cbn [snd] in Ht. destruct Ht as (_ & _ & -> & _).
    eexists. split; [reflexivity|]. auto.
  - revert E. unfold handler.
    destruct (truthy_str (cb_az_tx_id (body req))); [|now intros [= _ _ _ <-]].
    destruct (truthy_str (cb_status (body req))); [|now intros [= _ _ _ <-]].
    cbn [negb].
    destruct (findLeadByAzTxId w _) as [lead|]; [|now intros [= _ _ _ <-]].
    destruct (leadAdvertiser w lead) as [advertiser|]; [|now intros [= _ _ _ <-]].
    pose proof (authenticate_tables advertiser (body req) (x_signature req)
                  (x_signature_timestamp req) nowMs w) as Ht.
    destruct (authenticate _ _ _ _ _ _) as [[rejection|] wa];
      [|discriminate].
    intros [= _ <-]. cbn [snd] in Ht. tauto.
Qed.
End CallbackFacts.

Section CallbackClaims.
Context `{Runtime}.
Import Callback Vocabulary.

Lemma leadAdvertiser_withoutSecrets w lead advertiser :
  leadAdvertiser w lead = Some advertiser ->
  leadAdvertiser (withoutSecrets w) lead
  = Some {| adv_id := adv_id advertiser;
            endpointUrl := endpointUrl advertiser;
            endpointSecret := None |}.
Proof.
  unfold leadAdvertiser. destruct (advertiserId lead) as [a|]; [|discriminate].
  cbn [withoutSecrets advertisers]. intros Hfind.
  rewrite find_map by reflexivity. now rewrite Hfind.
Qed.

Lemma reconcile_withoutSecrets lead advertiser payload signature nowMs w :
  reconcile lead
    {| adv_id := adv_id advertiser; endpointUrl := endpointUrl advertiser;
       endpointSecret := None |}
    payload signature nowMs (withoutSecrets w)
  = withoutSecrets (reconcile lead advertiser payload signature nowMs w).
Proof.
  unfold reconcile. cbn [adv_id].
  destruct (cb_payout payload) as [q|]; [|reflexivity].
  destruct (_ && _ && _); [|reflexivity].
  unfold commissionExists. cbn [commissions lead_update with_leads
    with_callbackLogs withoutSecrets].
  destruct (existsb _ (commissions w)); reflexivity.
Qed.

(** C10.  When the advertiser has a secret but the signature header or the
    timestamp header is missing, the route verifies nothing and checks no
    replay: the answer is [{ ok: true }], the replay cache is untouched, the
    outcome does not depend on the keyed hash of the platform, and the run
    is the run of the same request with the secrets removed. *)
Theorem unsigned_callback_skips_checks (req : Request) (nowMs : Z) (w : World)
    (lead : Lead) (advertiser : Advertiser) :
  truthy_str (cb_az_tx_id (body req)) = true ->
  truthy_str (cb_status (body req)) = true ->
  findLeadByAzTxId w (default EmptyString (cb_az_tx_id (body req)))
  = Some lead ->
  leadAdvertiser w lead = Some advertiser ->
  truthy_str (endpointSecret advertiser) = true ->
  x_signature req = None \/ x_signature_timestamp req = None ->
  handler req nowMs w
  = (Ok, reconcile lead advertiser (body req) (x_signature req) nowMs w)
  /\ redis (snd (handler req nowMs w)) = redis w
  /\ (forall platform : Runtime,
        @handler platform req nowMs w = handler req nowMs w)
  /\ handler req nowMs (withoutSecrets w)
     = (Ok, withoutSecrets (snd (handler req nowMs w))).
Proof.
  intros Haz Hst Hlead Hadv _ Hmissing.
  assert (Hrun : forall platform : Runtime,
             @handler platform req nowMs w
             = (Ok, reconcile lead advertiser (body req) (x_signature req)
                      nowMs w)).
  { intros platform.
    rewrite (handler_found req nowMs w lead advertiser) by assumption.
    rewrite authenticate_skipped by tauto. reflexivity. }
  split; [apply Hrun|]. split; [|split].
  - rewrite Hrun. apply reconcile_redis.
  - intros platform. now rewrite !Hrun.
  - rewrite Hrun. cbn [snd].
    rewrite (handler_found req nowMs (withoutSecrets w) lead
               {| adv_id := adv_id advertiser;
                  endpointUrl := endpointUrl advertiser;
                  endpointSecret := None |});
      try assumption.
    + rewrite authenticate_skipped by (left; reflexivity).
      now rewrite reconcile_withoutSecrets.
    + now apply leadAdvertiser_withoutSecrets.
Qed.

Lemma Qpositive_nonzero (q : Q) : Qpositive q = true -> Qeq_bool q 0 = false.
Proof.
  unfold Qpositive. intros Hq. apply negb_true_iff in Hq.
  destruct (Qeq_bool q 0) eqn:E; [|reflexivity].
  apply Qeq_bool_iff in E.
  assert (Hle : Qle_bool q 0 = true)
    by (apply Qle_bool_iff; rewrite E; apply Qle_refl).
  congruence.
Qed.

Lemma commissionExists_commissionsOf w leadId advertiserId :
  commissionExists w leadId advertiserId = false
  <-> commissionsOf w leadId advertiserId = [].
Proof.
  unfold commissionExists, commissionsOf.
  induction (commissions w) as [|c cs IH]; simpl; [tauto|].
  destruct (_ && _); simpl; [split; discriminate | exact IH].
Qed.


Lemma reconcile_leads lead advertiser payload signature nowMs w :
  leads (reconcile lead advertiser payload signature nowMs w)
  = map (fun l => if String.eqb (lead_id l) (lead_id lead)
                  then apply_patch (updateData lead payload nowMs) l else l)
      (leads w).
Proof.
  unfold reconcile.
  destruct (cb_payout payload) as [q|]; [|reflexivity].
  destruct (_ && _ && _); [|reflexivity].
  destruct (commissionExists _ _ _); reflexivity.
Qed.

Lemma reconcile_advertisers lead advertiser payload signature nowMs w :
  advertisers (reconcile lead advertiser payload signature nowMs w)
  = advertisers w.
Proof.
  unfold reconcile.
  destruct (cb_payout payload) as [q|]; [|reflexivity].
  destruct (_ && _ && _); [|reflexivity].
  destruct (commissionExists _ _ _); reflexivity.
Qed.

Lemma authenticate_rejection advertiser payload signature timestamp nowMs w :
  fst (authenticate advertiser payload signature timestamp nowMs w) <> Some Ok.
Proof.
  unfold authenticate.
  destruct (_ && _ && _); [|discriminate].
  destruct (negb _); [discriminate|].
  destruct (RedisHelper.checkReplayAttack _ _ _ _) as [[] r]; discriminate.
Qed.
End CallbackClaims.

Section ReplayCacheFacts.
Context `{Runtime}.
Import Callback Vocabulary.

(** After an acknowledged signed callback the pair of headers is in the
    replay cache until 300 seconds later. *)
Lemma acknowledged_pair_cached req t1 w w1 lead advertiser sig ts :
  handler req t1 w = (Ok, w1) ->
  findLeadByAzTxId w (default EmptyString (cb_az_tx_id (body req)))
  = Some lead ->
  leadAdvertiser w lead = Some advertiser ->
  truthy_str (endpointSecret advertiser) = true ->
  x_signature req = Some sig -> sig <> EmptyString ->
  x_signature_timestamp req = Some ts -> ts <> EmptyString ->
  redis w1 !! RedisHelper.replayKey ts sig
  = Some {| re_value := "1"; re_expiresAt := Some (t1 + 300000) |}.
Proof.
  intros Hrun Hlead Hadv Hsecret Hsig Hsne Hts Htne.
  apply handler_ok_inv in Hrun
    as (lead0 & adv0 & wa & _ & _ & Hlead0 & Hadv0 & Ea & ->).
  rewrite Hlead in Hlead0. injection Hlead0 as <-.
  rewrite Hadv in Hadv0. injection Hadv0 as <-.
  rewrite reconcile_redis. revert Ea. unfold authenticate.
  rewrite Hsecret, Hsig, Hts. cbn [truthy_str default].
  destruct (String.eqb_spec sig EmptyString); [contradiction|].
  destruct (String.eqb_spec ts EmptyString); [contradiction|].
  cbn [negb andb].
  destruct (negb (verifyHmacSignature _ _ _ _ _)); [discriminate|].
  unfold RedisHelper.checkReplayAttack.
  destruct (negb (RedisHelper.exists_ _ _ _)); [|discriminate].
  intros [= <-]. cbn [redis with_redis]. apply lookup_insert_eq.
Qed.

Lemma cached_pair_rejected advertiser payload sig ts t2 w expiry :
  truthy_str (endpointSecret advertiser) = true ->
  sig <> EmptyString -> ts <> EmptyString ->
  redis w !! RedisHelper.replayKey ts sig
  = Some {| re_value := "1"; re_expiresAt := Some expiry |} ->
  t2 < expiry ->
  exists rejection,
    fst (authenticate advertiser payload (Some sig) (Some ts) t2 w)
    = Some rejection.
Proof.
  intros Hsecret Hsne Htne Hkey Hlt. unfold authenticate.
  rewrite Hsecret. cbn [truthy_str default].
  destruct (String.eqb_spec sig EmptyString); [contradiction|].
  destruct (String.eqb_spec ts EmptyString); [contradiction|].
  cbn [negb andb].
  destruct (negb (verifyHmacSignature _ _ _ _ _)); [eauto|].
  unfold RedisHelper.checkReplayAttack, RedisHelper.exists_, id. cbv zeta.
  rewrite Hkey. cbn [RedisHelper.live re_expiresAt].
  replace (t2 <? expiry) with true by lia. cbn. eauto.
Qed.




End ReplayCacheFacts.

Section CommissionClaims.
Context `{Runtime}.
Import Callback Vocabulary.


End CommissionClaims.

Section CallbackRuns.
Import ForwardLead Callback Vocabulary Scenario.
Local Open Scope string_scope.

(** The scenario of the specification: a 201 from the advertiser leaves the
    lead [forwarded] with advertiser X and one attempt row with status
    code 201. *)
Example forwarded_on_201 :
  map (fun l => (status l, advertiserId l)) (leads forwardedWorld)
  = [(forwarded, Some "adv-X")]
  /\ map (fun row => (attemptNo row, fl_statusCode row))
       (forwardLogs forwardedWorld)
     = [(1, Some 201)].
Proof. vm_compute. split; reflexivity. Qed.

(** The scenario of the specification: a correctly signed approved callback
    with a payout of 25 leaves the lead [approved], the conversion time
    set, and one commission of 25. *)
Example approved_callback_reconciled :
  let run := handler signedCallback t0 forwardedWorld in
  fst run = Ok
  /\ map (fun l => (status l, ftdAt l)) (leads (snd run))
     = [(approved, Some t0)]
  /\ map amount (commissions (snd run)) = [25 # 1].
Proof. vm_compute. repeat split. Qed.

(** C1 as stated fails: a callback with a wrong signature is answered 401
    and a replayed one 400, and neither leaves a CallbackLog row. *)
Lemma rejected_callback_not_logged :
  let forged := handler forgedCallback t0 forwardedWorld in
  let first := handler signedCallback t0 forwardedWorld in
  let replayed := handler signedCallback (t0 + 1000) (snd first) in
  fst forged = ApiError 401 "INVALID_SIGNATURE" "Invalid HMAC signature"
  /\ callbackLogs (snd forged) = []
  /\ fst first = Ok
  /\ length (callbackLogs (snd first)) = 1%nat
  /\ fst replayed
     = ApiError 400 "REPLAY_ATTACK" "Request has been processed before"
  /\ callbackLogs (snd replayed) = callbackLogs (snd first).
Proof. vm_compute. repeat split. Qed.



Lemma unsigned_callback_skips_checks_witness :
  truthy_str (cb_az_tx_id (body unsignedCallback)) = true
  /\ truthy_str (cb_status (body unsignedCallback)) = true
  /\ findLeadByAzTxId forwardedWorld "tx-1" = Some forwardedLead
  /\ leadAdvertiser forwardedWorld forwardedLead = Some advertiserX
  /\ truthy_str (endpointSecret advertiserX) = true
  /\ x_signature unsignedCallback = None
  /\ fst (handler unsignedCallback t0 forwardedWorld) = Ok
  /\ redis (snd (handler unsignedCallback t0 forwardedWorld))
     = redis forwardedWorld.
Proof.
  assert (Hlead : findLeadByAzTxId forwardedWorld "tx-1" = Some forwardedLead)
    by (vm_compute; reflexivity).
  assert (Hadv : leadAdvertiser forwardedWorld forwardedLead
                 = Some advertiserX) by reflexivity.
  do 6 (split; [first [assumption | reflexivity]|]).
  exact (let P := unsigned_callback_skips_checks
                    unsignedCallback t0 forwardedWorld forwardedLead
                    advertiserX eq_refl eq_refl Hlead Hadv eq_refl
                    (or_introl eq_refl)
         in conj (f_equal fst (proj1 P)) (proj1 (proj2 P))).
Defined.
End CallbackRuns.

(** ** The forwarding worker *)

Section ForwardFacts.
Context `{Runtime}.
Import ForwardLead Vocabulary.

Lemma findLead_patched w0 w leadId patch lead :
  leads w = leads w0 ->
  findLead w0 leadId = Some lead ->
  findLead (lead_update leadId (apply_patch patch) w) leadId
  = Some (apply_patch patch lead).
Proof.
  intros Hleads Hfind. unfold findLead, lead_update. cbn [leads with_leads].
  rewrite Hleads, find_map.
  - unfold findLead in Hfind. rewrite Hfind. cbn [option_map].
    apply List.find_some in Hfind as [_ Heq]. now rewrite Heq.
  - intros l. now destruct (String.eqb (lead_id l) leadId) eqn:E.
Qed.

(** A delivery that is answered below 500 but not with a 2xx: the lead is
    marked [forward_failed], the error made for it is caught by the worker's
    own [catch] and classified a second time, as a server error, and is
    thrown to the queue; two rows are written for the one attempt. *)
Lemma client_error_run job nowMs response w lead mapping :
  findLead w (job_leadId job) = Some lead ->
  status lead = pending ->
  findMapping w lead = Some mapping ->
  resp_status response < 500 ->
  is2xx (resp_status response) = false ->
  let run := processForwardLead job nowMs (NetResponse response) w in
  let adv := adv_id (map_advertiser mapping) in
  (exists e, fst run = Threw e /\ response_status e = None)
  /\ (exists row1 row2,
        forwardLogs (snd run) = forwardLogs w ++ [row1; row2]
        /\ attemptNo row1 = attemptsMade job + 1
        /\ attemptNo row2 = attemptsMade job + 1
        /\ fl_statusCode row1 = Some (resp_status response)
        /\ fl_statusCode row2 = None)
  /\ forwardAttempts (snd run)
     = forwardAttempts w ++ [(adv, "client_error"); (adv, "server_error")]%string
  /\ (exists lead', findLead (snd run) (job_leadId job) = Some lead'
                    /\ status lead' = forward_failed).
Proof.
  intros Hlead Hpending Hmap Hlt H2xx run adv. unfold run, processForwardLead.
  rewrite Hlead, Hpending, Hmap. cbn [LeadStatus_eqb negb].
  unfold tryDeliver, axios_post.
  replace (resp_status response <? 500) with true by lia.
  unfold is2xx in H2xx. rewrite H2xx.
  unfold catchDeliver. cbn [response_status message].
  destruct (attemptsMade job >=? _); cbn [fst snd].
  - split; [eauto|]. split; [|split].
    + do 2 eexists. cbn. rewrite <- app_assoc. split; [reflexivity|]. auto.
    + cbn. now rewrite <- app_assoc.
    + eexists. split.
      * eapply (findLead_patched
                  (lead_update (job_leadId job) _ (with_forwardLogs _ w)));
          [reflexivity|].
        eapply findLead_patched; [reflexivity | exact Hlead].
      * reflexivity.
  - split; [eauto|]. split; [|split].
    + do 2 eexists. cbn. rewrite <- app_assoc. split; [reflexivity|]. auto.
    + cbn. now rewrite <- app_assoc.
    + eexists. split.
      * etransitivity;
          [|eapply (findLead_patched w (with_forwardLogs _ w));
            [reflexivity | exact Hlead]].
        reflexivity.
      * reflexivity.
Qed.

(** A job run for a lead that is no longer [pending] returns at once. *)
Lemma processed_lead_is_skipped job nowMs net w lead :
  findLead w (job_leadId job) = Some lead ->
  status lead <> pending ->
  processForwardLead job nowMs net w = (Returned tt, w).
Proof.
  intros Hlead Hst. unfold processForwardLead. rewrite Hlead.
  destruct (status lead); try reflexivity. now destruct Hst.
Qed.

(** The forward log rows of one delivery: one for a 2xx, one for a
    transport failure or a status of 500 and more, two for any other
    answer. *)
Lemma delivery_log_rows job nowMs net w lead mapping :
  findLead w (job_leadId job) = Some lead ->
  status lead = pending ->
  findMapping w lead = Some mapping ->
  length (forwardLogs (snd (processForwardLead job nowMs net w)))
  = (length (forwardLogs w) + rowsWritten net)%nat.
Proof.
  intros Hlead Hpending Hmap. unfold processForwardLead.
  rewrite Hlead, Hpending, Hmap. cbn [LeadStatus_eqb negb].
  unfold tryDeliver, axios_post, rowsWritten, is2xx.
  destruct net as [response|msg].
  - destruct (resp_status response <? 500).
    + destruct ((200 <=? resp_status response) && (resp_status response <? 300)).
      * cbn. now rewrite length_app.
      * unfold catchDeliver. cbn [response_status].
        destruct (attemptsMade job >=? _); cbn;
          rewrite !length_app; cbn; lia.
    + unfold catchDeliver. cbn [response_status].
      destruct (negb _ && _); [|destruct (attemptsMade job >=? _)]; cbn;
        rewrite !length_app; cbn; lia.
  - unfold catchDeliver. cbn [response_status].
    destruct (attemptsMade job >=? _); cbn; rewrite !length_app; cbn; lia.
Qed.
End ForwardFacts.

Section ForwardRuns.
Import ForwardLead Vocabulary Scenario.
Local Open Scope string_scope.

(** C2 (code defect).  The advertiser answers the first delivery with 404.
    The lead becomes [forward_failed], but the worker ends by throwing: the
    error made for the 4xx is caught by the worker's own [catch], counted
    as a server error after having been counted as a client error, and
    thrown again to the queue, which is how a retry is asked for.  Only the
    [pending] guard keeps the run the queue schedules next from delivering
    again. *)
Theorem client_error_signals_retry :
  let run := processForwardLead job1 t0 (respond 404) (world []) in
  match fst run with
  | Threw e =>
      String.prefix "Advertiser returned 404" (message e) = true
      /\ response_status e = None
  | Returned _ => False
  end
  /\ map status (leads (snd run)) = [forward_failed]
  /\ forwardAttempts (snd run)
     = [("adv-X", "client_error"); ("adv-X", "server_error")]
  /\ processForwardLead job1_retry (t0 + 1000) (respond 201) (snd run)
     = (Returned tt, snd run).
Proof. vm_compute. repeat split. Qed.

(** C8 (code defect).  For the one delivery that the advertiser answers
    with 404, two forward log rows are written, both with attempt number 1:
    the row with the response, and a second row, with the error message and
    no status code, from the [catch] that takes the worker's own error. *)
Theorem client_error_logged_twice :
  let run := processForwardLead job1 t0 (respond 404) (world []) in
  map (fun row => (attemptNo row, fl_statusCode row)) (forwardLogs (snd run))
  = [(1, Some 404); (1, None)].
Proof. vm_compute. reflexivity. Qed.

(** A 2xx and a transport failure each leave one row. *)
Example one_row_otherwise :
  length (forwardLogs (snd (processForwardLead job1 t0 (respond 201)
                              (world [])))) = 1%nat
  /\ length (forwardLogs
               (snd (processForwardLead job1 t0 (NetFailure "timeout of 30000ms exceeded")
                       (world [])))) = 1%nat
  /\ length (forwardLogs (snd (processForwardLead job1 t0 (respond 503)
                                 (world [])))) = 1%nat.
Proof. vm_compute. repeat split. Qed.
End ForwardRuns.

(* ===================================================================== *)
(** * Part III.  Further properties of the code                           *)
(* ===================================================================== *)

(** ** Decimal strings *)

Ltac eval_digit :=
  match goal with
  | |- context [digit ?c] =>
      let v := eval vm_compute in (digit c) in
      change (digit c) with v
  end.

Section DecimalFacts.
Import NilEmpty.

Lemma digits_acc (d : Decimal.uint) : forall p : positive,
  digits (Some (Z.pos p)) (string_of_uint d)
  = Some (Z.pos (Pos.of_uint_acc d p)).
Proof.
  induction d; intros p; cbn [string_of_uint Pos.of_uint_acc];
    try reflexivity;
    cbn [digits]; eval_digit; cbv iota; rewrite <- IHd; do 2 f_equal;
    cbn [default]; unfold id; lia.
Qed.

Lemma digits_zero (d : Decimal.uint) :
  digits (Some 0) (string_of_uint d) = Some (Z.of_N (Pos.of_uint d)).
Proof.
  induction d; cbn [string_of_uint Pos.of_uint]; try reflexivity;
    cbn [digits]; eval_digit; cbv iota; cbn [default]; unfold id;
    first [exact IHd | apply (digits_acc d)].
Qed.

Lemma digits_none (d : Decimal.uint) :
  d <> Decimal.Nil ->
  digits None (string_of_uint d) = Some (Z.of_N (Pos.of_uint d)).
Proof.
  destruct d; intros Hd; try (now destruct Hd);
    cbn [string_of_uint Pos.of_uint]; cbn [digits]; eval_digit; cbv iota;
    cbn [default]; unfold id;
    first [apply digits_zero | apply (digits_acc d)].
Qed.

Lemma parseInt_unsigned (d : Decimal.uint) :
  d <> Decimal.Nil ->
  parseInt (string_of_uint d) = digits None (string_of_uint d).
Proof. destruct d; intros Hd; try (now destruct Hd); reflexivity. Qed.

(** A number written with [toString] is read back by [parseInt]. *)
Lemma parseInt_Z_toString (z : Z) : parseInt (Z_toString z) = Some z.
Proof.
  unfold Z_toString. destruct z as [|p|p]; [reflexivity| |].
  - cbn [Z.to_int NilZero.string_of_int].
    pose proof (DecimalPos.Unsigned.to_uint_nonnil p) as Hnn.
    replace (NilZero.string_of_uint (Pos.to_uint p))
      with (string_of_uint (Pos.to_uint p))
      by (now destruct (Pos.to_uint p)).
    rewrite parseInt_unsigned, digits_none by exact Hnn.
    now rewrite DecimalPos.Unsigned.of_to.
  - cbn [Z.to_int NilZero.string_of_int].
    pose proof (DecimalPos.Unsigned.to_uint_nonnil p) as Hnn.
    replace (NilZero.string_of_uint (Pos.to_uint p))
      with (string_of_uint (Pos.to_uint p))
      by (now destruct (Pos.to_uint p)).
    change (parseInt (String "-" (string_of_uint (Pos.to_uint p))))
      with (Z.opp <$> digits None (string_of_uint (Pos.to_uint p))).
    rewrite digits_none by exact Hnn.
    now rewrite DecimalPos.Unsigned.of_to.
Qed.
End DecimalFacts.

(** ** More on signatures *)

Section SignatureMore.
Context `{Runtime}.
Import ForwardLead Callback.

Lemma verifyHmacSignature_complete nowMs secret timestamp body signature
    hash rest :
  match parseInt timestamp with
  | Some t => Z.abs (nowMs / 1000 - t) <= 300
  | None => True
  end ->
  split "=" signature = hmacAlgo :: hash :: rest ->
  Buffer.fromHex hash = hmacDigest secret (timestamp +:+ ":" +:+ body) ->
  verifyHmacSignature nowMs secret timestamp body signature = true.
Proof.
  intros Hwin Hsplit Hhash.
  unfold verifyHmacSignature, verifyHmacSignature_try.
  rewrite Hsplit, String.eqb_refl, fromHex_toHex, Hhash. cbn [negb].
  unfold timingSafeEqual. rewrite Nat.eqb_refl, bytes_eqb_refl.
  destruct (parseInt timestamp) as [t|]; [|reflexivity].
  now replace (Z.abs (nowMs / 1000 - t) >? 300) with false by lia.
Qed.

(** X1.  [verifyHmacSignature] answers true exactly when the timestamp, if
    [parseInt] reads a number from it, is within 300 seconds of now, the
    text before the first [=] of the signature is the configured algorithm,
    and the text up to the next [=] hex-decodes to the HMAC of
    [timestamp:body]. *)
Theorem verifyHmacSignature_exact (nowMs : Z)
    (secret timestamp body signature : string) :
  verifyHmacSignature nowMs secret timestamp body signature = true
  <-> match parseInt timestamp with
      | Some t => Z.abs (nowMs / 1000 - t) <= 300
      | None => True
      end
      /\ exists hash rest,
           split "=" signature = hmacAlgo :: hash :: rest
           /\ Buffer.fromHex hash
              = hmacDigest secret (timestamp +:+ ":" +:+ body).
Proof.
  split.
  - apply verifyHmacSignature_accepts.
  - intros (Hwin & hash & rest & Hsplit & Hhash).
    now apply (verifyHmacSignature_complete _ _ _ _ _ hash rest).
Qed.

(** X2.  A timestamp that reads as a number more than 300 seconds away
    from now, in the past or in the future, is refused whatever the
    signature, the correct one included. *)
Theorem stale_timestamp_rejected (nowMs : Z)
    (secret timestamp body signature : string) (t : Z) :
  parseInt timestamp = Some t ->
  300 < Z.abs (nowMs / 1000 - t) ->
  verifyHmacSignature nowMs secret timestamp body signature = false.
Proof.
  intros Hts Hfar.
  destruct (verifyHmacSignature nowMs secret timestamp body signature) eqn:E;
    [|reflexivity].
  apply verifyHmacSignature_accepts in E as [Hwin _].
  rewrite Hts in Hwin. lia.
Qed.

(** X3.  The window is checked on numbers only: for a timestamp from which
    [parseInt] reads no number, the comparison with NaN is false, so a
    signature made for that timestamp verifies at every instant. *)
Theorem unreadable_timestamp_skips_window (nowMs : Z)
    (secret timestamp body : string) :
  parseInt timestamp = None ->
  free_of "=" hmacAlgo ->
  verifyHmacSignature nowMs secret timestamp body
    (hmacAlgo +:+ "=" +:+ createHmacSignature secret timestamp body) = true.
Proof.
  intros Hts Halgo.
  apply (verifyHmacSignature_complete _ _ _ _ _
           (createHmacSignature secret timestamp body) []).
  - now rewrite Hts.
  - now apply signature_header_split.
  - apply fromHex_toHex.
Qed.

(** X4.  What the forwarder sends can be checked by the verifier of the
    callback route: for an advertiser with a secret, the request carries
    the two signature headers, and they verify against the serialized body
    at any instant within 300 seconds of the sending. *)
Theorem forwarded_request_verifies (advertiser : Advertiser) (secret : string)
    (nowMs laterMs : Z) (body : JsObject) :
  endpointSecret advertiser = Some secret ->
  secret <> EmptyString ->
  free_of "=" hmacAlgo ->
  Z.abs (laterMs / 1000 - nowMs / 1000) <= 300 ->
  exists signature timestamp,
    requestHeaders advertiser nowMs body
    = [ ("Content-Type", "application/json"); ("User-Agent", "AZLeads/1.0");
        ("X-Signature", signature); ("X-Signature-Timestamp", timestamp)
      ]%string
    /\ verifyHmacSignature laterMs secret timestamp
         (JSON_stringify (JObj body)) signature = true.
Proof.
  intros Hsecret Hne Halgo Hwin. unfold requestHeaders.
  rewrite Hsecret. cbn [truthy_str default].
  destruct (String.eqb_spec secret EmptyString) as [->|_]; [now destruct Hne|].
  cbn [negb app]. do 2 eexists. split; [reflexivity|].
  apply (verifyHmacSignature_complete _ _ _ _ _
           (createHmacSignature secret (Z_toString (nowMs / 1000))
              (JSON_stringify (JObj body))) []).
  - now rewrite parseInt_Z_toString.
  - now apply signature_header_split.
  - apply fromHex_toHex.
Qed.
End SignatureMore.

Section SignatureMoreRuns.
Import ForwardLead Callback Scenario.
Local Open Scope string_scope.

Lemma stale_timestamp_rejected_witness :
  parseInt "1699999000" = Some 1699999000
  /\ 300 < Z.abs (t0 / 1000 - 1699999000)
  /\ verifyHmacSignature t0 "s1" "1699999000" "{}"
       (hmacAlgo +:+ "=" +:+ createHmacSignature "s1" "1699999000" "{}")
     = false.
Proof.
  assert (Hts : parseInt "1699999000" = Some 1699999000) by reflexivity.
  assert (Hfar : 300 < Z.abs (t0 / 1000 - 1699999000)) by reflexivity.
  do 2 (split; [assumption|]).
  exact (stale_timestamp_rejected t0 "s1" "1699999000" "{}" _ 1699999000
           Hts Hfar).
Defined.

Lemma unreadable_timestamp_skips_window_witness :
  parseInt "soon" = None
  /\ free_of "=" hmacAlgo
  /\ verifyHmacSignature t0 "s1" "soon" "{}"
       (hmacAlgo +:+ "=" +:+ createHmacSignature "s1" "soon" "{}") = true.
Proof.
  assert (Hts : parseInt "soon" = None) by reflexivity.
  assert (Halgo : free_of "=" hmacAlgo) by (vm_compute; repeat split).
  do 2 (split; [assumption|]).
  exact (unreadable_timestamp_skips_window t0 "s1" "soon" "{}" Hts Halgo).
Defined.

Lemma forwarded_request_verifies_witness :
  endpointSecret advertiserX = Some "s1"
  /\ free_of "=" hmacAlgo
  /\ Z.abs ((t0 + 120000) / 1000 - t0 / 1000) <= 300
  /\ exists signature timestamp,
       requestHeaders advertiserX t0 [("az_tx_id", JStr "tx-1")]
       = [ ("Content-Type", "application/json"); ("User-Agent", "AZLeads/1.0");
           ("X-Signature", signature); ("X-Signature-Timestamp", timestamp) ]
       /\ verifyHmacSignature (t0 + 120000) "s1" timestamp
            (JSON_stringify (JObj [("az_tx_id", JStr "tx-1")])) signature
          = true.
Proof.
  assert (Hne : "s1" <> EmptyString) by discriminate.
  assert (Halgo : free_of "=" hmacAlgo) by (vm_compute; repeat split).
  assert (Hwin : Z.abs ((t0 + 120000) / 1000 - t0 / 1000) <= 300)
    by (vm_compute; discriminate).
  split; [reflexivity|]. do 2 (split; [assumption|]).
  exact (forwarded_request_verifies advertiserX "s1" t0 (t0 + 120000)
           [("az_tx_id", JStr "tx-1")] eq_refl Hne Halgo Hwin).
Defined.
End SignatureMoreRuns.

(** ** More on the callback route *)

Ltac reconcile_cases :=
  unfold Callback.reconcile;
  destruct (cb_payout _) as [?q|]; [|reflexivity];
  destruct (_ && _ && _); [|reflexivity];
  destruct (Callback.commissionExists _ _ _); reflexivity.

Section CallbackMore.
Context `{Runtime}.
Import Callback Vocabulary.

Lemma with_redis_same (w : World) : with_redis (fun _ => redis w) w = w.
Proof. now destruct w. Qed.

Lemma authenticate_rejection_unchanged advertiser payload signature timestamp
    nowMs w rejection w' :
  authenticate advertiser payload signature timestamp nowMs w
  = (Some rejection, w') ->
  w' = w.
Proof.
  unfold authenticate.
  destruct (_ && _ && _); [|discriminate].
  destruct (negb _); [now intros [= _ <-]|].
  unfold RedisHelper.checkReplayAttack.
  destruct (negb (RedisHelper.exists_ _ _ _)); [discriminate|].
  intros [= _ <-]. apply with_redis_same.
Qed.

Lemma handler_rejection_world req nowMs w code kind msg w' :
  handler req nowMs w = (ApiError code kind msg, w') -> w' = w.
Proof.
  unfold handler.
  destruct (truthy_str (cb_az_tx_id (body req))); [|now intros [= _ _ _ <-]].
  destruct (truthy_str (cb_status (body req))); [|now intros [= _ _ _ <-]].
  cbn [negb].
  destruct (findLeadByAzTxId w _) as [lead|]; [|now intros [= _ _ _ <-]].
  destruct (leadAdvertiser w lead) as [advertiser|];
    [|now intros [= _ _ _ <-]].
  destruct (authenticate _ _ _ _ _ _) as [[rejection|] wa] eqn:Ea;
    [|discriminate].
  intros [= _ <-]. now apply authenticate_rejection_unchanged in Ea.
Qed.

(** X5.  A callback that is rejected, for whatever reason, changes
    nothing: no table and no key of the replay cache is written. *)
Theorem rejected_callback_changes_nothing (req : Request) (nowMs : Z)
    (w : World) :
  fst (handler req nowMs w) <> Ok -> snd (handler req nowMs w) = w.
Proof.
  destruct (handler req nowMs w) as [[|code kind msg] w'] eqn:E; cbn.
  - intros Hne. now destruct Hne.
  - intros _. now apply handler_rejection_world in E.
Qed.

(** X6.  An advertiser without a secret (none, or the empty string) is in
    unauthenticated mode: the signature headers are not looked at, so any
    signature, a wrong one too, is accepted, and the replay cache is left
    alone. *)
Theorem no_secret_accepts_any_signature (req : Request) (nowMs : Z) (w : World)
    (lead : Lead) (advertiser : Advertiser) :
  truthy_str (cb_az_tx_id (body req)) = true ->
  truthy_str (cb_status (body req)) = true ->
  findLeadByAzTxId w (default EmptyString (cb_az_tx_id (body req)))
  = Some lead ->
  leadAdvertiser w lead = Some advertiser ->
  truthy_str (endpointSecret advertiser) = false ->
  handler req nowMs w
  = (Ok, reconcile lead advertiser (body req) (x_signature req) nowMs w)
  /\ redis (snd (handler req nowMs w)) = redis w.
Proof.
  intros Haz Hst Hlead Hadv Hsecret.
  rewrite (handler_found req nowMs w lead advertiser) by assumption.
  rewrite authenticate_skipped by (left; exact Hsecret).
  split; [reflexivity | apply reconcile_redis].
Qed.

Lemma callbackStep_refl (l : Lead) : callbackStep l l.
Proof. unfold callbackStep. intuition. Qed.

Lemma updateData_step lead payload nowMs :
  callbackStep lead (apply_patch (updateData lead payload nowMs) lead).
Proof.
  unfold callbackStep, updateData. cbn.
  repeat (split; [reflexivity|]). split.
  - intros t Ht. rewrite Ht. cbn. now rewrite andb_false_r.
  - destruct (_ && _); [tauto|].
    destruct (String.eqb _ "rejected"); tauto.
Qed.

Lemma NoDup_key_inj {A : Type} (f : A -> string) (l : list A) (x y : A) :
  NoDup (map f l) -> x ∈ l -> y ∈ l -> f x = f y -> x = y.
Proof.
  induction l as [|a l IH]; intros Hnd Hx Hy Hf.
  - now apply elem_of_nil in Hx.
  - cbn in Hnd. apply NoDup_cons in Hnd as [Hnotin Hnd].
    apply elem_of_cons in Hx as [->|Hx]; apply elem_of_cons in Hy as [->|Hy];
      auto.
    + destruct Hnotin. rewrite Hf. now apply list_elem_of_fmap_2.
    + destruct Hnotin. rewrite <- Hf. now apply list_elem_of_fmap_2.
Qed.

Lemma Forall2_map_self {A : Type} (R : A -> A -> Prop) (g : A -> A)
    (l : list A) :
  (forall x, x ∈ l -> R x (g x)) -> Forall2 R l (map g l).
Proof.
  induction l as [|a l IH]; intros HR; cbn; constructor.
  - apply HR, elem_of_cons. now left.
  - apply IH. intros x Hx. apply HR, elem_of_cons. now right.
Qed.

Lemma findLeadByAzTxId_elem w az lead :
  findLeadByAzTxId w az = Some lead -> lead ∈ leads w /\ azTxId lead = az.
Proof.
  unfold findLeadByAzTxId. intros Hfind.
  apply List.find_some in Hfind as [Hin Heq].
  split; [now apply list_elem_of_In | now apply String.eqb_eq].
Qed.

(** X7.  With lead ids that are unique, a callback, acknowledged or not,
    treats every lead row as follows: identity, routing, contact fields and
    the advertiser response stay; a conversion time already set is never
    changed; and the status stays or becomes [approved] or [rejected], so
    that no callback moves a lead to [pending], [forwarded], [no_mapping]
    or [forward_failed]. *)
Theorem callback_lead_invariants (req : Request) (nowMs : Z) (w : World) :
  NoDup (map lead_id (leads w)) ->
  Forall2 callbackStep (leads w) (leads (snd (handler req nowMs w))).
Proof.
  intros Hnd.
  destruct (handler req nowMs w) as [[|code kind msg] w'] eqn:E.
  - apply handler_ok_inv in E
      as (lead & advertiser & wa & _ & _ & Hlead & _ & Ea & ->).
    pose proof (authenticate_tables advertiser (body req) (x_signature req)
                  (x_signature_timestamp req) nowMs w) as Ht.
    rewrite Ea in Ht. cbn [snd] in *. destruct Ht as (Hleads & _).
    rewrite reconcile_leads, Hleads.
    apply findLeadByAzTxId_elem in Hlead as [Hin _].
    apply Forall2_map_self. intros l Hl.
    destruct (String.eqb_spec (lead_id l) (lead_id lead)) as [Hid|_];
      [|apply callbackStep_refl].
    assert (l = lead) as -> by (eapply NoDup_key_inj; eauto).
    apply updateData_step.
  - apply handler_rejection_world in E as ->. cbn [snd].
    rewrite <- (map_id (leads w)) at 2.
    apply Forall2_map_self. intros l _. apply callbackStep_refl.
Qed.
Lemma find_azTxId_patched (ls : list Lead) az lead patch :
  List.find (fun l => String.eqb (azTxId l) az) ls = Some lead ->
  List.find (fun l => String.eqb (azTxId l) az)
    (map (fun l => if String.eqb (lead_id l) (lead_id lead)
                   then apply_patch patch l else l) ls)
  = Some (apply_patch patch lead).
Proof.
  intros Hfind. rewrite find_map.
  - rewrite Hfind. cbn [option_map]. now rewrite String.eqb_refl.
  - intros l. now destruct (String.eqb (lead_id l) (lead_id lead)).
Qed.

(** X8.  The lead of an acknowledged callback afterwards: the advertiser
    status is the status of the callback and the update time is now; the
    payout is replaced when the callback carries one; a first [approved]
    (no conversion time yet) sets the conversion time to now and the status
    to [approved]; [rejected] sets the status to [rejected], also on an
    approved lead; an [approved] for a lead that has a conversion time, and
    any other status, leave the status as it was. *)
Theorem lead_after_callback (req : Request) (nowMs : Z) (w w' : World)
    (lead : Lead) (st : string) :
  handler req nowMs w = (Ok, w') ->
  cb_status (body req) = Some st ->
  findLeadByAzTxId w (default EmptyString (cb_az_tx_id (body req)))
  = Some lead ->
  exists lead',
    findLeadByAzTxId w' (default EmptyString (cb_az_tx_id (body req)))
    = Some lead'
    /\ advertiserStatus lead' = Some st
    /\ updatedAt lead' = nowMs
    /\ payout lead'
       = match cb_payout (body req) with
         | Some q => Some q
         | None => payout lead
         end
    /\ ftdAt lead'
       = match ftdAt lead with
         | Some t => Some t
         | None => if String.eqb st "approved" then Some nowMs else None
         end
    /\ status lead'
       = match ftdAt lead with
         | None =>
             if String.eqb st "approved" then approved
             else if String.eqb st "rejected" then rejected
             else status lead
         | Some _ =>
             if String.eqb st "rejected" then rejected else status lead
         end.
Proof.
  intros Hrun Hst Hlead.
  apply handler_ok_inv in Hrun
    as (lead0 & advertiser & wa & _ & _ & Hlead0 & _ & Ea & ->).
  rewrite Hlead in Hlead0. injection Hlead0 as <-.
  pose proof (authenticate_tables advertiser (body req) (x_signature req)
                (x_signature_timestamp req) nowMs w) as Ht.
  rewrite Ea in Ht. cbn [snd] in Ht. destruct Ht as (Hleads & _).
  exists (apply_patch (updateData lead (body req) nowMs) lead). split.
  - unfold findLeadByAzTxId. rewrite reconcile_leads, Hleads.
    now apply find_azTxId_patched.
  - unfold updateData. rewrite Hst. cbn.
    destruct (ftdAt lead) as [t|], (String.eqb st "approved"),
      (String.eqb st "rejected"); cbn; auto 10.
Qed.

Lemma commissions_after_callback_aux (req : Request) (nowMs : Z) (w w' : World)
    (lead : Lead) (advertiser : Advertiser) :
  handler req nowMs w = (Ok, w') ->
  findLeadByAzTxId w (default EmptyString (cb_az_tx_id (body req)))
  = Some lead ->
  leadAdvertiser w lead = Some advertiser ->
  commissions w'
  = match payable (body req) with
    | Some q =>
        if commissionExists w (lead_id lead) (adv_id advertiser)
        then commissions w
        else commissions w ++ [commissionFor lead advertiser (body req) q]
    | None => commissions w
    end.
Proof.
  intros Hrun Hlead Hadv.
  apply handler_ok_inv in Hrun
    as (lead0 & adv0 & wa & _ & Hst & Hlead0 & Hadv0 & Ea & ->).
  rewrite Hlead in Hlead0. injection Hlead0 as <-.
  rewrite Hadv in Hadv0. injection Hadv0 as <-.
  pose proof (authenticate_tables advertiser (body req) (x_signature req)
                (x_signature_timestamp req) nowMs w) as Ht.
  rewrite Ea in Ht. cbn [snd] in Ht. destruct Ht as (_ & _ & _ & Hcoms).
  unfold payable, reconcile, commissionExists.
  destruct (cb_status (body req)) as [st|]; [|discriminate].
  destruct (cb_payout (body req)) as [q|]; [|exact Hcoms].
  change (default EmptyString (Some st)) with st.
  destruct (String.eqb st "approved"); [|exact Hcoms]. cbn [andb].
  destruct (Qpositive q) eqn:Hq;
    [|rewrite andb_false_r; exact Hcoms].
  rewrite (Qpositive_nonzero q Hq). cbn [negb andb].
  cbn [commissions lead_update with_leads with_callbackLogs].
  rewrite Hcoms.
  destruct (existsb _ (commissions w));
    cbn [commissions lead_update with_leads with_callbackLogs
         with_commissions]; now rewrite Hcoms.
Qed.

(** X9.  The commissions after an acknowledged callback: when the callback
    pays (status [approved], positive payout) and the lead has no
    commission with its advertiser yet, one commission is added at the end,
    for that lead, advertiser and affiliate, of the amount of the payout;
    in every other case the commissions are as they were. *)
Theorem commissions_after_callback (req : Request) (nowMs : Z) (w w' : World)
    (lead : Lead) (advertiser : Advertiser) :
  handler req nowMs w = (Ok, w') ->
  findLeadByAzTxId w (default EmptyString (cb_az_tx_id (body req)))
  = Some lead ->
  leadAdvertiser w lead = Some advertiser ->
  commissions w'
  = match payable (body req) with
    | Some q =>
        if commissionExists w (lead_id lead) (adv_id advertiser)
        then commissions w
        else commissions w ++ [commissionFor lead advertiser (body req) q]
    | None => commissions w
    end.
Proof. apply commissions_after_callback_aux. Qed.

Lemma filter_length_app_one {A : Type} (f : A -> bool) (l : list A) (c : A) :
  length (List.filter f (l ++ [c]))
  = (length (List.filter f l) + (if f c then 1 else 0))%nat.
Proof.
  rewrite List.filter_app, length_app. cbn. now destruct (f c).
Qed.

(** X10.  The route keeps the ledger invariant: if no (lead, advertiser)
    pair has more than one commission, the same holds after any callback. *)
Theorem commission_uniqueness_preserved (req : Request) (nowMs : Z)
    (w : World) :
  (forall l a, (length (commissionsOf w l a) <= 1)%nat) ->
  forall l a,
    (length (commissionsOf (snd (handler req nowMs w)) l a) <= 1)%nat.
Proof.
  intros Hinv l a.
  destruct (handler req nowMs w) as [[|code kind msg] w'] eqn:E.
  - pose proof E as Hinv'.
    apply handler_ok_inv in Hinv'
      as (lead & advertiser & wa & _ & _ & Hlead & Hadv & _ & _).
    cbn [snd]. unfold commissionsOf.
    rewrite (commissions_after_callback_aux req nowMs w w' lead advertiser)
      by assumption.
    destruct (payable (body req)) as [q|]; [|apply Hinv].
    destruct (commissionExists w (lead_id lead) (adv_id advertiser)) eqn:Ex;
      [apply Hinv|].
    rewrite filter_length_app_one. cbn [commissionFor com_leadId
      com_advertiserId].
    destruct (String.eqb_spec (lead_id lead) l) as [<-|];
      [|cbn [andb]; rewrite Nat.add_0_r; apply Hinv].
    destruct (String.eqb_spec (adv_id advertiser) a) as [<-|];
      [|cbn [andb]; rewrite Nat.add_0_r; apply Hinv].
    apply commissionExists_commissionsOf in Ex. unfold commissionsOf in Ex.
    now rewrite Ex.
  - apply handler_rejection_world in E as ->. apply Hinv.
Qed.
End CallbackMore.

Section CallbackReplay.
Context `{Runtime}.
Import Callback Vocabulary.

(** X11.  When every advertiser has a secret, the signature and timestamp
    headers of an acknowledged callback, both present and not empty, are
    good for one use: during the 300 seconds that follow, no request that
    presents the same two headers is acknowledged, whatever its body and
    whichever lead it names. *)
Theorem acknowledged_headers_not_reusable (req req2 : Request) (t1 t2 : Z)
    (w w1 : World) (sig ts : string) :
  Forall (fun a => truthy_str (endpointSecret a) = true) (advertisers w) ->
  handler req t1 w = (Ok, w1) ->
  x_signature req = Some sig -> sig <> EmptyString ->
  x_signature_timestamp req = Some ts -> ts <> EmptyString ->
  x_signature req2 = Some sig ->
  x_signature_timestamp req2 = Some ts ->
  t2 < t1 + 300000 ->
  fst (handler req2 t2 w1) <> Ok.
Proof.
  intros Hall Hrun Hsig Hsne Hts Htne Hsig2 Hts2 Hlt.
  assert (Hsecret : forall l a, leadAdvertiser w l = Some a ->
                               truthy_str (endpointSecret a) = true).
  { intros l a. unfold leadAdvertiser.
    destruct (advertiserId l); [|discriminate]. intros Hfind.
    apply List.find_some in Hfind as [Hin _].
    rewrite Forall_forall in Hall. now apply Hall, list_elem_of_In. }
  pose proof Hrun as Hinv.
  apply handler_ok_inv in Hinv
    as (lead & advertiser & wa & _ & _ & Hlead & Hadv & Ea & Hw1).
  pose proof (acknowledged_pair_cached req t1 w w1 lead advertiser sig ts
                Hrun Hlead Hadv (Hsecret _ _ Hadv) Hsig Hsne Hts Htne)
    as Hkey.
  assert (Hadvs : advertisers w1 = advertisers w).
  { rewrite Hw1, reconcile_advertisers.
    pose proof (authenticate_tables advertiser (body req) (x_signature req)
                  (x_signature_timestamp req) t1 w) as Ht.
    rewrite Ea in Ht. cbn [snd] in Ht. tauto. }
  unfold handler.
  destruct (truthy_str (cb_az_tx_id (body req2))); [|cbn; congruence].
  destruct (truthy_str (cb_status (body req2))); [|cbn; congruence].
  cbn [negb].
  destruct (findLeadByAzTxId w1 _) as [lead2|]; [|cbn; congruence].
  destruct (leadAdvertiser w1 lead2) as [adv2|] eqn:Eadv2;
    [|cbn; congruence].
  assert (Hs2 : truthy_str (endpointSecret adv2) = true).
  { apply (Hsecret lead2). revert Eadv2. unfold leadAdvertiser.
    now rewrite Hadvs. }
  rewrite Hsig2, Hts2.
  pose proof (authenticate_rejection adv2 (body req2) (Some sig) (Some ts)
                t2 w1) as Hnot.
  destruct (cached_pair_rejected adv2 (body req2) sig ts t2 w1 _
              Hs2 Hsne Htne Hkey Hlt) as [rejection Hrej].
  destruct (authenticate adv2 (body req2) (Some sig) (Some ts) t2 w1)
    as [[r|] w2]; cbn [fst] in *; [|discriminate Hrej].
  intros ->. now apply Hnot.
Qed.

(** X30.  A signature or timestamp header that is present but empty
    counts as missing: also for an advertiser with a secret the callback
    is acknowledged without any check, and the replay cache is left
    alone, so that the same request is acknowledged each time it is
    sent. *)
Theorem empty_header_skips_checks (req : Request) (nowMs : Z) (w : World)
    (lead : Lead) (advertiser : Advertiser) :
  truthy_str (cb_az_tx_id (body req)) = true ->
  truthy_str (cb_status (body req)) = true ->
  findLeadByAzTxId w (default EmptyString (cb_az_tx_id (body req)))
  = Some lead ->
  leadAdvertiser w lead = Some advertiser ->
  x_signature req = Some EmptyString
  \/ x_signature_timestamp req = Some EmptyString ->
  handler req nowMs w
  = (Ok, reconcile lead advertiser (body req) (x_signature req) nowMs w)
  /\ redis (snd (handler req nowMs w)) = redis w.
Proof.
  intros Haz Hst Hlead Hadv Hempty.
  rewrite (handler_found req nowMs w lead advertiser) by assumption.
  assert (Hskip : authenticate advertiser (body req) (x_signature req)
                    (x_signature_timestamp req) nowMs w = (None, w)).
  { unfold authenticate. destruct Hempty as [-> | ->];
      cbn [truthy_str String.eqb negb]; rewrite ?andb_false_r; reflexivity. }
  rewrite Hskip. split; [reflexivity|]. apply reconcile_redis.
Qed.
End CallbackReplay.

Section CallbackFrame.
Context `{Runtime}.
Import Callback Vocabulary.

(** X12.  The route reads the routing and advertiser tables and the forward
    log but never writes them; the callback log and the commissions only
    grow at the end. *)
Theorem callback_frame (req : Request) (nowMs : Z) (w : World) :
  let w' := snd (handler req nowMs w) in
  advertisers w' = advertisers w /\ mappings w' = mappings w
  /\ fieldMappings w' = fieldMappings w /\ forwardLogs w' = forwardLogs w
  /\ forwardAttempts w' = forwardAttempts w
  /\ (exists rows, callbackLogs w' = callbackLogs w ++ rows)
  /\ (exists added, commissions w' = commissions w ++ added).
Proof.
  destruct (handler req nowMs w) as [[|code kind msg] w'] eqn:E; cbn [snd].
  - apply handler_ok_inv in E
      as (lead & advertiser & wa & _ & _ & _ & _ & Ea & ->).
    assert (Hwa : wa = with_redis (fun _ => redis wa) w).
    { revert Ea. unfold authenticate.
      destruct (_ && _ && _); [|intros [= <-]; now rewrite with_redis_same].
      destruct (negb _); [discriminate|].
      destruct (RedisHelper.checkReplayAttack _ _ _ _) as [[] r];
        [discriminate|]. now intros [= <-]. }
    rewrite Hwa. unfold reconcile.
    destruct (cb_payout (body req)) as [q|];
      [destruct (_ && _ && _);
       [destruct (commissionExists _ _ _)|]|];
      cbn; repeat (split; [reflexivity|]);
      (split; [eexists; reflexivity|]);
      first [ now exists [] ; rewrite app_nil_r | eexists; reflexivity ].
  - apply handler_rejection_world in E as ->.
    repeat (split; [reflexivity|]).
    split; exists []; now rewrite app_nil_r.
Qed.
End CallbackFrame.

Section CallbackMoreRuns.
Import ForwardLead Callback Vocabulary Scenario.
Local Open Scope string_scope.

Lemma no_secret_accepts_any_signature_witness :
  let open := withoutSecrets forwardedWorld in
  let advertiser :=
    {| adv_id := "adv-X"; endpointUrl := "https://x.example/leads";
       endpointSecret := None |} in
  findLeadByAzTxId open "tx-1" = Some forwardedLead
  /\ leadAdvertiser open forwardedLead = Some advertiser
  /\ x_signature forgedCallback = Some "sha256=00"
  /\ fst (handler forgedCallback t0 open) = Ok
  /\ redis (snd (handler forgedCallback t0 open)) = redis open.
Proof.
  intros open advertiser.
  assert (Hlead : findLeadByAzTxId open "tx-1" = Some forwardedLead)
    by (vm_compute; reflexivity).
  assert (Hadv : leadAdvertiser open forwardedLead = Some advertiser)
    by reflexivity.
  do 2 (split; [assumption|]). split; [reflexivity|].
  exact (let P := no_secret_accepts_any_signature
                    forgedCallback t0 open forwardedLead advertiser
                    eq_refl eq_refl Hlead Hadv eq_refl
         in conj (f_equal fst (proj1 P)) (proj2 P)).
Defined.

Lemma callback_lead_invariants_witness :
  NoDup (map lead_id (leads forwardedWorld))
  /\ Forall2 callbackStep (leads forwardedWorld)
       (leads (snd (handler signedCallback t0 forwardedWorld))).
Proof.
  assert (Hnd : NoDup (map lead_id (leads forwardedWorld)))
    by (vm_compute; apply NoDup_singleton).
  split; [exact Hnd|].
  exact (callback_lead_invariants signedCallback t0 forwardedWorld Hnd).
Defined.

Lemma lead_after_callback_witness :
  handler unsignedCallback t0 forwardedWorld
  = (Ok, snd (handler unsignedCallback t0 forwardedWorld))
  /\ findLeadByAzTxId forwardedWorld "tx-1" = Some forwardedLead
  /\ exists lead',
       findLeadByAzTxId (snd (handler unsignedCallback t0 forwardedWorld))
         "tx-1" = Some lead'
       /\ status lead' = approved /\ ftdAt lead' = Some t0
       /\ payout lead' = Some (25 # 1).
Proof.
  assert (Hrun : handler unsignedCallback t0 forwardedWorld
                 = (Ok, snd (handler unsignedCallback t0 forwardedWorld)))
    by (vm_compute; reflexivity).
  assert (Hlead : findLeadByAzTxId forwardedWorld "tx-1" = Some forwardedLead)
    by (vm_compute; reflexivity).
  do 2 (split; [assumption|]).
  destruct (lead_after_callback unsignedCallback t0 forwardedWorld _
              forwardedLead "approved" Hrun eq_refl Hlead)
    as (lead' & Hfind & _ & _ & Hpay & Hftd & Hst).
  exists lead'. auto.
Defined.

Lemma commissions_after_callback_witness :
  handler unsignedCallback t0 forwardedWorld
  = (Ok, snd (handler unsignedCallback t0 forwardedWorld))
  /\ findLeadByAzTxId forwardedWorld "tx-1" = Some forwardedLead
  /\ leadAdvertiser forwardedWorld forwardedLead = Some advertiserX
  /\ commissions (snd (handler unsignedCallback t0 forwardedWorld))
     = [commissionFor forwardedLead advertiserX approvedPayload (25 # 1)].
Proof.
  assert (Hrun : handler unsignedCallback t0 forwardedWorld
                 = (Ok, snd (handler unsignedCallback t0 forwardedWorld)))
    by (vm_compute; reflexivity).
  assert (Hlead : findLeadByAzTxId forwardedWorld "tx-1" = Some forwardedLead)
    by (vm_compute; reflexivity).
  assert (Hadv : leadAdvertiser forwardedWorld forwardedLead
                 = Some advertiserX) by reflexivity.
  do 3 (split; [assumption|]).
  exact (commissions_after_callback unsignedCallback t0 forwardedWorld _
           forwardedLead advertiserX Hrun Hlead Hadv).
Defined.

Lemma commission_uniqueness_preserved_witness :
  (forall l a, (length (commissionsOf forwardedWorld l a) <= 1)%nat)
  /\ (length (commissionsOf (snd (handler signedCallback t0 forwardedWorld))
               "lead-1" "adv-X") <= 1)%nat.
Proof.
  assert (Hinv : forall l a,
             (length (commissionsOf forwardedWorld l a) <= 1)%nat).
  { intros l a. unfold commissionsOf.
    change (commissions forwardedWorld) with (@nil Commission). cbn. lia. }
  split; [exact Hinv|].
  exact (commission_uniqueness_preserved signedCallback t0 forwardedWorld
           Hinv "lead-1" "adv-X").
Defined.

Lemma acknowledged_headers_not_reusable_witness :
  Forall (fun a => truthy_str (endpointSecret a) = true)
    (advertisers forwardedWorld)
  /\ fst (handler signedCallback t0 forwardedWorld) = Ok
  /\ fst (handler signedCallback (t0 + 299999)
            (snd (handler signedCallback t0 forwardedWorld))) <> Ok.
Proof.
  assert (Hall : Forall (fun a => truthy_str (endpointSecret a) = true)
                   (advertisers forwardedWorld)).
  { apply Forall_cons. split; [reflexivity | apply Forall_nil; exact I]. }
  assert (Hrun : handler signedCallback t0 forwardedWorld
                 = (Ok, snd (handler signedCallback t0 forwardedWorld)))
    by (vm_compute; reflexivity).
  split; [exact Hall|]. split; [now rewrite Hrun|].
  refine (acknowledged_headers_not_reusable signedCallback signedCallback
            t0 (t0 + 299999) forwardedWorld _ _ _ Hall Hrun eq_refl _
            eq_refl _ eq_refl eq_refl _); [discriminate | discriminate | lia].
Defined.
End CallbackMoreRuns.

(** ** More on the forwarding worker *)

Section ForwardMore.
Context `{Runtime}.
Import ForwardLead Vocabulary.

(** The worker from the delivery on, for a pending lead with a mapping. *)
Lemma processForwardLead_delivery job nowMs net w lead mapping :
  findLead w (job_leadId job) = Some lead ->
  status lead = pending ->
  findMapping w lead = Some mapping ->
  processForwardLead job nowMs net w
  = match tryDeliver (job_leadId job) (map_advertiser mapping)
            (requestFor w lead mapping nowMs) (attemptsMade job + 1) nowMs
            net w with
    | (Returned _, w') => (Returned tt, w')
    | (Threw error, w') =>
        catchDeliver job (map_advertiser mapping)
          (requestFor w lead mapping nowMs) (attemptsMade job + 1) nowMs
          error w'
    end.
Proof.
  intros Hlead Hpending Hmap. unfold processForwardLead.
  rewrite Hlead, Hpending, Hmap. cbn [LeadStatus_eqb negb].
  unfold requestFor, endpointOf.
  destruct (tryDeliver _ _ _ _ _ _ _) as [[[]|e] w']; reflexivity.
Qed.

(** X13.  A pending lead without an enabled mapping is not delivered,
    whatever the endpoint would do: the run returns normally, writes no
    forward log row, marks the lead [no_mapping] and leaves its advertiser
    as it was. *)
Theorem forward_without_mapping (job : Job) (nowMs : Z) (net : NetResult)
    (w : World) (lead : Lead) :
  findLead w (job_leadId job) = Some lead ->
  status lead = pending ->
  findMapping w lead = None ->
  let run := processForwardLead job nowMs net w in
  fst run = Returned tt
  /\ forwardLogs (snd run) = forwardLogs w
  /\ forwardAttempts (snd run)
     = forwardAttempts w ++ [("no_mapping", "no_mapping")]%string
  /\ exists lead',
       findLead (snd run) (job_leadId job) = Some lead'
       /\ status lead' = no_mapping
       /\ advertiserId lead' = advertiserId lead.
Proof.
  intros Hlead Hpending Hmap run. unfold run, processForwardLead.
  rewrite Hlead, Hpending, Hmap. cbn [LeadStatus_eqb negb fst snd].
  repeat (split; [reflexivity|]).
  eexists. split.
  - etransitivity;
      [|eapply (findLead_patched w w); [reflexivity | exact Hlead]].
    reflexivity.
  - split; reflexivity.
Qed.

(** X14.  A 2xx answer: the run returns normally, one row is written with
    the response and its status code, and the lead is [forwarded] with the
    advertiser of the mapping, the body of the answer as advertiser
    response and the update time set. *)
Theorem forward_success (job : Job) (nowMs : Z) (response : AxiosResponse)
    (w : World) (lead : Lead) (mapping : Mapping) :
  findLead w (job_leadId job) = Some lead ->
  status lead = pending ->
  findMapping w lead = Some mapping ->
  is2xx (resp_status response) = true ->
  let run := processForwardLead job nowMs (NetResponse response) w in
  fst run = Returned tt
  /\ forwardLogs (snd run)
     = forwardLogs w ++
       [ {| fl_leadId := job_leadId job; attemptNo := attemptsMade job + 1;
            fl_request := requestFor w lead mapping nowMs;
            fl_response := ResponseData response;
            fl_statusCode := Some (resp_status response) |} ]
  /\ forwardAttempts (snd run)
     = forwardAttempts w ++ [(adv_id (map_advertiser mapping), "success")]%string
  /\ exists lead',
       findLead (snd run) (job_leadId job) = Some lead'
       /\ status lead' = forwarded
       /\ advertiserId lead' = Some (adv_id (map_advertiser mapping))
       /\ advertiserResponse lead' = Some (resp_data response)
       /\ updatedAt lead' = nowMs.
Proof.
  intros Hlead Hpending Hmap H2xx run. unfold run.
  rewrite (processForwardLead_delivery _ _ _ _ lead mapping) by assumption.
  unfold tryDeliver, axios_post. unfold is2xx in H2xx.
  apply andb_true_iff in H2xx as H2. destruct H2 as [_ Hlt].
  replace (resp_status response <? 500) with true by lia.
  rewrite H2xx. cbn [fst snd].
  repeat (split; [reflexivity|]).
  eexists. split.
  - etransitivity;
      [|eapply (findLead_patched w (with_forwardLogs _ w));
        [reflexivity | exact Hlead]].
    reflexivity.
  - repeat split; reflexivity.
Qed.

Lemma axios_post_transient net :
  isTransient net = true ->
  exists e, axios_post net = Threw e
            /\ match response_status e with
               | Some s => 500 <= s
               | None => True
               end.
Proof.
  unfold isTransient, axios_post. destruct net as [r|m].
  - intros Hs. replace (resp_status r <? 500) with false by lia.
    eexists. split; [reflexivity|]. cbn. lia.
  - intros _. eexists. split; [reflexivity | exact I].
Qed.

(** X15.  A delivery that fails in transit before the last attempt leaves
    every lead as it was, the job's lead still [pending]: the run throws
    the transport error, counts a server error and writes one row with the
    attempt number, so that the delivery the queue makes next is a fresh
    attempt. *)
Theorem transient_failure_keeps_pending (job : Job) (nowMs : Z)
    (net : NetResult) (w : World) (lead : Lead) (mapping : Mapping) :
  findLead w (job_leadId job) = Some lead ->
  status lead = pending ->
  findMapping w lead = Some mapping ->
  isTransient net = true ->
  attemptsMade job < attemptsAllowed job - 1 ->
  let run := processForwardLead job nowMs net w in
  (exists e, fst run = Threw e /\ axios_post net = Threw e)
  /\ leads (snd run) = leads w
  /\ (exists row,
        forwardLogs (snd run) = forwardLogs w ++ [row]
        /\ attemptNo row = attemptsMade job + 1
        /\ fl_request row = requestFor w lead mapping nowMs)
  /\ forwardAttempts (snd run)
     = forwardAttempts w
       ++ [(adv_id (map_advertiser mapping), "server_error")]%string.
Proof.
  intros Hlead Hpending Hmap Htr Hnotlast run. unfold run.
  rewrite (processForwardLead_delivery _ _ _ _ lead mapping) by assumption.
  destruct (axios_post_transient net Htr) as (e & He & Hstatus).
  unfold tryDeliver. rewrite He. unfold catchDeliver.
  assert (Hclass : match response_status e with
                   | Some s => negb (s =? 0) && (s <? 500)
                   | None => false
                   end = false).
  { destruct (response_status e) as [s|]; [|reflexivity].
    replace (s <? 500) with false by lia. apply andb_false_r. }
  rewrite Hclass. unfold attemptsAllowed in Hnotlast.
  replace (attemptsMade job >=? _) with false by lia.
  cbn [fst snd]. split; [eauto|]. split; [reflexivity|].
  split; [|reflexivity]. eexists. split; [reflexivity|]. auto.
Qed.

(** X16.  The same failure on the last attempt ([attemptsMade] at least
    [attempts - 1], with 3 for a job without [attempts]) also marks the
    lead [forward_failed] with the advertiser of the mapping. *)
Theorem transient_failure_on_last_attempt (job : Job) (nowMs : Z)
    (net : NetResult) (w : World) (lead : Lead) (mapping : Mapping) :
  findLead w (job_leadId job) = Some lead ->
  status lead = pending ->
  findMapping w lead = Some mapping ->
  isTransient net = true ->
  attemptsAllowed job - 1 <= attemptsMade job ->
  let run := processForwardLead job nowMs net w in
  (exists e, fst run = Threw e /\ axios_post net = Threw e)
  /\ (exists row,
        forwardLogs (snd run) = forwardLogs w ++ [row]
        /\ attemptNo row = attemptsMade job + 1)
  /\ exists lead',
       findLead (snd run) (job_leadId job) = Some lead'
       /\ status lead' = forward_failed
       /\ advertiserId lead' = Some (adv_id (map_advertiser mapping))
       /\ advertiserResponse lead' = advertiserResponse lead.
Proof.
  intros Hlead Hpending Hmap Htr Hlast run. unfold run.
  rewrite (processForwardLead_delivery _ _ _ _ lead mapping) by assumption.
  destruct (axios_post_transient net Htr) as (e & He & Hstatus).
  unfold tryDeliver. rewrite He. unfold catchDeliver.
  assert (Hclass : match response_status e with
                   | Some s => negb (s =? 0) && (s <? 500)
                   | None => false
                   end = false).
  { destruct (response_status e) as [s|]; [|reflexivity].
    replace (s <? 500) with false by lia. apply andb_false_r. }
  rewrite Hclass. unfold attemptsAllowed in Hlast.
  replace (attemptsMade job >=? _) with true by lia.
  cbn [fst snd]. split; [eauto|]. split.
  - eexists. split; [reflexivity|]. reflexivity.
  - eexists. split.
    + eapply (findLead_patched w); [reflexivity | exact Hlead].
    + repeat split; reflexivity.
Qed.

(** X17.  An answer below 500 ends the forwarding of the lead: after such
    a run, any further run for the same lead, whatever the job's attempt
    count and whatever the endpoint would do, returns at once and changes
    nothing. *)
Theorem answered_lead_is_not_redelivered (job job' : Job) (nowMs nowMs' : Z)
    (response : AxiosResponse) (net' : NetResult) (w : World) (lead : Lead)
    (mapping : Mapping) :
  findLead w (job_leadId job) = Some lead ->
  status lead = pending ->
  findMapping w lead = Some mapping ->
  resp_status response < 500 ->
  job_leadId job' = job_leadId job ->
  let w1 := snd (processForwardLead job nowMs (NetResponse response) w) in
  processForwardLead job' nowMs' net' w1 = (Returned tt, w1).
Proof.
  intros Hlead Hpending Hmap Hlt Hsame w1.
  assert (Hdone : exists lead', findLead w1 (job_leadId job') = Some lead'
                                /\ status lead' <> pending).
  { rewrite Hsame. unfold w1.
    destruct (is2xx (resp_status response)) eqn:E2.
    - rewrite (processForwardLead_delivery _ _ _ _ lead mapping)
        by assumption.
      unfold tryDeliver, axios_post, is2xx in *.
      replace (resp_status response <? 500) with true by lia.
      rewrite E2. cbn [fst snd]. eexists. split.
      + etransitivity;
          [|eapply (findLead_patched w (with_forwardLogs _ w));
            [reflexivity | exact Hlead]].
        reflexivity.
      + discriminate.
    - destruct (client_error_run job nowMs response w lead mapping
                  Hlead Hpending Hmap Hlt E2)
        as (_ & _ & _ & lead' & Hfind & Hst).
      exists lead'. split; [exact Hfind|]. rewrite Hst. discriminate. }
  destruct Hdone as (lead' & Hfind & Hst).
  now apply (processed_lead_is_skipped job' nowMs' net' w1 lead').
Qed.
End ForwardMore.

Section TransformerMore.
Context `{Runtime}.
Import ForwardLead Vocabulary.

Lemma copyStandard_get fields : forall p k,
  NoDup (map fst fields) ->
  obj_get (fold_left copyStandard fields p) k
  = match obj_get fields k with
    | Some v => if present (Some v) then Some v else obj_get p k
    | None => obj_get p k
    end.
Proof.
  induction fields as [|[k0 v0] fields IH]; intros p k Hnd; [reflexivity|].
  cbn [map fst] in Hnd. apply NoDup_cons in Hnd as [Hnotin Hnd].
  cbn [fold_left obj_get]. rewrite IH by exact Hnd.
  unfold copyStandard. cbn [fst snd].
  destruct (String.eqb_spec k0 k) as [->|Hne].
  - replace (obj_get fields k) with (@None JValue)
      by (symmetry; now apply obj_get_None_keys).
    destruct (present (Some v0)); [apply obj_get_set_eq | reflexivity].
  - destruct (present (Some v0)); [|reflexivity].
    now rewrite obj_get_set_ne.
Qed.

(** X18.  Without allow-listed rules the payload is the default mapping:
    under each of [email], [phone], [first_name], [last_name] and [country]
    the lead's value when it is not null, and nothing else. *)
Theorem default_payload (w : World) (lead : Lead) (advertiser : Advertiser)
    (k : string) :
  findFieldMappings w advertiser = [] ->
  obj_get (buildAnonymizedPayload w lead advertiser) k
  = match obj_get (standardFields lead) k with
    | None | Some JNull => None
    | Some v => Some v
    end.
Proof.
  intros Hnone. unfold buildAnonymizedPayload. rewrite Hnone.
  cbn [length Nat.ltb Nat.leb]. rewrite copyStandard_get.
  - destruct (obj_get (standardFields lead) k) as [[]|]; reflexivity.
  - cbn. repeat (apply NoDup_cons; split;
                 [rewrite ?elem_of_cons, elem_of_nil; intuition discriminate|]).
    apply NoDup_nil. exact I.
Qed.

Lemma prefix_append (p s : string) : String.prefix p (p +:+ s) = true.
Proof.
  induction p as [|a p IH]; [now destruct s|].
  change ((String a p +:+ s)%string) with (String a (p +:+ s)).
  cbn [String.prefix]. destruct (ascii_dec a a); [exact IH | congruence].
Qed.

Lemma cut_prefix (p s : string) :
  String.prefix p s = true ->
  cut p s = Some (EmptyString, drop (String.length p) s).
Proof. intros Hp. destruct s; cbn [cut]; now rewrite Hp. Qed.

Lemma cut_placeholder (pre post : string) :
  free_of "{" pre ->
  cut "{{value}}" (pre +:+ "{{value}}" +:+ post) = Some (pre, post).
Proof.
  induction pre as [|c pre IH]; intros Hfree.
  { change ((EmptyString +:+ "{{value}}" +:+ post)%string)
      with ("{{value}}" +:+ post)%string.
    rewrite cut_prefix by apply prefix_append. reflexivity. }
  destruct Hfree as [Hc Hfree].
  change ((String c pre +:+ "{{value}}" +:+ post)%string)
    with (String c (pre +:+ "{{value}}" +:+ post)).
  cbn [cut String.prefix].
  destruct (ascii_dec "{" c) as [<-|_]; [discriminate Hc|].
  now rewrite (IH Hfree).
Qed.

Lemma substitution_plain (matched before after s : string) :
  free_of "$" s -> substitution matched before after s = s.
Proof.
  induction s as [|c s IH]; intros Hfree; [reflexivity|].
  destruct Hfree as [Hc Hfree]. cbn [substitution]. rewrite Hc.
  now rewrite (IH Hfree).
Qed.

(** X19.  The [concat] transform with a template [pre{{value}}post]: for a
    value without [$] and a [pre] without an opening brace, the result is
    the value between [pre] and [post]. *)
Theorem concat_template (pre post s : string) :
  free_of "{" pre ->
  free_of "$" s ->
  applyTransform (JStr s)
    (Some {| ttype := "concat";
             template := Some (pre +:+ "{{value}}" +:+ post) |})
  = JStr (pre +:+ s +:+ post).
Proof.
  intros Hpre Hs. cbn [applyTransform ttype template].
  change (String.eqb "concat" "uppercase") with false.
  change (String.eqb "concat" "lowercase") with false.
  change (String.eqb "concat" "trim") with false.
  change (String.eqb "concat" "concat") with true. cbv iota.
  unfold replace. rewrite (cut_placeholder pre post Hpre).
  rewrite (substitution_plain _ _ _ _ Hs).
  destruct (String.eqb_spec (pre +:+ s +:+ post) EmptyString) as [E|];
    [|reflexivity].
  destruct pre; [|discriminate E]. destruct s; [|discriminate E].
  now rewrite E.
Qed.
End TransformerMore.

Section RetryFacts.
Context `{Runtime}.
Import ForwardLead Vocabulary.

Lemma findMapping_patched w w' lead patch :
  mappings w' = mappings w ->
  findMapping w' (apply_patch patch lead) = findMapping w lead.
Proof. intros Hm. unfold findMapping. now rewrite Hm. Qed.

(** X20.  [retryLead] on a lead that exists, with the queue set up: the
    lead is [pending] again whatever its status was, an approved lead
    included, with only the update time changed besides; and one job for
    the lead is added at the end of the queue, with no attempt made and 6
    attempts allowed. *)
Theorem retryLead_resets (notFound leadId : string) (nowMs : Z) (w : World)
    (jobs : list Job) (lead : Lead) :
  findLead w leadId = Some lead ->
  let '(outcome, w1, queue) :=
    retryLead notFound leadId nowMs w (Some jobs) in
  outcome = Returned tt
  /\ queue = Some (jobs ++ [ {| job_leadId := leadId; attemptsMade := 0;
                                opts_attempts := Some 6 |} ])
  /\ exists lead',
       findLead w1 leadId = Some lead'
       /\ status lead' = pending /\ updatedAt lead' = nowMs
       /\ ftdAt lead' = ftdAt lead /\ payout lead' = payout lead
       /\ advertiserId lead' = advertiserId lead
       /\ advertiserStatus lead' = advertiserStatus lead
       /\ advertiserResponse lead' = advertiserResponse lead.
Proof.
  intros Hlead. unfold retryLead. rewrite Hlead. cbn [addForwardLeadJob].
  repeat (split; [reflexivity|]).
  eexists. split.
  - eapply (findLead_patched w); [reflexivity | exact Hlead].
  - repeat split; reflexivity.
Qed.

(** X21.  [retryLead] while the queue is not set up: the call throws, but
    after the lead was updated; the lead is left [pending] and no job
    exists for it. *)
Theorem retryLead_without_queue (notFound leadId : string) (nowMs : Z)
    (w : World) (lead : Lead) :
  findLead w leadId = Some lead ->
  let '(outcome, w1, queue) := retryLead notFound leadId nowMs w None in
  (exists e, outcome = Threw e)
  /\ queue = None
  /\ exists lead', findLead w1 leadId = Some lead' /\ status lead' = pending.
Proof.
  intros Hlead. unfold retryLead. rewrite Hlead. cbn [addForwardLeadJob].
  split; [eauto|]. split; [reflexivity|].
  eexists. split.
  - eapply (findLead_patched w); [reflexivity | exact Hlead].
  - reflexivity.
Qed.

(** X22.  A manual retry delivers again and restarts the attempt count:
    for a lead with an enabled mapping, whatever its status, the job that
    [retryLead] adds is delivered, its row has attempt number 1, and a 2xx
    answer leaves the lead [forwarded]. *)
Theorem retry_then_forward (notFound leadId : string) (nowMs laterMs : Z)
    (w : World) (jobs : list Job) (lead : Lead) (mapping : Mapping)
    (response : AxiosResponse) :
  findLead w leadId = Some lead ->
  findMapping w lead = Some mapping ->
  is2xx (resp_status response) = true ->
  let '(_, w1, queue) := retryLead notFound leadId nowMs w (Some jobs) in
  exists job,
    queue = Some (jobs ++ [job])
    /\ let run := processForwardLead job laterMs (NetResponse response) w1 in
       fst run = Returned tt
       /\ (exists row,
             forwardLogs (snd run) = forwardLogs w ++ [row]
             /\ attemptNo row = 1
             /\ fl_statusCode row = Some (resp_status response))
       /\ exists lead',
            findLead (snd run) leadId = Some lead'
            /\ status lead' = forwarded.
Proof.
  intros Hlead Hmap H2xx. unfold retryLead. rewrite Hlead.
  cbn [addForwardLeadJob]. eexists. split; [reflexivity|].
  set (patch := {| p_status := Some pending; p_advertiserId := None;
                   p_advertiserResponse := None; p_advertiserStatus := None;
                   p_payout := None; p_ftdAt := None;
                   p_updatedAt := Some nowMs |}).
  set (w1 := lead_update leadId (apply_patch patch) w).
  assert (Hlead1 : findLead w1 leadId = Some (apply_patch patch lead))
    by (eapply (findLead_patched w); [reflexivity | exact Hlead]).
  assert (Hmap1 : findMapping w1 (apply_patch patch lead) = Some mapping)
    by (rewrite <- Hmap; now apply findMapping_patched).
  cbv zeta.
  rewrite (processForwardLead_delivery _ _ _ _ (apply_patch patch lead) mapping)
    by (cbn [job_leadId]; first [exact Hlead1 | exact Hmap1 | reflexivity]).
  unfold tryDeliver, axios_post. unfold is2xx in H2xx.
  apply andb_true_iff in H2xx as H2. destruct H2 as [_ Hlt].
  replace (resp_status response <? 500) with true by lia.
  rewrite H2xx. cbn [fst snd job_leadId attemptsMade].
  split; [reflexivity|]. split.
  - eexists. split; [reflexivity|]. split; reflexivity.
  - eexists. split.
    + eapply (findLead_patched w1); [reflexivity | exact Hlead1].
    + reflexivity.
Qed.
End RetryFacts.

Section RedisFacts.
Import RedisHelper Vocabulary.

(** X23.  [set] then [get]: with a TTL the value is read back until the
    TTL has passed and is gone from then on; a TTL of 0 is no TTL, the
    value stays; other keys are not touched, and [del] removes the key. *)
Theorem set_then_get (t0 t : Z) (key value : string) (ttl : Z)
    (r : gmap string RedisEntry) :
  0 <= ttl ->
  get t key (set t0 key value (Some ttl) r)
  = (if (ttl =? 0) || (t <? t0 + 1000 * ttl) then Some value else None)
  /\ get t key (set t0 key value None r) = Some value
  /\ (forall key', key' <> key ->
        get t key' (set t0 key value (Some ttl) r) = get t key' r)
  /\ get t key (del key (set t0 key value (Some ttl) r)) = None.
Proof.
  intros _. unfold get, set, del.
  repeat split.
  - destruct (ttl =? 0); rewrite lookup_insert_eq; [reflexivity|].
    cbn [live re_expiresAt re_value orb]. reflexivity.
  - now rewrite lookup_insert_eq.
  - intros key' Hne. destruct (ttl =? 0); now rewrite lookup_insert_ne.
  - now rewrite lookup_delete_eq.
Qed.

Lemma int_of_value_toString (k : Z) :
  - 2 ^ 63 <= k <= 2 ^ 63 - 1 -> int_of_value (Z_toString k) = Some k.
Proof.
  intros [Hlo Hhi]. unfold int_of_value.
  rewrite parseInt_Z_toString, String.eqb_refl.
  replace (- 2 ^ 63 <=? k) with true by lia.
  replace (k <=? 2 ^ 63 - 1) with true by lia. reflexivity.
Qed.

Lemma counting (key : string) (limit window expiry : Z) :
  forall (times : list Z) (k : Z) (r : gmap string RedisEntry),
  r !! key = Some {| re_value := Z_toString k; re_expiresAt := Some expiry |} ->
  1 <= k ->
  k + Z.of_nat (length times) <= 2 ^ 63 - 1 ->
  Forall (fun t => t < expiry) times ->
  rateChecks key limit window times r
  = expectedChecks limit (k + 1) (length times)
  /\ afterRateChecks key limit window times r !! key
     = Some {| re_value := Z_toString (k + Z.of_nat (length times));
               re_expiresAt := Some expiry |}.
Proof.
  induction times as [|t times IH]; intros k r Hr Hk Hmax Htimes.
  - cbn [rateChecks expectedChecks afterRateChecks length]. split; [reflexivity|].
    now rewrite Z.add_0_r.
  - apply Forall_cons in Htimes as [Ht Htimes].
    cbn [length] in Hmax |- *. rewrite Nat2Z.inj_succ in Hmax |- *.
    assert (Hstep : checkRateLimit t key limit window r
                    = (Returned (k + 1 <=? limit),
                       <[key := {| re_value := Z_toString (k + 1);
                                   re_expiresAt := Some expiry |}]> r)).
    { unfold checkRateLimit, incr. rewrite Hr.
      cbn [live re_expiresAt re_value].
      replace (t <? expiry) with true by lia.
      rewrite int_of_value_toString by lia.
      replace (k =? 2 ^ 63 - 1) with false by lia.
      replace (k + 1 =? 1) with false by lia. reflexivity. }
    cbn [rateChecks expectedChecks afterRateChecks]. rewrite Hstep. cbn [snd].
    destruct (IH (k + 1) (<[key := {| re_value := Z_toString (k + 1);
                                     re_expiresAt := Some expiry |}]> r))
      as [Hres Hstate]; [apply lookup_insert_eq | lia | lia | exact Htimes |].
    rewrite Hres, Hstate. split; [reflexivity|].
    do 3 f_equal. lia.
Qed.

(** X24.  The rate limit is a fixed window.  When a key is not there, or
    has expired, the check at [t0] opens a window of [window] seconds: the
    checks made before its end are numbered from 1 and check number [k]
    passes exactly when [k <= limit]; the window ends [window] seconds
    after the first check, however many checks follow, and then the key is
    gone. *)
Theorem fixed_window_counting (key : string) (limit window t0 : Z)
    (times : list Z) (r : gmap string RedisEntry) :
  exists_ t0 key r = false ->
  0 < window ->
  Forall (fun t => t < t0 + 1000 * window) times ->
  Z.of_nat (length times) < 2 ^ 63 - 2 ->
  rateChecks key limit window (t0 :: times) r
  = expectedChecks limit 1 (S (length times))
  /\ forall t,
       exists_ t key (afterRateChecks key limit window (t0 :: times) r)
       = (t <? t0 + 1000 * window).
Proof.
  intros Hgone Hwindow Htimes Hlen.
  assert (Hfirst : checkRateLimit t0 key limit window r
                   = (Returned (1 <=? limit),
                      <[key := {| re_value := Z_toString 1;
                                  re_expiresAt := Some (t0 + 1000 * window) |}]>
                        (<[key := {| re_value := Z_toString 1;
                                     re_expiresAt := None |}]> r))).
  { unfold checkRateLimit, incr. unfold exists_ in Hgone.
    assert (Hexp : expire t0 key window
                     (<[key := {| re_value := Z_toString 1;
                                  re_expiresAt := None |}]> r)
                   = <[key := {| re_value := Z_toString 1;
                                 re_expiresAt := Some (t0 + 1000 * window) |}]>
                       (<[key := {| re_value := Z_toString 1;
                                    re_expiresAt := None |}]> r)).
    { unfold expire. rewrite lookup_insert_eq. cbn [live re_expiresAt re_value].
      now replace (window <=? 0) with false by lia. }
    destruct (r !! key) as [e|]; [rewrite Hgone|];
      change (1 =? 1) with true; cbv iota; now rewrite <- Hexp. }
  cbn [rateChecks expectedChecks afterRateChecks]. rewrite Hfirst. cbn [snd].
  destruct (counting key limit window (t0 + 1000 * window) times 1
              (<[key := {| re_value := Z_toString 1;
                           re_expiresAt := Some (t0 + 1000 * window) |}]>
                 (<[key := {| re_value := Z_toString 1;
                              re_expiresAt := None |}]> r)))
    as [Hres Hstate]; [apply lookup_insert_eq | lia | lia | exact Htimes |].
  split.
  - now rewrite Hres.
  - intros t. unfold exists_. now rewrite Hstate.
Qed.

Lemma checkRateLimit_other (t : Z) (key key' : string) (limit window : Z)
    (r : gmap string RedisEntry) :
  key' <> key ->
  snd (checkRateLimit t key limit window r) !! key' = r !! key'.
Proof.
  intros Hne. unfold checkRateLimit, incr, expire.
  repeat case_match; simplify_eq; cbn [snd];
    rewrite ?lookup_insert_ne, ?lookup_delete_ne, ?lookup_insert_ne by done;
    done.
Qed.

Lemma checkRateLimit_local (t : Z) (key : string) (limit window : Z)
    (r1 r2 : gmap string RedisEntry) :
  r1 !! key = r2 !! key ->
  fst (checkRateLimit t key limit window r1)
  = fst (checkRateLimit t key limit window r2).
Proof.
  intros Heq. unfold checkRateLimit, incr. rewrite Heq.
  repeat case_match; simplify_eq; done.
Qed.

(** X25.  The global limiter counts each address on its own: what one
    address is answered does not depend on the requests of another. *)
Theorem rateLimiter_isolated (rateLimitGlobal : Z) (ip ip' : string)
    (t t' : Z) (r : gmap string RedisEntry) :
  ip' <> ip ->
  fst (RateLimit.rateLimiter rateLimitGlobal ip t
         (snd (RateLimit.rateLimiter rateLimitGlobal ip' t' r)))
  = fst (RateLimit.rateLimiter rateLimitGlobal ip t r).
Proof.
  intros Hne.
  assert (Hkey : ("rate_limit:" +:+ ip)%string <> ("rate_limit:" +:+ ip')%string).
  { intros E. cbv [String.append] in E. now simplify_eq. }
  assert (Hredis : snd (RateLimit.rateLimiter rateLimitGlobal ip' t' r)
                   = snd (checkRateLimit t' ("rate_limit:" +:+ ip')
                            rateLimitGlobal 60 r)).
  { unfold RateLimit.rateLimiter.
    destruct (checkRateLimit t' _ rateLimitGlobal 60 r) as [[[]|e] r'];
      reflexivity. }
  rewrite Hredis. unfold RateLimit.rateLimiter.
  pose proof (checkRateLimit_local t ("rate_limit:" +:+ ip) rateLimitGlobal 60
                (snd (checkRateLimit t' ("rate_limit:" +:+ ip')
                        rateLimitGlobal 60 r)) r
                (checkRateLimit_other t' _ _ rateLimitGlobal 60 r Hkey)) as Hl.
  destruct (checkRateLimit t ("rate_limit:" +:+ ip) rateLimitGlobal 60
              (snd (checkRateLimit t' ("rate_limit:" +:+ ip')
                      rateLimitGlobal 60 r))) as [o1 r1].
  destruct (checkRateLimit t ("rate_limit:" +:+ ip) rateLimitGlobal 60 r)
    as [o2 r2].
  cbn [fst] in Hl. subst o2. destruct o1 as [[]|e]; reflexivity.
Qed.
End RedisFacts.

Section EdgeFacts.
Context `{Runtime}.
Variable JSON_parse : string -> option JValue.
Variable nullDestructuringMessage : string.
Import ForwardLead Vocabulary.

Lemma find_filter_head {A : Type} (p : A -> bool) (l : list A) :
  List.find p l = head (List.filter p l).
Proof.
  induction l as [|x l IH]; [reflexivity|].
  cbn [List.find List.filter]. now destruct (p x).
Qed.

Lemma filter_lead_update (id : string) (patch : LeadPatch) (w : World) :
  List.filter (fun l => String.eqb (lead_id l) id)
    (leads (lead_update id (apply_patch patch) w))
  = map (apply_patch patch)
        (List.filter (fun l => String.eqb (lead_id l) id) (leads w)).
Proof.
  unfold lead_update. cbn [leads with_leads].
  induction (leads w) as [|l ls IH]; [reflexivity|].
  cbn [map List.filter].
  destruct (String.eqb (lead_id l) id) eqn:E.
  - cbn [apply_patch lead_id]. rewrite E. cbn [map]. now rewrite IH.
  - rewrite E. exact IH.
Qed.

Lemma filter_single_id (id : string) (w : World) (lead : Lead) :
  List.filter (fun l => String.eqb (lead_id l) id) (leads w) = [lead] ->
  lead_id lead = id /\ findLead w id = Some lead.
Proof.
  intros Hrows. split.
  - assert (Hin : List.In lead
                    (List.filter (fun l => String.eqb (lead_id l) id) (leads w)))
      by (rewrite Hrows; now left).
    apply List.filter_In in Hin as [_ Hid]. now apply String.eqb_eq.
  - unfold findLead. now rewrite find_filter_head, Hrows.
Qed.

Lemma serve_found (req : EdgeServe.Request) (props : JsObject) (id : string)
    (nowMs : Z) (net : EdgeServe.FetchResult) (w : World) (lead : Lead) :
  EdgeServe.method req <> "OPTIONS"%string ->
  EdgeServe.json req = Returned (JObj props) ->
  obj_get props "leadId" = Some (JStr id) ->
  id <> EmptyString ->
  List.filter (fun l => String.eqb (lead_id l) id) (leads w) = [lead] ->
  EdgeServe.serve JSON_parse nullDestructuringMessage req nowMs net w
  = EdgeServe.forward JSON_parse lead nowMs net w.
Proof.
  intros Hmethod Hjson Hid Hne Hrows. unfold EdgeServe.serve.
  apply String.eqb_neq in Hmethod. rewrite Hmethod, Hjson, Hid.
  cbn [truthy_opt truthy]. apply String.eqb_neq in Hne. rewrite Hne.
  cbn [negb]. now rewrite Hrows.
Qed.

(** X26.  The edge function delivers once and for all: for a pending lead
    with exactly one enabled mapping it answers 200, writes one row, with
    attempt number 1 and the status received, and leaves the lead
    [forwarded] after a 2xx and [forward_failed] after anything else, a
    5xx or a transport failure included; the lead never stays pending. *)
Theorem edge_delivery_is_final (req : EdgeServe.Request) (props : JsObject)
    (id : string) (nowMs : Z) (net : EdgeServe.FetchResult) (w : World)
    (lead : Lead) (mapping : Mapping) :
  EdgeServe.method req <> "OPTIONS"%string ->
  EdgeServe.json req = Returned (JObj props) ->
  obj_get props "leadId" = Some (JStr id) ->
  id <> EmptyString ->
  List.filter (fun l => String.eqb (lead_id l) id) (leads w) = [lead] ->
  status lead = pending ->
  EdgeServe.matchingMappings w lead = [mapping] ->
  let '(resp, w', rows) :=
    EdgeServe.serve JSON_parse nullDestructuringMessage req nowMs net w in
  EdgeServe.http_status resp = 200
  /\ (exists row,
        rows = [row]
        /\ EdgeServe.lead_id_ row = id
        /\ EdgeServe.attempt_no row = 1
        /\ EdgeServe.status_code row
           = match net with
             | EdgeServe.FetchResponse st _ => Some st
             | EdgeServe.FetchError _ => None
             end)
  /\ exists lead',
       findLead w' id = Some lead'
       /\ status lead' = edgeStatus net
       /\ advertiserId lead' = Some (adv_id (map_advertiser mapping)).
Proof.
  intros Hmethod Hjson Hid Hne Hrows Hpending Hmap.
  rewrite (serve_found req props id nowMs net w lead) by assumption.
  destruct (filter_single_id id w lead Hrows) as [Hlid Hfind].
  unfold EdgeServe.forward. rewrite Hpending, Hmap, Hlid.
  cbn [LeadStatus_eqb negb EdgeServe.maybeSingle]. unfold EdgeServe.deliver.
  destruct net as [st text|msg]; cbn [edgeStatus]; unfold is2xx.
  - destruct ((200 <=? st) && (st <? 300)).
    + split; [reflexivity|]. split; [eexists; repeat split|].
      eexists. split;
        [eapply (findLead_patched w); [reflexivity | exact Hfind]|].
      split; reflexivity.
    + split; [reflexivity|]. split; [eexists; repeat split|].
      eexists. split;
        [eapply (findLead_patched w); [reflexivity | exact Hfind]|].
      split; reflexivity.
  - split; [reflexivity|]. split; [eexists; repeat split|].
    eexists. split;
      [eapply (findLead_patched w); [reflexivity | exact Hfind]|].
    split; reflexivity.
Qed.

(** X27.  Calling the edge function again for the same lead does nothing:
    whatever the first call did with a pending lead (delivered it, failed
    to, or found no mapping), a second call answers 200, leaves the world
    as it is and writes no row. *)
Theorem edge_second_call_is_noop (req : EdgeServe.Request) (props : JsObject)
    (id : string) (nowMs laterMs : Z) (net net' : EdgeServe.FetchResult)
    (w : World) (lead : Lead) :
  EdgeServe.method req <> "OPTIONS"%string ->
  EdgeServe.json req = Returned (JObj props) ->
  obj_get props "leadId" = Some (JStr id) ->
  id <> EmptyString ->
  List.filter (fun l => String.eqb (lead_id l) id) (leads w) = [lead] ->
  status lead = pending ->
  let '(_, w1, _) :=
    EdgeServe.serve JSON_parse nullDestructuringMessage req nowMs net w in
  exists resp,
    EdgeServe.serve JSON_parse nullDestructuringMessage req laterMs net' w1
    = (resp, w1, [])
    /\ EdgeServe.http_status resp = 200.
Proof.
  intros Hmethod Hjson Hid Hne Hrows Hpending.
  rewrite (serve_found req props id nowMs net w lead) by assumption.
  destruct (filter_single_id id w lead Hrows) as [Hlid _].
  assert (Hagain : forall patch st,
            p_status patch = Some st -> st <> pending ->
            exists resp,
              EdgeServe.serve JSON_parse nullDestructuringMessage req laterMs
                net' (lead_update id (apply_patch patch) w)
              = (resp, lead_update id (apply_patch patch) w, [])
              /\ EdgeServe.http_status resp = 200).
  { intros patch st Hst Hnp.
    rewrite (serve_found req props id laterMs net' _ (apply_patch patch lead))
      by (try assumption; now rewrite filter_lead_update, Hrows).
    unfold EdgeServe.forward. cbn [apply_patch status]. rewrite Hst.
    cbn [default]. unfold Datatypes.id.
    destruct st; try (now contradiction Hnp);
      cbn [LeadStatus_eqb negb]; eexists; split; reflexivity. }
  unfold EdgeServe.forward. rewrite Hpending, Hlid.
  cbn [LeadStatus_eqb negb].
  destruct (EdgeServe.maybeSingle (EdgeServe.matchingMappings w lead))
    as [[mapping|] []];
    try (eapply Hagain; [reflexivity | discriminate]).
  unfold EdgeServe.deliver. destruct net as [st text|msg].
  - destruct ((200 <=? st) && (st <? 300));
      (eapply Hagain; [reflexivity | discriminate]).
  - eapply Hagain; [reflexivity | discriminate].
Qed.

(** X28.  Two enabled mappings for one affiliate and offer: the edge
    function reads this as no mapping (the lead becomes [no_mapping] and
    nothing is sent), while the worker's [findFirst] takes the first of
    them. *)
Theorem edge_ambiguous_mapping (lead : Lead) (nowMs : Z)
    (net : EdgeServe.FetchResult) (w : World) (m1 m2 : Mapping)
    (more : list Mapping) :
  findLead w (lead_id lead) = Some lead ->
  status lead = pending ->
  EdgeServe.matchingMappings w lead = m1 :: m2 :: more ->
  let '(_, w', rows) := EdgeServe.forward JSON_parse lead nowMs net w in
  rows = []
  /\ (exists lead',
        findLead w' (lead_id lead) = Some lead' /\ status lead' = no_mapping)
  /\ findMapping w lead = Some m1.
Proof.
  intros Hfind Hpending Hmap. unfold EdgeServe.forward.
  rewrite Hpending, Hmap. cbn [LeadStatus_eqb negb EdgeServe.maybeSingle].
  split; [reflexivity|]. split.
  - eexists. split;
      [eapply (findLead_patched w); [reflexivity | exact Hfind] | reflexivity].
  - unfold findMapping. rewrite find_filter_head.
    unfold EdgeServe.matchingMappings in Hmap. now rewrite Hmap.
Qed.

Lemma findFieldMappings_withoutTransforms (w : World) (advertiser : Advertiser) :
  findFieldMappings (withoutTransforms w) advertiser
  = map withoutTransform (findFieldMappings w advertiser).
Proof.
  unfold findFieldMappings, withoutTransforms. cbn [fieldMappings].
  induction (fieldMappings w) as [|fm fms IH]; [reflexivity|].
  cbn [map List.filter withoutTransform fm_advertiserId allowlist].
  destruct (String.eqb (fm_advertiserId fm) (adv_id advertiser) && allowlist fm);
    cbn [map]; now rewrite IH.
Qed.

Lemma edge_applyMapping (lead : Lead) (payload : JsObject) (fm : FieldMapping) :
  EdgeFunction.applyMapping lead payload fm
  = applyMapping lead payload (withoutTransform fm).
Proof.
  unfold EdgeFunction.applyMapping, applyMapping, resolveValue.
  cbn [withoutTransform sourceField targetField transform].
  reflexivity.
Qed.

(** X29.  The edge function never applies a transform: the payload it
    builds from the allow-listed rules of an advertiser is the one the
    worker builds when every transform is removed. *)
Theorem edge_payload_ignores_transforms (w : World) (lead : Lead)
    (advertiser : Advertiser) :
  EdgeFunction.buildPayload (findFieldMappings w advertiser) lead
  = buildAnonymizedPayload (withoutTransforms w) lead advertiser.
Proof.
  unfold EdgeFunction.buildPayload, buildAnonymizedPayload.
  rewrite findFieldMappings_withoutTransforms, length_map.
  destruct (0 <? length (findFieldMappings w advertiser))%nat; [|reflexivity].
  generalize (@nil (string * JValue)).
  induction (findFieldMappings w advertiser) as [|fm fms IH]; intros acc;
    [reflexivity|].
  cbn [fold_left map]. now rewrite edge_applyMapping, IH.
Qed.
End EdgeFacts.

Section MoreRuns.
Import ForwardLead Callback Vocabulary Scenario.
Local Open Scope string_scope.

Lemma rejected_callback_changes_nothing_witness :
  fst (handler forgedCallback t0 forwardedWorld) <> Ok
  /\ snd (handler forgedCallback t0 forwardedWorld) = forwardedWorld.
Proof.
  assert (Hrej : fst (handler forgedCallback t0 forwardedWorld) <> Ok)
    by (vm_compute; discriminate).
  split; [exact Hrej|].
  exact (rejected_callback_changes_nothing forgedCallback t0 forwardedWorld
           Hrej).
Defined.

Lemma forward_without_mapping_witness :
  findLead unmappedWorld "lead-1" = Some lead1
  /\ status lead1 = pending
  /\ findMapping unmappedWorld lead1 = None
  /\ forwardLogs (snd (processForwardLead job1 t0 (respond 201) unmappedWorld))
     = [].
Proof.
  do 3 (split; [reflexivity|]).
  exact (proj1 (proj2 (forward_without_mapping job1 t0 (respond 201)
                         unmappedWorld lead1 eq_refl eq_refl eq_refl))).
Defined.

Lemma forward_success_witness :
  findLead (world []) "lead-1" = Some lead1
  /\ status lead1 = pending
  /\ findMapping (world []) lead1 = Some mappingAO
  /\ is2xx 201 = true
  /\ fst (processForwardLead job1 t0 (NetResponse (response 201)) (world []))
     = Returned tt.
Proof.
  do 4 (split; [reflexivity|]).
  exact (proj1 (forward_success job1 t0 (response 201) (world []) lead1
                  mappingAO eq_refl eq_refl eq_refl eq_refl)).
Defined.

Lemma transient_failure_keeps_pending_witness :
  findLead (world []) "lead-1" = Some lead1
  /\ status lead1 = pending
  /\ findMapping (world []) lead1 = Some mappingAO
  /\ isTransient (NetFailure "ECONNRESET") = true
  /\ attemptsMade job1 < attemptsAllowed job1 - 1
  /\ leads (snd (processForwardLead job1 t0 (NetFailure "ECONNRESET")
                   (world [])))
     = [lead1].
Proof.
  assert (Hleft : attemptsMade job1 < attemptsAllowed job1 - 1)
    by (vm_compute; reflexivity).
  do 4 (split; [reflexivity|]). split; [exact Hleft|].
  exact (proj1 (proj2 (transient_failure_keeps_pending job1 t0
                         (NetFailure "ECONNRESET") (world []) lead1 mappingAO
                         eq_refl eq_refl eq_refl eq_refl Hleft))).
Defined.

Lemma transient_failure_on_last_attempt_witness :
  findLead (world []) "lead-1" = Some lead1
  /\ status lead1 = pending
  /\ findMapping (world []) lead1 = Some mappingAO
  /\ isTransient (NetResponse (response 503)) = true
  /\ attemptsAllowed job1_last - 1 <= attemptsMade job1_last
  /\ exists lead',
       findLead (snd (processForwardLead job1_last t0
                        (NetResponse (response 503)) (world []))) "lead-1"
       = Some lead'
       /\ status lead' = forward_failed.
Proof.
  assert (Hlast : attemptsAllowed job1_last - 1 <= attemptsMade job1_last)
    by (vm_compute; discriminate).
  do 4 (split; [reflexivity|]). split; [exact Hlast|].
  destruct (transient_failure_on_last_attempt job1_last t0
              (NetResponse (response 503)) (world []) lead1 mappingAO
              eq_refl eq_refl eq_refl eq_refl Hlast)
    as (_ & _ & lead' & Hfind & Hst & _).
  exists lead'. split; assumption.
Defined.

Lemma answered_lead_is_not_redelivered_witness :
  findLead (world []) "lead-1" = Some lead1
  /\ status lead1 = pending
  /\ findMapping (world []) lead1 = Some mappingAO
  /\ resp_status (response 404) < 500
  /\ job_leadId job1_retry = job_leadId job1
  /\ let w1 :=
       snd (processForwardLead job1 t0 (NetResponse (response 404))
              (world [])) in
     processForwardLead job1_retry (t0 + 1000) (NetResponse (response 200)) w1
     = (Returned tt, w1).
Proof.
  assert (Hlt : resp_status (response 404) < 500) by (vm_compute; reflexivity).
  do 3 (split; [reflexivity|]). split; [exact Hlt|]. split; [reflexivity|].
  exact (answered_lead_is_not_redelivered job1 job1_retry t0 (t0 + 1000)
           (response 404) (NetResponse (response 200)) (world []) lead1
           mappingAO eq_refl eq_refl eq_refl Hlt eq_refl).
Defined.

Lemma default_payload_witness :
  findFieldMappings (world []) advertiserX = []
  /\ obj_get (buildAnonymizedPayload (world []) lead1 advertiserX) "last_name"
     = None
  /\ obj_get (buildAnonymizedPayload (world []) lead1 advertiserX) "country"
     = Some (JStr "BD").
Proof.
  split; [reflexivity|]. split.
  - exact (default_payload (world []) lead1 advertiserX "last_name" eq_refl).
  - exact (default_payload (world []) lead1 advertiserX "country" eq_refl).
Defined.

Lemma concat_template_witness :
  free_of "{" "Dear "
  /\ free_of "$" "Ada"
  /\ applyTransform (JStr "Ada")
       (Some {| ttype := "concat"; template := Some "Dear {{value}}!" |})
     = JStr "Dear Ada!".
Proof.
  assert (Hpre : free_of "{" "Dear ") by (simpl; repeat split; reflexivity).
  assert (Hval : free_of "$" "Ada") by (simpl; repeat split; reflexivity).
  do 2 (split; [assumption|]).
  exact (concat_template "Dear " "!" "Ada" Hpre Hval).
Defined.

Lemma retryLead_resets_witness :
  findLead forwardedWorld "lead-1" = Some forwardedLead
  /\ status forwardedLead = forwarded
  /\ let '(outcome, w1, queue) :=
       retryLead "not found" "lead-1" (t0 + 5000) forwardedWorld (Some []) in
     outcome = Returned tt
     /\ queue = Some [job1]
     /\ exists lead',
          findLead w1 "lead-1" = Some lead' /\ status lead' = pending.
Proof.
  assert (Hlead : findLead forwardedWorld "lead-1" = Some forwardedLead)
    by (vm_compute; reflexivity).
  split; [exact Hlead|]. split; [vm_compute; reflexivity|].
  pose proof (retryLead_resets "not found" "lead-1" (t0 + 5000) forwardedWorld
                [] forwardedLead Hlead) as P.
  destruct (retryLead "not found" "lead-1" (t0 + 5000) forwardedWorld (Some []))
    as [[outcome w1] queue].
  destruct P as (Hout & Hqueue & lead' & Hfind & Hst & _).
  split; [exact Hout|]. split; [exact Hqueue|].
  exists lead'. split; assumption.
Defined.

Lemma retryLead_without_queue_witness :
  findLead forwardedWorld "lead-1" = Some forwardedLead
  /\ let '(outcome, w1, queue) :=
       retryLead "not found" "lead-1" (t0 + 5000) forwardedWorld None in
     (exists e, outcome = Threw e)
     /\ queue = None
     /\ exists lead',
          findLead w1 "lead-1" = Some lead' /\ status lead' = pending.
Proof.
  assert (Hlead : findLead forwardedWorld "lead-1" = Some forwardedLead)
    by (vm_compute; reflexivity).
  split; [exact Hlead|].
  exact (retryLead_without_queue "not found" "lead-1" (t0 + 5000)
           forwardedWorld forwardedLead Hlead).
Defined.

Lemma retry_then_forward_witness :
  findLead forwardedWorld "lead-1" = Some forwardedLead
  /\ findMapping forwardedWorld forwardedLead = Some mappingAO
  /\ is2xx (resp_status (response 200)) = true
  /\ let '(_, w1, queue) :=
       retryLead "not found" "lead-1" (t0 + 5000) forwardedWorld (Some []) in
     exists job,
       queue = Some ([] ++ [job])%list
       /\ let run :=
            processForwardLead job (t0 + 6000) (NetResponse (response 200)) w1
          in
          fst run = Returned tt
          /\ (exists row,
                forwardLogs (snd run) = (forwardLogs forwardedWorld ++ [row])%list
                /\ attemptNo row = 1
                /\ fl_statusCode row = Some (resp_status (response 200)))
          /\ exists lead',
               findLead (snd run) "lead-1" = Some lead'
               /\ status lead' = forwarded.
Proof.
  assert (Hlead : findLead forwardedWorld "lead-1" = Some forwardedLead)
    by (vm_compute; reflexivity).
  assert (Hmap : findMapping forwardedWorld forwardedLead = Some mappingAO)
    by (vm_compute; reflexivity).
  do 2 (split; [assumption|]). split; [reflexivity|].
  exact (retry_then_forward "not found" "lead-1" (t0 + 5000) (t0 + 6000)
           forwardedWorld [] forwardedLead mappingAO (response 200)
           Hlead Hmap eq_refl).
Defined.

Lemma set_then_get_witness :
  0 <= 300
  /\ RedisHelper.get (t0 + 299999) "k"
       (RedisHelper.set t0 "k" "v" (Some 300) ∅) = Some "v"
  /\ RedisHelper.get (t0 + 300000) "k"
       (RedisHelper.set t0 "k" "v" (Some 300) ∅) = None.
Proof.
  assert (Httl : 0 <= 300) by lia.
  split; [exact Httl|]. split.
  - exact (proj1 (set_then_get t0 (t0 + 299999) "k" "v" 300 ∅ Httl)).
  - exact (proj1 (set_then_get t0 (t0 + 300000) "k" "v" 300 ∅ Httl)).
Defined.

Lemma fixed_window_counting_witness :
  RedisHelper.exists_ t0 "rate_limit:10.0.0.1" ∅ = false
  /\ 0 < 60
  /\ Forall (fun t => t < t0 + 1000 * 60) [t0 + 1; t0 + 59999]
  /\ Z.of_nat (length [t0 + 1; t0 + 59999]) < 2 ^ 63 - 2
  /\ rateChecks "rate_limit:10.0.0.1" 2 60 [t0; t0 + 1; t0 + 59999] ∅
     = [Returned true; Returned true; Returned false].
Proof.
  assert (Hgone : RedisHelper.exists_ t0 "rate_limit:10.0.0.1" ∅ = false)
    by reflexivity.
  assert (Hwindow : 0 < 60) by lia.
  assert (Htimes : Forall (fun t => t < t0 + 1000 * 60) [t0 + 1; t0 + 59999]).
  { apply Forall_cons. split; [reflexivity|].
    apply Forall_cons. split; [reflexivity | apply Forall_nil; exact I]. }
  assert (Hlen : Z.of_nat (length [t0 + 1; t0 + 59999]) < 2 ^ 63 - 2)
    by reflexivity.
  do 4 (split; [assumption|]).
  exact (proj1 (fixed_window_counting "rate_limit:10.0.0.1" 2 60 t0
                  [t0 + 1; t0 + 59999] ∅ Hgone Hwindow Htimes Hlen)).
Defined.

Lemma rateLimiter_isolated_witness :
  "10.0.0.2" <> "10.0.0.1"
  /\ fst (RateLimit.rateLimiter 1 "10.0.0.1" (t0 + 1)
            (snd (RateLimit.rateLimiter 1 "10.0.0.2" t0 ∅)))
     = fst (RateLimit.rateLimiter 1 "10.0.0.1" (t0 + 1) ∅).
Proof.
  assert (Hne : "10.0.0.2" <> "10.0.0.1") by discriminate.
  split; [exact Hne|].
  exact (rateLimiter_isolated 1 "10.0.0.1" "10.0.0.2" (t0 + 1) t0 ∅ Hne).
Defined.

Lemma edge_delivery_is_final_witness :
  EdgeServe.method edgeRequest <> "OPTIONS"
  /\ EdgeServe.json edgeRequest = Returned (JObj [("leadId", JStr "lead-1")])
  /\ obj_get [("leadId", JStr "lead-1")] "leadId" = Some (JStr "lead-1")
  /\ "lead-1" <> EmptyString
  /\ List.filter (fun l => String.eqb (lead_id l) "lead-1") (leads (world []))
     = [lead1]
  /\ status lead1 = pending
  /\ EdgeServe.matchingMappings (world []) lead1 = [mappingAO]
  /\ let '(resp, w', rows) :=
       EdgeServe.serve noParse EmptyString edgeRequest t0
         (EdgeServe.FetchResponse 503 "busy") (world []) in
     exists lead',
       findLead w' "lead-1" = Some lead' /\ status lead' = forward_failed.
Proof.
  assert (Hmethod : EdgeServe.method edgeRequest <> "OPTIONS") by discriminate.
  assert (Hid : "lead-1" <> EmptyString) by discriminate.
  split; [exact Hmethod|]. do 2 (split; [reflexivity|]).
  split; [exact Hid|]. do 3 (split; [reflexivity|]).
  pose proof (edge_delivery_is_final noParse EmptyString edgeRequest
                [("leadId", JStr "lead-1")] "lead-1" t0
                (EdgeServe.FetchResponse 503 "busy") (world []) lead1
                mappingAO Hmethod eq_refl eq_refl Hid eq_refl eq_refl eq_refl)
    as P.
  destruct (EdgeServe.serve noParse EmptyString edgeRequest t0
              (EdgeServe.FetchResponse 503 "busy") (world []))
    as [[resp w'] rows].
  destruct P as (_ & _ & lead' & Hfind & Hst & _).
  exists lead'. split; assumption.
Defined.

Lemma edge_second_call_is_noop_witness :
  EdgeServe.method edgeRequest <> "OPTIONS"
  /\ EdgeServe.json edgeRequest = Returned (JObj [("leadId", JStr "lead-1")])
  /\ obj_get [("leadId", JStr "lead-1")] "leadId" = Some (JStr "lead-1")
  /\ "lead-1" <> EmptyString
  /\ List.filter (fun l => String.eqb (lead_id l) "lead-1") (leads (world []))
     = [lead1]
  /\ status lead1 = pending
  /\ let '(_, w1, _) :=
       EdgeServe.serve noParse EmptyString edgeRequest t0
         (EdgeServe.FetchError "timeout") (world []) in
     exists resp,
       EdgeServe.serve noParse EmptyString edgeRequest (t0 + 1000)
         (EdgeServe.FetchResponse 200 "ok") w1
       = (resp, w1, [])
       /\ EdgeServe.http_status resp = 200.
Proof.
  assert (Hmethod : EdgeServe.method edgeRequest <> "OPTIONS") by discriminate.
  assert (Hid : "lead-1" <> EmptyString) by discriminate.
  split; [exact Hmethod|]. do 2 (split; [reflexivity|]).
  split; [exact Hid|]. do 2 (split; [reflexivity|]).
  exact (edge_second_call_is_noop noParse EmptyString edgeRequest
           [("leadId", JStr "lead-1")] "lead-1" t0 (t0 + 1000)
           (EdgeServe.FetchError "timeout") (EdgeServe.FetchResponse 200 "ok")
           (world []) lead1 Hmethod eq_refl eq_refl Hid eq_refl eq_refl).
Defined.

Lemma empty_header_skips_checks_witness :
  truthy_str (cb_az_tx_id (body emptySignatureCallback)) = true
  /\ truthy_str (cb_status (body emptySignatureCallback)) = true
  /\ findLeadByAzTxId forwardedWorld "tx-1" = Some forwardedLead
  /\ leadAdvertiser forwardedWorld forwardedLead = Some advertiserX
  /\ x_signature emptySignatureCallback = Some EmptyString
  /\ truthy_str (endpointSecret advertiserX) = true
  /\ fst (handler emptySignatureCallback t0 forwardedWorld) = Ok
  /\ redis (snd (handler emptySignatureCallback t0 forwardedWorld))
     = redis forwardedWorld.
Proof.
  assert (Hlead : findLeadByAzTxId forwardedWorld "tx-1" = Some forwardedLead)
    by (vm_compute; reflexivity).
  assert (Hadv : leadAdvertiser forwardedWorld forwardedLead
                 = Some advertiserX) by reflexivity.
  do 6 (split; [first [assumption | reflexivity]|]).
  exact (let P := empty_header_skips_checks emptySignatureCallback t0
                    forwardedWorld forwardedLead advertiserX eq_refl eq_refl
                    Hlead Hadv (or_introl eq_refl)
         in conj (f_equal fst (proj1 P)) (proj2 P)).
Defined.

Lemma edge_ambiguous_mapping_witness :
  findLead ambiguousWorld (lead_id lead1) = Some lead1
  /\ status lead1 = pending
  /\ EdgeServe.matchingMappings ambiguousWorld lead1 = [mappingAO; mappingAO']
  /\ let '(_, w', rows) :=
       EdgeServe.forward noParse lead1 t0 (EdgeServe.FetchResponse 200 "ok")
         ambiguousWorld in
     rows = []
     /\ (exists lead',
           findLead w' (lead_id lead1) = Some lead'
           /\ status lead' = no_mapping)
     /\ findMapping ambiguousWorld lead1 = Some mappingAO.
Proof.
  do 3 (split; [reflexivity|]).
  exact (edge_ambiguous_mapping noParse lead1 t0
           (EdgeServe.FetchResponse 200 "ok") ambiguousWorld mappingAO
           mappingAO' [] eq_refl eq_refl eq_refl).
Defined.
End MoreRuns.
